(** * The encrypted bundle execution pipeline of the Windows agent

    A shallow embedding of [ThinClient/windows-agent.py]
    ([AgentHandler.handle_encrypted_execution], [decrypt_and_execute] and
    [add_base64_screenshot]) together with the properties the specification
    states about it.

    Python [str] values are sequences of Unicode code points, [bytes] values
    sequences of octets; both are lists of [N] here.  Everything the agent
    obtains from the outside (the AEAD primitive, the JSON parser, the file
    system calls, the child process) is a field of an explicit environment
    record, and every such call leaves an event in a trace. *)

From Stdlib Require Import Ascii String.
From Stdlib Require Import List NArith ZArith Bool Lia Arith.
Import ListNotations.

Set Implicit Arguments.
Set Warnings "-register-all".
Local Open Scope string_scope.
Local Open Scope N_scope.
Local Open Scope list_scope.

(** ** Text *)

Module Text.

Definition char := N.
Definition text := list char.

Definition LF : char := 10.
Definition CR : char := 13.
Definition BACKSLASH : char := 92.

(** Literals: the code points of an ASCII string. *)
Fixpoint txt (s : string) : text :=
  match s with
  | EmptyString => []
  | String a s' => N_of_ascii a :: txt s'
  end.

Definition text_eqb (a b : text) : bool :=
  if list_eq_dec N.eq_dec a b then true else false.

(** [str.isspace] on one code point, the table [str.strip] and
    [str.rstrip] use when called without argument. *)
Definition isspace (c : char) : bool :=
  ((9 <=? c) && (c <=? 13)) || ((28 <=? c) && (c <=? 32))
  || (c =? 133) || (c =? 160) || (c =? 5760)
  || ((8192 <=? c) && (c <=? 8202))
  || (c =? 8232) || (c =? 8233) || (c =? 8239) || (c =? 8287)
  || (c =? 12288).

Fixpoint lstrip (s : text) : text :=
  match s with
  | [] => []
  | c :: s' => if isspace c then lstrip s' else s
  end.

Definition rstrip (s : text) : text := rev (lstrip (rev s)).

Definition strip (s : text) : text := lstrip (rstrip s).

Fixpoint startswith (s prefix : text) : bool :=
  match prefix, s with
  | [], _ => true
  | _ :: _, [] => false
  | p :: prefix', c :: s' => (c =? p) && startswith s' prefix'
  end.

Definition endswith (s suffix : text) : bool :=
  startswith (rev s) (rev suffix).

(** [s.split('\n')]: never empty, one more piece than there are line feeds. *)
Fixpoint split_lf (s : text) : list text :=
  match s with
  | [] => [[]]
  | c :: s' =>
      if c =? LF then [] :: split_lf s'
      else match split_lf s' with
           | l :: ls => (c :: l) :: ls
           | [] => [[c]]
           end
  end.

(** ['\n'.join(ls)] *)
Fixpoint join_lf (ls : list text) : text :=
  match ls with
  | [] => []
  | [l] => l
  | l :: ls' => l ++ LF :: join_lf ls'
  end.

(** [s.replace('\r\n', '\n')] and [s.replace('\r', '\n')] *)
Fixpoint replace_crlf (s : text) : text :=
  match s with
  | [] => []
  | c :: s' =>
      match s' with
      | d :: s'' =>
          if (c =? CR) && (d =? LF) then LF :: replace_crlf s''
          else c :: replace_crlf s'
      | [] => [c]
      end
  end.

Definition replace_cr (s : text) : text :=
  map (fun c => if c =? CR then LF else c) s.

Definition normalize_newlines (s : text) : text :=
  replace_cr (replace_crlf s).

End Text.
Import Text.

(** ** Line-continuation repair ([decrypt_and_execute], the [while] loop) *)

Module Repair.

(** [line.rstrip().endswith('\\')] *)
Definition continued (line : text) : bool :=
  endswith (rstrip line) [BACKSLASH].

(** [lines[i].strip() == ''] *)
Definition is_blank (line : text) : bool :=
  match strip line with
  | [] => true
  | _ :: _ => false
  end.

(** [fixed_lines[-1] += extra] *)
Fixpoint append_to_last (fixed_lines : list text) (extra : text) : list text :=
  match fixed_lines with
  | [] => []
  | [l] => [l ++ extra]
  | l :: ls => l :: append_to_last ls extra
  end.

(** The inner loop
    [while i < len(lines) and lines[i].strip() == '': i += 1]. *)
Fixpoint skip_blank (fuel : nat) (lines : list text) (i : nat) : option nat :=
  match fuel with
  | O => None
  | S fuel' =>
      if (i <? length lines)%nat && is_blank (nth i lines []) then
        skip_blank fuel' lines (i + 1)
      else Some i
  end.

(** The outer loop, with the index [i] and the accumulator [fixed_lines] of
    the source; [None] when the fuel runs out before [i] reaches
    [len(lines)]. *)
Fixpoint repair_loop (fuel : nat) (lines : list text) (i : nat)
    (fixed_lines : list text) : option (list text) :=
  match fuel with
  | O => None
  | S fuel' =>
      if (i <? length lines)%nat then
        let line := nth i lines [] in
        if continued line then
          let fixed_lines := fixed_lines ++ [rstrip line] in
          match skip_blank (S (length lines)) lines (i + 1) with
          | None => None
          | Some j =>
              if (j <? length lines)%nat then
                repair_loop fuel' lines (j + 1)
                  (append_to_last fixed_lines (LF :: nth j lines []))
              else repair_loop fuel' lines j fixed_lines
          end
        else repair_loop fuel' lines (i + 1) (fixed_lines ++ [line])
      else Some fixed_lines
  end.

(** The same scan by recursion on the lines not read yet, [lines[i:]]. *)
Fixpoint fix_lines (lines : list text) : list text :=
  match lines with
  | [] => []
  | line :: rest =>
      if continued line then
        (fix skip (l : list text) : list text :=
           match l with
           | [] => [rstrip line]
           | x :: l' =>
               if is_blank x then skip l'
               else (rstrip line ++ LF :: x) :: fix_lines l'
           end) rest
      else line :: fix_lines rest
  end.

(** Lines 137 to 154: split, scan, join. *)
Definition repair_continuations (script_content : text) : option text :=
  let lines := split_lf script_content in
  option_map join_lf (repair_loop (S (length lines)) lines 0 []).

Definition repair (script_content : text) : text :=
  join_lf (fix_lines (split_lf script_content)).

(** The specification's wording of the test: the right-stripped content
    ends with a single backslash, a backslash that no second one precedes. *)
Definition ends_with_single_backslash (line : text) : bool :=
  endswith (rstrip line) [BACKSLASH]
  && negb (endswith (rstrip line) [BACKSLASH; BACKSLASH]).

(** [itertools.dropwhile(blank, l)], what the inner loop leaves unread. *)
Fixpoint drop_blank (l : list text) : list text :=
  match l with
  | [] => []
  | x :: l' => if is_blank x then drop_blank l' else l
  end.

(** A line that ends with two backslashes, and a text where a blank line
    follows it. *)
Definition escaped_line : text := txt "path = 'C:\\".

Definition escaped_text : text := escaped_line ++ [LF; LF] ++ txt "x = 1".

End Repair.
Import Repair.


(** ** JSON values and the Python operations the agent applies to them *)

Module Json.

(** What [json.loads] returns.  An object keeps its insertion order, as a
    Python [dict] does.  A float is kept by its printed form together with
    whether it is zero, which is all the agent looks at. *)
Inductive json : Type :=
| JNull
| JBool (b : bool)
| JInt (z : Z)
| JFloat (is_zero : bool) (repr : text)
| JStr (s : text)
| JArr (items : list json)
| JObj (fields : list (text * json)).

Definition dict := list (text * json).

(** [bool(v)] *)
Definition truthy (v : json) : bool :=
  match v with
  | JNull => false
  | JBool b => b
  | JInt z => negb (z =? 0)%Z
  | JFloat is_zero _ => negb is_zero
  | JStr s => match s with [] => false | _ => true end
  | JArr l => match l with [] => false | _ => true end
  | JObj d => match d with [] => false | _ => true end
  end.

(** [v == s] for a string literal [s] *)
Definition eq_str (v : json) (s : text) : bool :=
  match v with
  | JStr s' => text_eqb s' s
  | _ => false
  end.

Fixpoint dict_lookup (d : dict) (k : text) : option json :=
  match d with
  | [] => None
  | (k', v) :: d' => if text_eqb k' k then Some v else dict_lookup d' k
  end.

(** [k in d] *)
Definition dict_mem (d : dict) (k : text) : bool :=
  match dict_lookup d k with Some _ => true | None => false end.

(** [d[k] = v]: in place when the key is there, appended otherwise. *)
Fixpoint dict_set (d : dict) (k : text) (v : json) : dict :=
  match d with
  | [] => [(k, v)]
  | (k', v') :: d' =>
      if text_eqb k' k then (k', v) :: d' else (k', v') :: dict_set d' k v
  end.

(** [{**base, **extra}] *)
Definition dict_merge (base extra : dict) : dict :=
  fold_left (fun acc kv => dict_set acc (fst kv) (snd kv)) extra base.

End Json.
Import Json.

(** ** Exceptions *)

Module Exn.

(** The classes of [Exception] the agent can meet.  [JSONDecodeError] is the
    only one a handler of the agent names. *)
Inductive exn_class : Type :=
| KeyError | TypeError | AttributeError | ValueError | InvalidTag
| UnicodeDecodeError | OSError | TimeoutExpired | JSONDecodeError
| OtherException.

(** An exception object: its class and [str(e)]. *)
Record exn : Type := mkExn { exn_cls : exn_class; exn_str : text }.

Definition is_json_decode_error (e : exn) : bool :=
  match exn_cls e with JSONDecodeError => true | _ => false end.

Inductive result (A : Type) : Type :=
| Ok (a : A)
| Raise (e : exn).
Arguments Ok {A} a.
Arguments Raise {A} e.

End Exn.
Import Exn.

(** ** Windows path names and the file system *)

Module Fs.

Definition COLON : char := 58.
Definition SLASH : char := 47.

(** [c in '\\/'] *)
Definition is_sep (c : char) : bool := (c =? BACKSLASH) || (c =? SLASH).

(** [str.lower] on the ASCII letters, enough for drive letters. *)
Definition lower (s : text) : text :=
  map (fun c => if (65 <=? c) && (c <=? 90) then c + 32 else c) s.

(** [ntpath.splitdrive], for letter drives: [p[1:2] == ':']. *)
Definition splitdrive (p : text) : text * text :=
  match p with
  | d :: c :: rest => if c =? COLON then ([d; c], rest) else ([], p)
  | _ => ([], p)
  end.

Definition starts_with_sep (p : text) : bool :=
  match p with c :: _ => is_sep c | [] => false end.

Definition ends_with_sep (p : text) : bool :=
  match rev p with c :: _ => is_sep c | [] => false end.

Definition is_nil (p : text) : bool :=
  match p with [] => true | _ => false end.

(** [os.path.join(path, p)] of [ntpath], two arguments. *)
Definition os_path_join (path p : text) : text :=
  let (result_drive, result_path) := splitdrive path in
  let (p_drive, p_path) := splitdrive p in
  if starts_with_sep p_path then
    (if negb (is_nil p_drive) || is_nil result_drive then p_drive
     else result_drive) ++ p_path
  else if negb (is_nil p_drive) && negb (text_eqb p_drive result_drive)
          && negb (text_eqb (lower p_drive) (lower result_drive)) then
    p_drive ++ p_path
  else
    let result_drive :=
      if negb (is_nil p_drive) && negb (text_eqb p_drive result_drive)
      then p_drive else result_drive in
    let result_path :=
      if negb (is_nil result_path) && negb (ends_with_sep result_path)
      then result_path ++ [BACKSLASH] else result_path in
    result_drive ++ result_path ++ p_path.

(** Where a path name leads: a drive and the directory names from its root. *)
Record location : Type := mkLoc { loc_drive : text; loc_dirs : list text }.

(** The pieces of a path between separators. *)
Fixpoint components (p : text) : list text :=
  match p with
  | [] => [[]]
  | c :: p' =>
      if is_sep c then [] :: components p'
      else match components p' with
           | l :: ls => (c :: l) :: ls
           | [] => [[c]]
           end
  end.

Definition DOT : char := 46.

(** Walk the components from the directory [base] (innermost name first):
    an empty piece and [.] stay, [..] goes up and stops at the root. *)
Fixpoint walk (base : list text) (cs : list text) : list text :=
  match cs with
  | [] => base
  | c :: cs' =>
      if is_nil c || text_eqb c [DOT] then walk base cs'
      else if text_eqb c [DOT; DOT] then walk (tl base) cs'
      else walk (c :: base) cs'
  end.

(** The location a path name denotes for a process whose current
    directory is [cwd]; the current directory is taken to be the same on
    every drive. *)
Definition resolve (cwd : location) (p : text) : location :=
  let (drive, rest) := splitdrive p in
  let drive := if is_nil drive then loc_drive cwd else lower drive in
  if starts_with_sep rest then mkLoc drive (rev (walk [] (components rest)))
  else mkLoc drive (rev (walk (rev (loc_dirs cwd)) (components rest))).

Fixpoint prefix_of (a b : list text) : bool :=
  match a, b with
  | [], _ => true
  | _ :: _, [] => false
  | x :: a', y :: b' => text_eqb x y && prefix_of a' b'
  end.

Definition loc_eqb (a b : location) : bool :=
  text_eqb (loc_drive a) (loc_drive b)
  && prefix_of (loc_dirs a) (loc_dirs b)
  && prefix_of (loc_dirs b) (loc_dirs a).

(** [b] is [dir] or lies below it. *)
Definition under (dir b : location) : bool :=
  text_eqb (loc_drive dir) (loc_drive b)
  && prefix_of (loc_dirs dir) (loc_dirs b).

(** The file system: the directories and the files with their content. *)
Record fs : Type := mkFs {
  fs_dirs : list location;
  fs_files : list (location * text)
}.

Definition is_dir (f : fs) (l : location) : bool :=
  existsb (loc_eqb l) (fs_dirs f).

Definition read_file (f : fs) (l : location) : option text :=
  match find (fun e => loc_eqb l (fst e)) (fs_files f) with
  | Some e => Some (snd e)
  | None => None
  end.

(** [os.path.exists] *)
Definition exists_at (f : fs) (l : location) : bool :=
  is_dir f l || match read_file f l with Some _ => true | None => false end.

Definition add_dir (f : fs) (l : location) : fs :=
  mkFs (l :: fs_dirs f) (fs_files f).

(** [open(path, 'w')] then [write(content)]: the file is created or
    replaced. *)
Definition put_file (f : fs) (l : location) (content : text) : fs :=
  mkFs (fs_dirs f)
       ((l, content) :: filter (fun e => negb (loc_eqb l (fst e))) (fs_files f)).

(** [shutil.rmtree(dir)]: what lies at or below [dir] goes, except what
    [survives] when the removal breaks off; nothing else is touched. *)
Definition remove_tree_but (survives : location -> bool) (f : fs)
    (dir : location) : fs :=
  mkFs (filter (fun l => negb (under dir l) || survives l) (fs_dirs f))
       (filter (fun e => negb (under dir (fst e)) || survives (fst e))
               (fs_files f)).

Definition remove_tree (f : fs) (dir : location) : fs :=
  remove_tree_but (fun _ => false) f dir.

(** Nothing is left at or below [dir]. *)
Definition tree_absent (f : fs) (dir : location) : Prop :=
  (forall l, In l (fs_dirs f) -> under dir l = false) /\
  (forall e, In e (fs_files f) -> under dir (fst e) = false).

End Fs.
Import Fs.

(** ** The world outside the agent, and the effects of a request *)

Module World.

Definition bytes := list N.

(** What [subprocess.run] gives back: a completed process, or an exception
    ([TimeoutExpired] when the timeout fires, [OSError] when the program
    cannot be started). *)
Inductive proc_outcome : Type :=
| Completed (returncode : Z) (stdout stderr : text)
| RunRaised (e : exn).

(** What a request does that can be seen from outside, in order.  A call
    that can fail records how it ended. *)
Inductive event : Type :=
| EvPrint (line : text)
| EvReadBody (n : Z)
| EvJsonLoads (data : list N)
| EvFromHex (hex : text)
| EvAesgcm (key : bytes)
| EvDecrypt (key nonce data : bytes)
| EvMkdtemp (dir : text)
| EvWrite (path content : text) (ok : bool)
| EvRun (cmd : list text) (cwd : option text) (timeout : Z)
        (outcome : proc_outcome)
| EvRmtree (dir : text) (ok : bool)
| EvImageOpen (path : text).

(** Library and operating-system behaviour the agent relies on. *)
Record env : Type := mkEnv {
  API_KEY : text;
  agent_cwd : location;
  json_loads : list N -> result json;
  bytes_fromhex : text -> result bytes;
  aesgcm_key_error : bytes -> option exn;
  aesgcm_decrypt : bytes -> bytes -> bytes -> result bytes;
  utf8_decode : bytes -> result text;
  mkdtemp : fs -> result text;
  open_error : fs -> text -> option exn;
  rmtree_error : fs -> text -> option (exn * (location -> bool));
  subprocess_run : fs -> list text -> option text -> Z -> proc_outcome * fs;
  png_base64 : fs -> text -> result text;
  py_repr : json -> text;
  py_int : text -> result Z;
  format_exc : exn -> text
}.

(** The world [E] where the removal of directories behaves as [r] says. *)
Definition with_rmtree_error (E : env)
    (r : fs -> text -> option (exn * (location -> bool))) : env :=
  mkEnv (API_KEY E) (agent_cwd E) (json_loads E) (bytes_fromhex E)
        (aesgcm_key_error E) (aesgcm_decrypt E) (utf8_decode E) (mkdtemp E)
        (open_error E) r (subprocess_run E) (png_base64 E)
        (py_repr E) (py_int E) (format_exc E).

(** What a computation leaves: what it returned or raised, the file
    system, and the events in order. *)
Definition outcome (A : Type) : Type := (result A * fs * list event)%type.

Definition result_of {A : Type} (o : outcome A) : result A := fst (fst o).
Definition fs_of {A : Type} (o : outcome A) : fs := snd (fst o).
Definition trace_of {A : Type} (o : outcome A) : list event := snd o.

(** [o], with the events [t] before its own. *)
Definition after {A : Type} (t : list event) (o : outcome A) : outcome A :=
  (result_of o, fs_of o, t ++ trace_of o).

(** A computation on the file system that returns or raises and leaves a
    trace. *)
Definition M (A : Type) : Type := fs -> outcome A.

Definition ret {A : Type} (a : A) : M A := fun f => (Ok a, f, []).

Definition raise {A : Type} (e : exn) : M A := fun f => (Raise e, f, []).

Definition bind {A B : Type} (m : M A) (k : A -> M B) : M B :=
  fun f =>
    let o := m f in
    match result_of o with
    | Ok a => after (trace_of o) (k a (fs_of o))
    | Raise e => (Raise e, fs_of o, trace_of o)
    end.

Definition lift {A : Type} (r : result A) : M A := fun f => (r, f, []).

(** [try: m / except Exception as e: handler(e)] *)
Definition try_except {A : Type} (m : M A) (handler : exn -> M A) : M A :=
  fun f =>
    let o := m f in
    match result_of o with
    | Ok a => o
    | Raise e => after (trace_of o) (handler e (fs_of o))
    end.

(** [try: m / except json.JSONDecodeError: handler] *)
Definition try_except_json {A : Type} (m : M A) (handler : M A) : M A :=
  fun f =>
    let o := m f in
    match result_of o with
    | Ok a => o
    | Raise e =>
        if is_json_decode_error e then
          after (trace_of o) (handler (fs_of o))
        else o
    end.

(** [try: m / finally: cleanup]: the cleanup runs however [m] ends; what
    [m] returned or raised stands unless the cleanup itself raises. *)
Definition try_finally {A : Type} (m : M A) (cleanup : M unit) : M A :=
  fun f =>
    let o := m f in
    let c := cleanup (fs_of o) in
    match result_of c with
    | Ok _ => (result_of o, fs_of c, trace_of o ++ trace_of c)
    | Raise e => (Raise e, fs_of c, trace_of o ++ trace_of c)
    end.

Definition emit (ev : event) : M unit := fun f => (Ok tt, f, [ev]).

(** [print(line)] *)
Definition print (line : text) : M unit := emit (EvPrint line).

Definition get_fs : M fs := fun f => (Ok f, f, []).

Definition set_fs (f' : fs) : M unit := fun _ => (Ok tt, f', []).

End World.
Import World.

Declare Scope agent_scope.
Delimit Scope agent_scope with agent.
Notation "x <- m ;; k" := (bind m (fun x => k))
  (at level 61, m at next level, right associativity) : agent_scope.
Notation "m ;; k" := (bind m (fun _ => k))
  (at level 61, right associativity) : agent_scope.

(** ** The agent *)

(** The functions below follow [windows-agent.py] statement by statement.
    [print] is taken never to fail; the log lines are kept where they
    report a failure or mark a step, and their formatted details are
    shortened. *)

Module Agent.

Local Open Scope agent_scope.

Definition QUOTE : char := 34.

(** [type(v).__name__] *)
Definition type_name (v : json) : text :=
  match v with
  | JNull => txt "NoneType"
  | JBool _ => txt "bool"
  | JInt _ => txt "int"
  | JFloat _ _ => txt "float"
  | JStr _ => txt "str"
  | JArr _ => txt "list"
  | JObj _ => txt "dict"
  end.

Definition quoted (s : text) : text := txt "'" ++ s ++ txt "'".

(** [v.get(k, default)] *)
Definition py_get (v : json) (k : text) (default : json) : result json :=
  match v with
  | JObj d =>
      Ok (match dict_lookup d k with Some x => x | None => default end)
  | _ =>
      Raise (mkExn AttributeError
               (quoted (type_name v) ++ txt " object has no attribute 'get'"))
  end.

(** [v[k]] for a string key [k] *)
Definition py_index (v : json) (k : text) : result json :=
  match v with
  | JObj d =>
      match dict_lookup d k with
      | Some x => Ok x
      | None => Raise (mkExn KeyError (quoted k))
      end
  | _ =>
      Raise (mkExn TypeError
               (quoted (type_name v) ++ txt " object is not subscriptable by str"))
  end.

(** [len(v)] *)
Definition py_len (v : json) : result nat :=
  match v with
  | JStr s => Ok (length s)
  | JArr l => Ok (length l)
  | JObj d => Ok (length d)
  | _ =>
      Raise (mkExn TypeError
               (txt "object of type " ++ quoted (type_name v) ++ txt " has no len()"))
  end.

(** [iter(v)], all at once: the items of a list, the keys of a dict, the
    characters of a string. *)
Definition py_iter (v : json) : result (list json) :=
  match v with
  | JArr l => Ok l
  | JObj d => Ok (map (fun kv => JStr (fst kv)) d)
  | JStr s => Ok (map (fun c => JStr [c]) s)
  | _ =>
      Raise (mkExn TypeError
               (quoted (type_name v) ++ txt " object is not iterable"))
  end.

(** [v1 or v2] *)
Definition py_or (v1 v2 : json) : json := if truthy v1 then v1 else v2.

Record request : Type := mkRequest {
  req_path : text;
  req_headers : list (text * text);
  req_body : bytes
}.

Inductive body : Type :=
| RawBody (b : bytes)
| JsonDumps (v : json).

Record response : Type := mkResponse {
  resp_status : Z;
  resp_body : body
}.

(** Header names compare without case. *)
Fixpoint header (hs : list (text * text)) (name : text) : option text :=
  match hs with
  | [] => None
  | (k, v) :: hs' =>
      if text_eqb (lower k) (lower name) then Some v else header hs' name
  end.

(** [b'{"success": false, "error": "Unauthorized"}'] *)
Definition unauthorized_body : bytes :=
  txt "{" ++ [QUOTE] ++ txt "success" ++ [QUOTE] ++ txt ": false, "
  ++ [QUOTE] ++ txt "error" ++ [QUOTE] ++ txt ": "
  ++ [QUOTE] ++ txt "Unauthorized" ++ [QUOTE] ++ txt "}".

Section WithEnv.

Variable E : env.

(** *** Calls into the world *)

(** [bytes.fromhex(v)] *)
Definition fromhex (v : json) : M bytes :=
  match v with
  | JStr s => emit (EvFromHex s) ;; lift (bytes_fromhex E s)
  | _ =>
      raise (mkExn TypeError
               (txt "fromhex() argument must be str, not " ++ type_name v))
  end.

(** [AESGCM(key)] *)
Definition AESGCM (key : bytes) : M bytes :=
  emit (EvAesgcm key) ;;
  match aesgcm_key_error E key with
  | Some e => raise e
  | None => ret key
  end.

(** [aesgcm.decrypt(nonce, data, None)] *)
Definition aesgcm_open (aesgcm nonce data : bytes) : M bytes :=
  emit (EvDecrypt aesgcm nonce data) ;;
  lift (aesgcm_decrypt E aesgcm nonce data).

Definition decode (b : bytes) : M text := lift (utf8_decode E b).

Definition loads (data : list N) : M json :=
  emit (EvJsonLoads data) ;; lift (json_loads E data).

(** [tempfile.mkdtemp(prefix=...)] *)
Definition make_temp_dir : M text :=
  f <- get_fs ;;
  match mkdtemp E f with
  | Ok d =>
      set_fs (add_dir f (resolve (agent_cwd E) d)) ;;
      emit (EvMkdtemp d) ;; ret d
  | Raise e => raise e
  end.

(** [with open(path, 'w', encoding='utf-8', newline='\n') as f:
       f.write(content)] *)
Definition write_file (path content : text) : M unit :=
  f <- get_fs ;;
  match open_error E f path with
  | Some e => emit (EvWrite path content false) ;; raise e
  | None =>
      set_fs (put_file f (resolve (agent_cwd E) path) content) ;;
      emit (EvWrite path content true)
  end.

(** [shutil.rmtree(dir)] *)
Definition rmtree (dir : text) : M unit :=
  f <- get_fs ;;
  match rmtree_error E f dir with
  | Some (e, survives) =>
      set_fs (remove_tree_but survives f (resolve (agent_cwd E) dir)) ;;
      emit (EvRmtree dir false) ;; raise e
  | None =>
      set_fs (remove_tree f (resolve (agent_cwd E) dir)) ;;
      emit (EvRmtree dir true)
  end.

(** [subprocess.run(cmd, capture_output=True, text=True, timeout=...,
    cwd=...)]: return code, stdout, stderr. *)
Definition run (cmd : list text) (cwd : option text) (timeout : Z)
  : M (Z * text * text) :=
  f <- get_fs ;;
  let (outcome, f') := subprocess_run E f cmd cwd timeout in
  set_fs f' ;;
  emit (EvRun cmd cwd timeout outcome) ;;
  match outcome with
  | Completed rc out err => ret (rc, out, err)
  | RunRaised e => raise e
  end.

(** [os.path.join(temp_dir, name)] for a [name] taken from the payload *)
Definition join_name (temp_dir : text) (name : json) : M text :=
  match name with
  | JStr n => ret (os_path_join temp_dir n)
  | _ =>
      raise (mkExn TypeError
               (txt "join() argument must be str, not " ++ type_name name))
  end.

(** [str(arg)] *)
Definition py_str (v : json) : text :=
  match v with
  | JStr s => s
  | _ => py_repr E v
  end.

(** *** [add_base64_screenshot] *)

Definition add_base64_screenshot (response : dict) : M (option dict) :=
  try_except
    (let screenshot_path :=
       match dict_lookup response (txt "path") with
       | Some p => p
       | None => JNull
       end in
     if negb (truthy screenshot_path) then
       print (txt "[API-SCRIPT] No screenshot path found") ;; ret None
     else
       match screenshot_path with
       | JStr p =>
           f <- get_fs ;;
           if negb (exists_at f (resolve (agent_cwd E) p)) then
             print (txt "[API-SCRIPT] No screenshot path found") ;; ret None
           else
             print (txt "[API-SCRIPT] Loading screenshot from " ++ p) ;;
             emit (EvImageOpen p) ;;
             img_base64 <- lift (png_base64 E f p) ;;
             print (txt "[API-SCRIPT] Converted to base64") ;;
             let enhanced :=
               dict_set response (txt "screenshot") (JStr img_base64) in
             print (txt "[API-SCRIPT] Data from API service:") ;;
             ret (Some enhanced)
       | _ =>
           (* [os.path.exists] or [Image.open] rejects what is not a
              path name *)
           raise (mkExn TypeError
                    (txt "expected str, not " ++ type_name screenshot_path))
       end)
    (fun e =>
       print (txt "[API-SCRIPT] Failed to add base64: " ++ exn_str e) ;;
       ret None).

(** *** [decrypt_and_execute] *)

(** Lines 103 to 107, the main script body. *)
Definition decrypt_main (aesgcm iv encrypted_data auth_tag : bytes) : M bytes :=
  try_except
    (aesgcm_open aesgcm iv (encrypted_data ++ auth_tag))
    (fun e =>
       print (txt "[DECRYPT] First attempt failed: " ++ exn_str e) ;;
       aesgcm_open aesgcm iv encrypted_data).

(** Lines 170 to 173, one helper. *)
Definition decrypt_helper (aesgcm helper_iv helper_encrypted helper_auth_tag
                           : bytes) : M bytes :=
  try_except
    (aesgcm_open aesgcm helper_iv (helper_encrypted ++ helper_auth_tag))
    (fun _ => aesgcm_open aesgcm helper_iv helper_encrypted).

(** Lines 163 to 186, the body of the loop over the helpers. *)
Definition save_helper (aesgcm : bytes) (temp_dir : text) (helper : json)
  : M unit :=
  try_except
    (helper_name <- lift (py_index helper (txt "name")) ;;
     helper_encrypted <-
       (v <- lift (py_index helper (txt "encryptedContent")) ;; fromhex v) ;;
     helper_iv <- (v <- lift (py_index helper (txt "iv")) ;; fromhex v) ;;
     helper_auth_tag <-
       (v <- lift (py_index helper (txt "authTag")) ;; fromhex v) ;;
     helper_decrypted <-
       decrypt_helper aesgcm helper_iv helper_encrypted helper_auth_tag ;;
     helper_content <- decode helper_decrypted ;;
     let helper_content := normalize_newlines helper_content in
     helper_path <- join_name temp_dir helper_name ;;
     write_file helper_path helper_content ;;
     print (txt "[HELPER] Saved helper script: " ++ py_str helper_name))
    (fun e =>
       name <- lift (py_get helper (txt "name") (JStr (txt "unknown"))) ;;
       print (txt "[HELPER] Failed to decrypt/save " ++ py_str name
              ++ txt ": " ++ exn_str e)).

(** [for helper in helpers: save_helper(...)] *)
Fixpoint save_helpers (aesgcm : bytes) (temp_dir : text)
    (helpers : list json) : M unit :=
  match helpers with
  | [] => ret tt
  | helper :: rest =>
      save_helper aesgcm temp_dir helper ;;
      save_helpers aesgcm temp_dir rest
  end.

(** Lines 215 to 234: what a script that exited with status 0 printed. *)
Definition normalize_output (stdout : text) : M dict :=
  try_except_json
    (output_json <- loads stdout ;;
     success <- lift (py_get output_json (txt "success") JNull) ;;
     match output_json with
     | JObj d =>
         d' <- (if truthy success && dict_mem d (txt "path") then
                  print (txt "[API-SCRIPT] Screenshot detected, adding base64...") ;;
                  enhanced <- add_base64_screenshot d ;;
                  match enhanced with
                  | Some ((_ :: _) as en) => ret en
                  | _ => ret d
                  end
                else ret d) ;;
         ret (dict_merge [(txt "success", JBool true)] d')
     | _ => raise (mkExn TypeError (txt "argument is not a mapping"))
     end)
    (ret [(txt "success", JBool true); (txt "output", JStr (strip stdout))]).

(** Lines 188 to 234: save the main script, run it, read what it printed. *)
Definition run_main (temp_dir script_content : text)
    (script_name arguments : json) : M dict :=
  main_script_path <- join_name temp_dir script_name ;;
  write_file main_script_path script_content ;;
  print (txt "[HELPER] Saved main script: " ++ py_str script_name) ;;
  args <- lift (py_iter arguments) ;;
  let args_str := map py_str args in
  let cmd := [txt "python"; main_script_path] ++ args_str in
  r <- run cmd (Some temp_dir) 60 ;;
  let '(returncode, stdout, stderr) := r in
  if negb (returncode =? 0)%Z then
    ret [(txt "success", JBool false);
         (txt "error",
          JStr (if is_nil stderr then txt "Script execution failed"
                else strip stderr));
         (txt "output", JStr (strip stdout))]
  else normalize_output stdout.

(** Lines 160 to 234, the body of the [try] that the cleanup follows. *)
Definition materialize_and_run (aesgcm : bytes) (temp_dir script_content : text)
    (helper_scripts script_name arguments : json) : M dict :=
  helpers <- lift (py_iter helper_scripts) ;;
  save_helpers aesgcm temp_dir helpers ;;
  run_main temp_dir script_content script_name arguments.

(** Lines 237 to 242, the [finally] block. *)
Definition cleanup (temp_dir : text) : M unit :=
  try_except
    (rmtree temp_dir ;;
     print (txt "[HELPER] Cleaned up temp directory"))
    (fun e =>
       print (txt "[HELPER] Failed to clean up temp directory: " ++ exn_str e)).

(** Lines 128 to 242, the branch of every type but ['powershell']. *)
Definition run_script (aesgcm decrypted : bytes)
    (helper_scripts script_name arguments : json) : M dict :=
  script_content <- decode decrypted ;;
  let script_content := normalize_newlines script_content in
  let script_content := repair script_content in
  temp_dir <- make_temp_dir ;;
  print (txt "[HELPER] Created temp directory: " ++ temp_dir) ;;
  try_finally
    (materialize_and_run aesgcm temp_dir script_content
       helper_scripts script_name arguments)
    (cleanup temp_dir).

(** Lines 113 to 126, the ['powershell'] branch. *)
Definition run_powershell (decrypted : bytes) : M dict :=
  command <- decode decrypted ;;
  r <- run [txt "powershell"; txt "-Command"; command] None 30 ;;
  let '(returncode, stdout, stderr) := r in
  ret [(txt "success", JBool (returncode =? 0)%Z);
       (txt "output", JStr (strip stdout));
       (txt "error", if is_nil stderr then JNull else JStr (strip stderr))].

Definition decrypt_and_execute (payload : json) : M dict :=
  try_except
    (encrypted_data <-
       (a <- lift (py_get payload (txt "encryptedScript") JNull) ;;
        v <- (if truthy a then ret a
              else lift (py_get payload (txt "encryptedCommand") JNull)) ;;
        fromhex v) ;;
     iv <- (v <- lift (py_index payload (txt "iv")) ;; fromhex v) ;;
     auth_tag <- (v <- lift (py_index payload (txt "authTag")) ;; fromhex v) ;;
     key <- (d <- lift (py_index payload (txt "decryption")) ;;
             v <- lift (py_index d (txt "key")) ;; fromhex v) ;;
     script_type <- lift (py_get payload (txt "type") (JStr (txt "python"))) ;;
     arguments <- lift (py_get payload (txt "arguments") (JArr [])) ;;
     script_name <-
       lift (py_get payload (txt "scriptName") (JStr (txt "unknown"))) ;;
     helper_scripts <- lift (py_get payload (txt "helperScripts") (JArr [])) ;;
     print (txt "[DECRYPT] Decrypting script: " ++ py_str script_name) ;;
     _ <- lift (py_len helper_scripts) ;;
     aesgcm <- AESGCM key ;;
     decrypted <- decrypt_main aesgcm iv encrypted_data auth_tag ;;
     print (txt "[DECRYPT] Decryption successful") ;;
     if eq_str script_type (txt "powershell") then run_powershell decrypted
     else run_script aesgcm decrypted helper_scripts script_name arguments)
    (fun e =>
       print (txt "[ERROR] Decryption/execution failed: " ++ exn_str e) ;;
       ret [(txt "success", JBool false);
            (txt "error",
             JStr (txt "Decryption/execution failed: " ++ exn_str e))]).

(** *** [handle_encrypted_execution] *)

(** [self.rfile.read(content_length)] *)
Definition read_body (req : request) (content_length : Z) : M bytes :=
  emit (EvReadBody content_length) ;;
  ret (if (content_length <? 0)%Z then req_body req
       else firstn (Z.to_nat content_length) (req_body req)).

Definition handle_encrypted_execution (req : request) : M response :=
  let auth_header :=
    match header (req_headers req) (txt "Authorization") with
    | Some v => v
    | None => []
    end in
  if negb (startswith auth_header (txt "Bearer "))
     || negb (text_eqb (skipn 7 auth_header) (API_KEY E)) then
    print (txt "[AUTH] Unauthorized attempt") ;;
    ret (mkResponse 401 (RawBody unauthorized_body))
  else
    try_except
      (content_length <-
         match header (req_headers req) (txt "Content-Length") with
         | Some v => lift (py_int E v)
         | None =>
             raise (mkExn TypeError
                      (txt "int() argument must be a string, not 'NoneType'"))
         end ;;
       body <- read_body req content_length ;;
       payload <- loads body ;;
       print (txt "[DECRYPT] Received encrypted payload") ;;
       result <- decrypt_and_execute payload ;;
       ret (mkResponse 200 (JsonDumps (JObj result))))
      (fun e =>
         let error_details := format_exc E e in
         print (txt "[ERROR] " ++ exn_str e) ;;
         print (txt "[TRACE] " ++ error_details) ;;
         ret (mkResponse 500
                (JsonDumps (JObj [(txt "success", JBool false);
                                  (txt "error", JStr (exn_str e));
                                  (txt "trace", JStr error_details)])))).

End WithEnv.

End Agent.
Import Agent.

(** ** A small concrete world, to run the agent on examples *)

Module Demo.

Definition hex_digit (c : char) : option N :=
  if (48 <=? c) && (c <=? 57) then Some (c - 48)
  else if (97 <=? c) && (c <=? 102) then Some (c - 87)
  else if (65 <=? c) && (c <=? 70) then Some (c - 55)
  else None.

Definition bad_hex : exn :=
  mkExn ValueError (txt "non-hexadecimal number found in fromhex() arg").

Fixpoint fromhex (s : text) : result bytes :=
  match s with
  | [] => Ok []
  | a :: s' =>
      match s' with
      | b :: s'' =>
          match hex_digit a, hex_digit b, fromhex s'' with
          | Some x, Some y, Ok r => Ok (16 * x + y :: r)
          | _, _, _ => Raise bad_hex
          end
      | [] => Raise bad_hex
      end
  end.

Definition hex_char (n : N) : char := if n <? 10 then 48 + n else 87 + n.

(** [bytes.hex()] *)
Definition tohex (b : bytes) : text :=
  flat_map (fun x => [hex_char (x / 16); hex_char (x mod 16)]) b.

Definition sum (b : bytes) : N := fold_right N.add 0 b.

(** A toy authenticated cipher: the text is sent in clear and the sixteen
    byte tag repeats a checksum of key, nonce and text. *)
Definition toy_tag (key nonce plain : bytes) : bytes :=
  repeat ((sum key + sum nonce + sum plain) mod 256) 16.

Definition invalid_tag : exn := mkExn InvalidTag [].

Definition toy_decrypt (key nonce data : bytes) : result bytes :=
  let n := (length data - 16)%nat in
  let plain := firstn n data in
  if (16 <=? length data)%nat
     && text_eqb (skipn n data) (toy_tag key nonce plain)
  then Ok plain else Raise invalid_tag.

Definition key_error (key : bytes) : option exn :=
  if (length key =? 32)%nat || (length key =? 24)%nat
     || (length key =? 16)%nat then None
  else Some (mkExn ValueError (txt "AESGCM key must be 128, 192, or 256 bits.")).

(** The texts the toy JSON parser knows. *)
Definition q (s : string) : text := [QUOTE] ++ txt s ++ [QUOTE].

Definition json_42 : text :=
  txt "{" ++ q "success" ++ txt ": true, " ++ q "value" ++ txt ": 42}".
Definition json_value_only : text :=
  txt "{" ++ q "value" ++ txt ": 42}".
Definition json_shot : text :=
  txt "{" ++ q "success" ++ txt ": true, " ++ q "path" ++ txt ": "
  ++ q "C:/shots/s.png" ++ txt ", " ++ q "screenshot" ++ txt ": " ++ q "old"
  ++ txt "}".

Definition loads_in (table : list (text * json)) (data : list N) : result json :=
  match find (fun e => text_eqb (fst e) data) table with
  | Some e => Ok (snd e)
  | None => Raise (mkExn JSONDecodeError (txt "Expecting value"))
  end.

Definition timed_out : exn :=
  mkExn TimeoutExpired (txt "Command timed out after 60 seconds").

(** The toy interpreter: a script that starts with [exit] fails with
    ["boom"] on stderr, one that starts with [sleep] never ends, any other
    prints its own text.  The toy shell echoes the command. *)
Definition toy_run (cwd : location) (f : fs) (cmd : list text)
    (dir : option text) (timeout : Z) : proc_outcome * fs :=
  match cmd with
  | prog :: path :: _ =>
      if text_eqb prog (txt "python") then
        match read_file f (resolve cwd path) with
        | Some script =>
            if startswith script (txt "exit") then
              (Completed 1 (txt "so far" ++ [LF]) (txt "boom" ++ [LF]), f)
            else if startswith script (txt "sleep") then
              (RunRaised timed_out, f)
            else (Completed 0 script [], f)
        | None => (Completed 2 [] (txt "can't open file"), f)
        end
      else (Completed 0 (last cmd [] ++ [LF]) [], f)
  | _ => (RunRaised (mkExn OSError (txt "no program")), f)
  end.

Definition digits (s : text) : result Z :=
  if forallb (fun c => (48 <=? c) && (c <=? 57)) s && negb (is_nil s) then
    Ok (Z.of_N (fold_left (fun acc c => 10 * acc + (c - 48)) s 0))
  else Raise (mkExn ValueError (txt "invalid literal for int()")).

Definition home : location := mkLoc (txt "c:") [txt "agent"].

Definition temp_dir : text := txt "C:\Temp\mcp_script_k3x9".

Definition key32 : bytes := repeat 7 32.
Definition iv12 : bytes := repeat 1 12.

(** The fields of an envelope for [plain], with a good tag. *)
Definition sealed (content_field : string) (plain : text) : dict :=
  [ (txt content_field, JStr (tohex plain));
    (txt "iv", JStr (tohex iv12));
    (txt "authTag", JStr (tohex (toy_tag key32 iv12 plain))) ].

Definition helper_fields (name : text) (plain : text) : dict :=
  (txt "name", JStr name) :: sealed "encryptedContent" plain.

Definition helper (name : text) (plain : text) : json :=
  JObj (helper_fields name plain).

(** A helper whose tag is wrong under both layouts. *)
Definition broken_helper (name : text) (plain : text) : json :=
  JObj [ (txt "name", JStr name);
         (txt "encryptedContent", JStr (tohex plain));
         (txt "iv", JStr (tohex iv12));
         (txt "authTag", JStr (tohex (repeat 0 16))) ].

Definition envelope_fields (plain : text) (extra : dict) : dict :=
  sealed "encryptedScript" plain
  ++ [(txt "decryption", JObj [(txt "key", JStr (tohex key32))]);
      (txt "scriptName", JStr (txt "main.py"))]
  ++ extra.

Definition envelope (plain : text) (extra : dict) : json :=
  JObj (envelope_fields plain extra).

Definition empty_fs : fs := mkFs [] [].

(** A file system with the screenshot that [json_shot] names. *)
Definition shots_fs : fs :=
  mkFs [] [(resolve home (txt "C:/shots/s.png"), [137; 80; 78; 71])].

(** Helper names: one that climbs out of the sandbox, and one with a
    parent-directory component that stays inside. *)
Definition outside_name : text := txt "../g.py".
Definition inside_name : text := txt "sub/../k.py".

(** Ciphertext, iv and tag that open under neither layout. *)
Definition garbled : bytes := [1; 2; 3].

Definition with_helpers (plain : text) (helpers : list json) : json :=
  envelope plain [(txt "helperScripts", JArr helpers)].

(** The bodies of requests that the toy JSON parser knows, and what the
    toy interpreter is made to print. *)
Definition body_script : bytes := txt "envelope: main.py".

Definition loads_table : list (text * json) :=
  [ (json_42,
     JObj [(txt "success", JBool true); (txt "value", JInt 42)]);
    (json_value_only, JObj [(txt "value", JInt 42)]);
    (json_shot,
     JObj [(txt "success", JBool true); (txt "path", JStr (txt "C:/shots/s.png"));
           (txt "screenshot", JStr (txt "old"))]);
    (body_script, envelope json_42 []) ].

Definition world : env :=
  {| API_KEY := txt "s3cret";
     agent_cwd := home;
     json_loads := loads_in loads_table;
     bytes_fromhex := fromhex;
     aesgcm_key_error := key_error;
     aesgcm_decrypt := toy_decrypt;
     utf8_decode := fun b => Ok b;
     mkdtemp := fun _ => Ok temp_dir;
     open_error := fun _ _ => None;
     rmtree_error := fun _ _ => None;
     subprocess_run := toy_run home;
     png_base64 := fun _ _ => Ok (txt "iVBORw0KGgo=");
     py_repr := fun _ => txt "?";
     py_int := digits;
     format_exc := fun e => txt "Traceback (most recent call last): " ++ exn_str e |}.


(** The command line and the sandbox of the demo requests. *)
Definition main_path : text := os_path_join temp_dir (txt "main.py").
Definition main_cmd : list text := [txt "python"; main_path].

Definition authorised_request : request :=
  mkRequest (txt "/execute-encrypted")
            [(txt "Authorization", txt "Bearer s3cret");
             (txt "Content-Length", txt "17")]
            body_script.

Definition forged_request : request :=
  mkRequest (txt "/execute-encrypted")
            [(txt "Authorization", txt "Bearer wrong")]
            (txt "{not json").

End Demo.

(** ** Stating facts about a run of the agent *)

Module Logic.

(** [m], started on [f], ends in an outcome that satisfies [Q]. *)
Definition wp {A : Type} (m : M A) (f : fs)
    (Q : result A -> fs -> list event -> Prop) : Prop :=
  Q (result_of (m f)) (fs_of (m f)) (trace_of (m f)).

(** Neither a process, nor the creation or removal of a directory. *)
Definition calm (ev : event) : Prop :=
  match ev with
  | EvRun _ _ _ _ | EvMkdtemp _ | EvRmtree _ _ => False
  | _ => True
  end.

(** Nothing that touches the file system either. *)
Definition quiet (ev : event) : Prop :=
  match ev with
  | EvRun _ _ _ _ | EvMkdtemp _ | EvRmtree _ _ | EvWrite _ _ _
  | EvImageOpen _ => False
  | _ => True
  end.

Definition is_print (ev : event) : Prop :=
  match ev with EvPrint _ => True | _ => False end.

(** [m] leaves the file system alone and only quiet events. *)
Definition silent {A : Type} (m : M A) : Prop :=
  forall f, wp m f (fun _ f' t => f' = f /\ Forall quiet t).

(** [m] leaves only calm events. *)
Definition tame {A : Type} (m : M A) : Prop :=
  forall f, wp m f (fun _ _ t => Forall calm t).

(** [m] leaves only events that satisfy [P]. *)
Definition leaves {A : Type} (P : event -> Prop) (m : M A) : Prop :=
  forall f, wp m f (fun _ _ t => Forall P t).

(** The command line of the interpreter. *)
Definition python_cmd (cmd : list text) : Prop :=
  exists main args, cmd = txt "python" :: main :: args.

(** The response to a script that exited with a status other than 0. *)
Definition script_failure (stdout stderr : text) : dict :=
  [(txt "success", JBool false);
   (txt "error",
    JStr (if is_nil stderr then txt "Script execution failed"
          else strip stderr));
   (txt "output", JStr (strip stdout))].

(** The response of [decrypt_and_execute] to an exception. *)
Definition generic_failure (e : exn) : dict :=
  [(txt "success", JBool false);
   (txt "error", JStr (txt "Decryption/execution failed: " ++ exn_str e))].

(** What the outcome [o] of the process decides about the result [r] of
    the block that started it and about the events [post] after it. *)
Definition run_verdict (o : proc_outcome) (r : result dict)
    (post : list event) : Prop :=
  match o with
  | Completed rc out err =>
      (rc =? 0)%Z = false -> r = Ok (script_failure out err) /\ post = []
  | RunRaised e => r = Raise e /\ post = []
  end.

(** The events of the block that works in the sandbox [d]: at most one
    process, the interpreter, started in [d] with the 60 second limit. *)
Definition run_shape (d : text) (r : result dict) (t : list event) : Prop :=
  (Forall calm t /\ exists e, r = Raise e) \/
  (exists pre cmd o post,
      t = pre ++ EvRun cmd (Some d) 60 o :: post /\
      Forall calm pre /\ Forall calm post /\ python_cmd cmd /\
      run_verdict o r post).

(** After the cleanup of [d] that ended as [ok] says. *)
Definition swept (E : env) (d : text) (ok : bool) (f' : fs) : Prop :=
  ok = true -> tree_absent f' (resolve (agent_cwd E) d).

(** The events of the branch for scripts. *)
Definition script_shape (E : env) (f' : fs) (r : result dict)
    (t : list event) : Prop :=
  (Forall quiet t /\ exists e, r = Raise e) \/
  (exists d line body ok line',
      t = EvMkdtemp d :: EvPrint line :: body
          ++ [EvRmtree d ok; EvPrint line'] /\
      run_shape d r body /\ swept E d ok f').

(** The events of the branch for inline commands. *)
Definition shell_shape (r : result dict) (t : list event) : Prop :=
  (t = [] /\ exists e, r = Raise e) \/
  (exists command o,
      t = [EvRun [txt "powershell"; txt "-Command"; command] None 30 o] /\
      match o with
      | Completed rc out err =>
          r = Ok [(txt "success", JBool (rc =? 0)%Z);
                  (txt "output", JStr (strip out));
                  (txt "error",
                   if is_nil err then JNull else JStr (strip err))]
      | RunRaised e => r = Raise e
      end).

(** [payload.get('type', 'python')] *)
Definition type_of (fields : dict) : json :=
  match dict_lookup fields (txt "type") with
  | Some v => v
  | None => JStr (txt "python")
  end.

(** What [decrypt_and_execute] returns for the result of its [try]. *)
Definition finish (r : result dict) : dict :=
  match r with
  | Ok d => d
  | Raise e => generic_failure e
  end.

(** The events of the [try] block of [decrypt_and_execute]: the decoding
    and decryption of the envelope, then one of the two branches. *)
Definition try_shape (E : env) (payload : json) (f' : fs) (rc : result dict)
    (t : list event) : Prop :=
  exists pre core,
    t = pre ++ core /\ Forall quiet pre /\
    ((core = [] /\ exists e, rc = Raise e) \/
     (exists fields,
         payload = JObj fields /\
         if eq_str (type_of fields) (txt "powershell")
         then shell_shape rc core
         else script_shape E f' rc core)).

(** The events of [decrypt_and_execute]. *)
Definition exec_shape (E : env) (payload : json) (f' : fs) (r : result dict)
    (t : list event) : Prop :=
  exists rc t0 post,
    t = t0 ++ post /\ try_shape E payload f' rc t0 /\
    Forall is_print post /\ r = Ok (finish rc).

(** The decryption as the specification words it: open the ciphertext
    with the tag appended; only if that raises, open the ciphertext alone;
    the error of the second attempt is the one that is reported. *)
Definition two_layouts (E : env) (key iv cipher_text tag : bytes)
  : result bytes :=
  match aesgcm_decrypt E key iv (cipher_text ++ tag) with
  | Ok plain => Ok plain
  | Raise _ => aesgcm_decrypt E key iv cipher_text
  end.

(** The calls of the AEAD primitive that this takes, in order. *)
Definition attempts (E : env) (key iv cipher_text tag : bytes) : list event :=
  EvDecrypt key iv (cipher_text ++ tag)
  :: match aesgcm_decrypt E key iv (cipher_text ++ tag) with
     | Ok _ => []
     | Raise _ => [EvDecrypt key iv cipher_text]
     end.

Definition is_decrypt (ev : event) : bool :=
  match ev with EvDecrypt _ _ _ => true | _ => false end.

(** The AEAD calls of a trace. *)
Definition decrypts (t : list event) : list event := filter is_decrypt t.

(** The hex field [k] of an object, decoded. *)
Definition hex_field (E : env) (fields : dict) (k : text) : option bytes :=
  match dict_lookup fields k with
  | Some (JStr hex) =>
      match bytes_fromhex E hex with
      | Ok b => Some b
      | Raise _ => None
      end
  | _ => None
  end.

(** The AEAD calls a helper entry asks for under the key [key]: none when
    a field is missing or is not hex, else the attempts on its own
    ciphertext, iv and tag. *)
Definition helper_attempts (E : env) (key : bytes) (helper : json)
  : list event :=
  match helper with
  | JObj fields =>
      match dict_lookup fields (txt "name"),
            hex_field E fields (txt "encryptedContent"),
            hex_field E fields (txt "iv"),
            hex_field E fields (txt "authTag") with
      | Some _, Some c, Some i, Some t => attempts E key i c t
      | _, _, _, _ => []
      end
  | _ => []
  end.

(** Not a call of the AEAD primitive. *)
Definition not_decrypt (ev : event) : Prop := is_decrypt ev = false.

Definition is_object (v : json) : Prop :=
  match v with JObj _ => True | _ => False end.

(** The key of the envelope, [bytes.fromhex(payload['decryption']['key'])]. *)
Definition envelope_key (E : env) (payload : json) : option bytes :=
  match py_index payload (txt "decryption") with
  | Ok (JObj dec) => hex_field E dec (txt "key")
  | _ => None
  end.

(** The encoded image that the enrichment adds to the object [d] on the
    file system [f], if it adds one: [success] is truthy, [path] is a
    non-empty string that names something that exists, and the image can be
    loaded and encoded. *)
Definition enrichment (E : env) (f : fs) (d : dict) : option text :=
  match dict_lookup d (txt "success"), dict_lookup d (txt "path") with
  | Some success, Some (JStr p) =>
      if truthy success && negb (is_nil p)
         && exists_at f (resolve (agent_cwd E) p)
      then match png_base64 E f p with
           | Ok img_base64 => Some img_base64
           | Raise _ => None
           end
      else None
  | _, _ => None
  end.

(** The object that [decrypt_and_execute] returns for the object [d] that
    the script printed. *)
Definition structured_success (E : env) (f : fs) (d : dict) : dict :=
  dict_merge [(txt "success", JBool true)]
    (match enrichment E f d with
     | Some img_base64 => dict_set d (txt "screenshot") (JStr img_base64)
     | None => d
     end).

(** An AEAD call is under the key of the envelope. *)
Definition under_envelope_key (E : env) (payload : json) (ev : event) : Prop :=
  match ev with
  | EvDecrypt k _ _ => envelope_key E payload = Some k
  | _ => True
  end.

End Logic.
Import Logic.

(** ** Further notions, for properties beyond the specification *)

Module More.

(** The lines of a text that are not blank, each without its trailing
    whitespace. *)
Definition solid_lines (lines : list text) : list text :=
  map rstrip (filter (fun l => negb (is_blank l)) lines).

(** A file name of one piece: not empty, not [.] or [..], and without
    separator or colon. *)
Definition plain_name (n : text) : bool :=
  negb (is_nil n)
  && negb (text_eqb n [DOT]) && negb (text_eqb n [DOT; DOT])
  && forallb (fun c => negb (is_sep c) && negb (c =? COLON)) n.

(** A path that starts with two separators (a UNC or device path), which
    [splitdrive] above does not cover. *)
Definition unc (p : text) : bool :=
  match p with
  | a :: b :: _ => is_sep a && is_sep b
  | _ => false
  end.

(** What [os.path.join] puts before a relative name: the path of the
    directory,
    with a separator when it has none at its end. *)
Definition stem (rp : text) : text :=
  if negb (is_nil rp) && negb (ends_with_sep rp) then rp ++ [BACKSLASH]
  else rp.

Definition writes_lf_only (ev : event) : Prop :=
  match ev with
  | EvWrite _ content _ => ~ In CR content
  | _ => True
  end.

(** A log line, or the opening of the image that ['path'] names in [d]. *)
Definition names_image (d : dict) (ev : event) : Prop :=
  match ev with
  | EvPrint _ => True
  | EvImageOpen p => dict_lookup d (txt "path") = Some (JStr p)
  | _ => False
  end.

(** Some AEAD call of the trace opened its ciphertext. *)
Definition opened (E : env) (t : list event) : Prop :=
  exists key iv data plain,
    In (EvDecrypt key iv data) t /\ aesgcm_decrypt E key iv data = Ok plain.

(** The request carries the configured secret as bearer token. *)
Definition authorised (E : env) (req : request) : Prop :=
  header (req_headers req) (txt "Authorization")
  = Some (txt "Bearer " ++ API_KEY E).

(** What [self.rfile.read(n)] returns for the request. *)
Definition body_read (req : request) (n : Z) : bytes :=
  if (n <? 0)%Z then req_body req
  else firstn (Z.to_nat n) (req_body req).

(** The body of the 500 response for the exception [e]. *)
Definition error_500 (E : env) (e : exn) : response :=
  mkResponse 500
    (JsonDumps (JObj [(txt "success", JBool false);
                      (txt "error", JStr (exn_str e));
                      (txt "trace", JStr (format_exc E e))])).

(** Sample inputs: a script with Windows line ends, and an authorised
    request whose body is not JSON. *)
Definition crlf_script : text :=
  txt "x = 1" ++ [CR; LF] ++ txt "print(x)".

Definition lf_script : text :=
  txt "x = 1" ++ [LF] ++ txt "print(x)".

Definition unparsable_request : request :=
  mkRequest (txt "/execute-encrypted")
            [(txt "Authorization", txt "Bearer s3cret");
             (txt "Content-Length", txt "9")]
            (txt "{not json").

Definition lengthless_request : request :=
  mkRequest (txt "/execute-encrypted")
            [(txt "Authorization", txt "Bearer s3cret")]
            (txt "{not json").

End More.
Import More.

(** ** The primitive commands of the agent *)

(** [AgentHandler.do_POST], [handle_primitive_execution] and
    [execute_command] drive the mouse, the keyboard and the screen through
    [pyautogui] and [ImageGrab].  What these are asked to do is recorded
    next to the events of the encrypted pipeline; how they answer is a
    second environment record. *)

Module Desk.

(** A call of the device layer, with the arguments as the request gave
    them, or an event of the kind the encrypted pipeline leaves. *)
Inductive action : Type :=
| Core (ev : event)
| MoveTo (x y : json) (duration : option json)
| Click (x y clicks button : json)
| Scroll (amount : json)
| TypeWrite (message interval : json)
| Press (key : json)
| Position
| Grab.

(** The device layer over a state [desk] of its own: what a call raises
    and the state it leaves, where the pointer is, and the screen as
    base64 of its PNG with its width and height. *)
Record driver (desk : Type) : Type := mkDriver {
  act : fs -> desk -> action -> option exn * fs * desk;
  mouse_at : fs -> desk -> result (Z * Z);
  screen : fs -> desk -> result (text * Z * Z)
}.

(** A computation over the file system and the device state. *)
Definition P (desk A : Type) : Type :=
  fs * desk -> result A * (fs * desk) * list action.

Definition retP {desk A : Type} (a : A) : P desk A :=
  fun s => (Ok a, s, []).

Definition raiseP {desk A : Type} (e : exn) : P desk A :=
  fun s => (Raise e, s, []).

Definition liftP {desk A : Type} (r : result A) : P desk A :=
  fun s => (r, s, []).

Definition bindP {desk A B : Type} (m : P desk A) (k : A -> P desk B)
  : P desk B :=
  fun s =>
    match m s with
    | (Ok a, s1, t1) =>
        match k a s1 with
        | (r, s2, t2) => (r, s2, t1 ++ t2)
        end
    | (Raise e, s1, t1) => (Raise e, s1, t1)
    end.

(** [try: m / except Exception as e: handler(e)] *)
Definition try_exceptP {desk A : Type} (m : P desk A)
    (handler : exn -> P desk A) : P desk A :=
  fun s =>
    match m s with
    | (Ok a, s1, t1) => (Ok a, s1, t1)
    | (Raise e, s1, t1) =>
        match handler e s1 with
        | (r, s2, t2) => (r, s2, t1 ++ t2)
        end
    end.

(** A computation of the encrypted pipeline, which leaves the devices
    alone. *)
Definition from_M {desk A : Type} (m : M A) : P desk A :=
  fun s =>
    let o := m (fst s) in
    (result_of o, (fs_of o, snd s), map Core (trace_of o)).

End Desk.
Import Desk.

Declare Scope prim_scope.
Delimit Scope prim_scope with prim.
Notation "x <- m ;; k" := (bindP m (fun x => k))
  (at level 61, m at next level, right associativity) : prim_scope.
Notation "m ;; k" := (bindP m (fun _ => k))
  (at level 61, right associativity) : prim_scope.

Module Primitive.

Local Open Scope prim_scope.

(** Lines 339 to 343: [args] as a dict, whatever the request gave. *)
Definition normalize_args (args : json) : dict :=
  match args with
  | JArr (JObj d :: _) => d
  | JObj d => d
  | _ => []
  end.

(** [d.get(k, default)] on a dict *)
Definition get (d : dict) (k : text) (default : json) : json :=
  match dict_lookup d k with
  | Some x => x
  | None => default
  end.

(** [v is None] *)
Definition is_none (v : json) : bool :=
  match v with JNull => true | _ => false end.

Definition MINUS : char := 45.

(** [-v] *)
Definition py_neg (v : json) : result json :=
  match v with
  | JInt z => Ok (JInt (- z))
  | JBool b => Ok (JInt (if b then -1 else 0))
  | JFloat is_zero r =>
      Ok (JFloat is_zero
            (if text_eqb r (txt "nan") then r
             else match r with
                  | c :: r' => if c =? MINUS then r' else MINUS :: r
                  | [] => r
                  end))
  | _ =>
      Raise (mkExn TypeError
               (txt "bad operand type for unary -: " ++ quoted (type_name v)))
  end.

(** The depth of nesting of a value. *)
Fixpoint json_depth (v : json) : nat :=
  match v with
  | JArr items =>
      S (fold_right (fun x n => Nat.max (json_depth x) n) 0%nat items)
  | JObj fields =>
      S (fold_right (fun kv n => Nat.max (json_depth (snd kv)) n) 0%nat fields)
  | _ => 0%nat
  end.

Section WithDriver.

Variable E : env.
Variable desk : Type.
Variable D : driver desk.

(** A call of [pyautogui] that returns nothing. *)
Definition device (a : action) : P desk unit :=
  fun s =>
    match act D (fst s) (snd s) a with
    | (Some e, f, d) => (Raise e, (f, d), [a])
    | (None, f, d) => (Ok tt, (f, d), [a])
    end.

(** [pyautogui.position()] *)
Definition position : P desk (Z * Z) :=
  fun s => (mouse_at D (fst s) (snd s), s, [Position]).

(** [ImageGrab.grab()], saved as PNG and encoded (lines 413 to 416). *)
Definition grab : P desk (text * Z * Z) :=
  fun s => (screen D (fst s) (snd s), s, [Grab]).

(** [args[k]] *)
Definition index (args : dict) (k : text) : P desk json :=
  liftP (py_index (JObj args) k).

(** [subprocess.run(['powershell', '-Command', cmd], ..., timeout=30)] for
    a [cmd] taken from the request. *)
Definition run_command (cmd : json) : P desk (Z * text * text) :=
  match cmd with
  | JStr c => from_M (run E [txt "powershell"; txt "-Command"; c] None 30)
  | _ =>
      raiseP (mkExn TypeError
                (txt "expected str, bytes or os.PathLike object, not "
                 ++ type_name cmd))
  end.

(** Lines 445 to 450, the loop of ['batch']; [self] stands for
    [self.execute_command]. *)
Fixpoint batch_loop (self : json -> json -> P desk dict)
    (commands results : list json) : P desk (list json) :=
  match commands with
  | [] => retP results
  | cmd :: rest =>
      result <-
        try_exceptP
          (command <- liftP (py_index cmd (txt "command")) ;;
           args <- liftP (py_get cmd (txt "args") (JObj [])) ;;
           result <- self command args ;;
           retP (JObj result))
          (fun e =>
             retP (JObj [(txt "success", JBool false);
                         (txt "error", JStr (exn_str e))])) ;;
      batch_loop self rest (results ++ [result])
  end.

(** Lines 336 to 459, with the recursive call as a parameter. *)
Definition execute_command_body (self : json -> json -> P desk dict)
    (command args : json) : P desk dict :=
  let args := normalize_args args in
  if eq_str command (txt "mouse_move") then
    x <- index args (txt "x") ;;
    y <- index args (txt "y") ;;
    let duration := get args (txt "duration") (JFloat false (txt "0.5")) in
    device (MoveTo x y (Some duration)) ;;
    retP [(txt "success", JBool true);
          (txt "message",
           JStr (txt "Moved mouse to (" ++ py_str E x ++ txt ", "
                 ++ py_str E y ++ txt ")"));
          (txt "x", x);
          (txt "y", y)]
  else if eq_str command (txt "mouse_click") then
    x <- index args (txt "x") ;;
    y <- index args (txt "y") ;;
    let button := get args (txt "button") (JStr (txt "left")) in
    let clicks := get args (txt "clicks") (JInt 1) in
    device (Click x y clicks button) ;;
    retP [(txt "success", JBool true);
          (txt "message",
           JStr (txt "Clicked " ++ py_str E button ++ txt " at ("
                 ++ py_str E x ++ txt ", " ++ py_str E y ++ txt ")"));
          (txt "x", x);
          (txt "y", y)]
  else if eq_str command (txt "mouse_position") then
    pos <- position ;;
    let (pos_x, pos_y) := pos in
    retP [(txt "success", JBool true);
          (txt "coordinates",
           JObj [(txt "x", JInt pos_x); (txt "y", JInt pos_y)]);
          (txt "message",
           JStr (txt "Mouse at (" ++ py_str E (JInt pos_x) ++ txt ", "
                 ++ py_str E (JInt pos_y) ++ txt ")"))]
  else if eq_str command (txt "mouse_scroll") then
    direction <- index args (txt "direction") ;;
    let clicks := get args (txt "clicks") (JInt 3) in
    let x := get args (txt "x") JNull in
    let y := get args (txt "y") JNull in
    (if negb (is_none x) && negb (is_none y) then device (MoveTo x y None)
     else retP tt) ;;
    scroll_amount <-
      (if eq_str direction (txt "up") then retP clicks
       else liftP (py_neg clicks)) ;;
    device (Scroll scroll_amount) ;;
    retP [(txt "success", JBool true);
          (txt "message",
           JStr (txt "Scrolled " ++ py_str E direction ++ txt " "
                 ++ py_str E clicks ++ txt " clicks"))]
  else if eq_str command (txt "keyboard_type") then
    message <- index args (txt "text") ;;
    let interval := get args (txt "interval") (JFloat false (txt "0.05")) in
    device (TypeWrite message interval) ;;
    n <- liftP (py_len message) ;;
    retP [(txt "success", JBool true);
          (txt "message",
           JStr (txt "Typed " ++ py_str E (JInt (Z.of_nat n))
                 ++ txt " characters"));
          (txt "length", JInt (Z.of_nat n))]
  else if eq_str command (txt "keyboard_press") then
    key <- index args (txt "key") ;;
    device (Press key) ;;
    retP [(txt "success", JBool true);
          (txt "message", JStr (txt "Pressed key: " ++ py_str E key));
          (txt "key", key)]
  else if eq_str command (txt "screenshot") then
    shot <- grab ;;
    let '(img_base64, width, height) := shot in
    retP [(txt "success", JBool true);
          (txt "screenshot", JStr img_base64);
          (txt "width", JInt width);
          (txt "height", JInt height);
          (txt "message", JStr (txt "Screenshot captured"))]
  else if eq_str command (txt "powershell") then
    cmd <- index args (txt "command") ;;
    r <- run_command cmd ;;
    let '(returncode, stdout, stderr) := r in
    retP [(txt "success", JBool (returncode =? 0)%Z);
          (txt "output", JStr (strip stdout));
          (txt "error", if is_nil stderr then JNull else JStr (strip stderr))]
  else if eq_str command (txt "batch") then
    let commands := get args (txt "commands") (JArr []) in
    items <- liftP (py_iter commands) ;;
    results <- batch_loop self items [] ;;
    retP [(txt "success", JBool true);
          (txt "results", JArr results);
          (txt "count", JInt (Z.of_nat (length results)))]
  else
    raiseP (mkExn ValueError (txt "Unknown command: " ++ py_str E command)).

(** [execute_command] with room for [n] nested calls. *)
Fixpoint execute_command_within (n : nat) (command args : json)
  : P desk dict :=
  match n with
  | O =>
      raiseP (mkExn OtherException (txt "maximum recursion depth exceeded"))
  | S n' => execute_command_body (execute_command_within n') command args
  end.

(** [execute_command]: the arguments of a nested batch lie deeper in
    [args], whose depth hence bounds the nesting of the calls. *)
Definition execute_command (command args : json) : P desk dict :=
  execute_command_within (S (json_depth args)) command args.

(** Lines 293 to 334. *)
Definition handle_primitive_execution (req : request) : P desk response :=
  let auth_header :=
    match header (req_headers req) (txt "Authorization") with
    | Some v => v
    | None => []
    end in
  if negb (startswith auth_header (txt "Bearer "))
     || negb (text_eqb (skipn 7 auth_header) (API_KEY E)) then
    from_M (print (txt "[AUTH] Unauthorized attempt")) ;;
    retP (mkResponse 401 (RawBody unauthorized_body))
  else
    try_exceptP
      (content_length <-
         match header (req_headers req) (txt "Content-Length") with
         | Some v => liftP (py_int E v)
         | None =>
             raiseP (mkExn TypeError
                       (txt "int() argument must be a string, not 'NoneType'"))
         end ;;
       body <- from_M (read_body req content_length) ;;
       request <- from_M (loads E body) ;;
       command <- liftP (py_get request (txt "command") JNull) ;;
       args <- liftP (py_get request (txt "args") (JObj [])) ;;
       from_M (print (txt "[EXEC] " ++ py_str E command)) ;;
       result <- execute_command command args ;;
       retP (mkResponse 200 (JsonDumps (JObj result))))
      (fun e =>
         let error_details := format_exc E e in
         from_M (print (txt "[ERROR] " ++ exn_str e)) ;;
         from_M (print (txt "[TRACE] " ++ error_details)) ;;
         retP (mkResponse 500
                 (JsonDumps (JObj [(txt "success", JBool false);
                                   (txt "error", JStr (exn_str e));
                                   (txt "trace", JStr error_details)])))).

(** Lines 36 to 40. *)
Definition do_POST (req : request) : P desk response :=
  if text_eqb (req_path req) (txt "/execute-encrypted") then
    from_M (handle_encrypted_execution E req)
  else handle_primitive_execution req.

End WithDriver.

End Primitive.
Import Primitive.

(** ** The standalone PowerShell tool *)

(** [docker/tools-standalone/execute_powershell.py] *)

Module Standalone.

Local Open Scope agent_scope.

Definition execute_powershell (E : env) (command : text) : M dict :=
  try_except
    (r <- run E [txt "powershell"; txt "-Command"; command] None 30 ;;
     let '(returncode, stdout, stderr) := r in
     if (returncode =? 0)%Z then
       ret [(txt "success", JBool true);
            (txt "output", JStr (strip stdout));
            (txt "error", JNull);
            (txt "returncode", JInt returncode)]
     else
       ret [(txt "success", JBool false);
            (txt "output", JStr (strip stdout));
            (txt "error", JStr (strip stderr));
            (txt "returncode", JInt returncode)])
    (fun e =>
       match exn_cls e with
       | TimeoutExpired =>
           ret [(txt "success", JBool false);
                (txt "output", JStr []);
                (txt "error", JStr (txt "Command timed out after 30 seconds"));
                (txt "returncode", JInt (-1))]
       | _ =>
           ret [(txt "success", JBool false);
                (txt "output", JStr []);
                (txt "error", JStr (exn_str e));
                (txt "returncode", JInt (-1))]
       end).

End Standalone.
Import Standalone.

(** ** Notions for the primitive commands *)

Module Reach.

Definition resultP {desk A : Type}
    (o : result A * (fs * desk) * list action) : result A := fst (fst o).
Definition stateP {desk A : Type}
    (o : result A * (fs * desk) * list action) : fs * desk := snd (fst o).
Definition traceP {desk A : Type}
    (o : result A * (fs * desk) * list action) : list action := snd o.

(** [Q] holds of what [m] leaves from the state [s]. *)
Definition wpP {desk A : Type} (m : P desk A) (s : fs * desk)
    (Q : result A -> fs * desk -> list action -> Prop) : Prop :=
  Q (resultP (m s)) (stateP (m s)) (traceP (m s)).

(** The names [execute_command] knows. *)
Definition command_names : list text :=
  [txt "mouse_move"; txt "mouse_click"; txt "mouse_position";
   txt "mouse_scroll"; txt "keyboard_type"; txt "keyboard_press";
   txt "screenshot"; txt "powershell"; txt "batch"].

Definition known_command (command : json) : bool :=
  existsb (eq_str command) command_names.

(** The arguments a command reads with [args[...]], in the order it reads
    them. *)
Definition required : list (text * list text) :=
  [(txt "mouse_move", [txt "x"; txt "y"]);
   (txt "mouse_click", [txt "x"; txt "y"]);
   (txt "mouse_scroll", [txt "direction"]);
   (txt "keyboard_type", [txt "text"]);
   (txt "keyboard_press", [txt "key"]);
   (txt "powershell", [txt "command"])].

(** The arguments of a batch of the commands [l]. *)
Definition batch_of (l : list json) : json :=
  JObj [(txt "commands", JArr l)].

(** The list under ['results'] in what a command returned. *)
Definition results_of {desk : Type}
    (o : result dict * (fs * desk) * list action) : list json :=
  match resultP o with
  | Ok d =>
      match dict_lookup d (txt "results") with
      | Some (JArr l) => l
      | _ => []
      end
  | Raise _ => []
  end.

(** An object with a boolean under ['success']. *)
Definition reports (v : json) : Prop :=
  exists d b, v = JObj d /\ dict_lookup d (txt "success") = Some (JBool b).

(** What a command returns has a boolean under ['success'], which is
    [False] for ['powershell'] at most. *)
Definition success_shape (command : json) (r : result dict) : Prop :=
  forall d, r = Ok d ->
    exists b, dict_lookup d (txt "success") = Some (JBool b) /\
              (eq_str command (txt "powershell") = false -> b = true).

(** A device call, as opposed to an event of the pipeline. *)
Definition is_device (a : action) : bool :=
  match a with Core _ => false | _ => true end.

End Reach.
Import Reach.

(** ** A toy desk, to run the primitive commands on examples *)

Module Toy.

(** The state of the toy devices: where the pointer is. *)
Definition pointer : Type := (Z * Z)%type.

Definition not_a_number : exn :=
  mkExn TypeError (txt "an integer is required").

Definition toy_act (f : fs) (d : pointer) (a : action)
  : option exn * fs * pointer :=
  match a with
  | MoveTo (JInt x) (JInt y) _ => (None, f, (x, y))
  | Click (JInt x) (JInt y) _ _ => (None, f, (x, y))
  | MoveTo _ _ _ | Click _ _ _ _ => (Some not_a_number, f, d)
  | _ => (None, f, d)
  end.

Definition desk_driver : driver pointer :=
  {| act := toy_act;
     mouse_at := fun _ d => Ok d;
     screen := fun _ _ => Ok (txt "iVBORw0KGgo=", 1920%Z, 1080%Z) |}.

Definition origin : pointer := (0%Z, 0%Z).

Definition move_args : json :=
  JObj [(txt "x", JInt 10); (txt "y", JInt 20)].

Definition move_cmd : json :=
  JObj [(txt "command", JStr (txt "mouse_move")); (txt "args", move_args)].

Definition dance_cmd : json :=
  JObj [(txt "command", JStr (txt "dance"))].

Definition scroll_args : json :=
  JObj [(txt "direction", JStr (txt "down")); (txt "clicks", JInt 5)].

Definition scroll_body : bytes := txt "scroll down 5".

Definition scroll_json : json :=
  JObj [(txt "command", JStr (txt "mouse_scroll")); (txt "args", scroll_args)].

(** The small world of the examples above, with a parser that knows
    [scroll_body]. *)
Definition desk_world : env :=
  mkEnv (API_KEY Demo.world) (agent_cwd Demo.world)
        (Demo.loads_in [(scroll_body, scroll_json)])
        (bytes_fromhex Demo.world) (aesgcm_key_error Demo.world)
        (aesgcm_decrypt Demo.world) (utf8_decode Demo.world)
        (mkdtemp Demo.world) (open_error Demo.world)
        (rmtree_error Demo.world) (subprocess_run Demo.world)
        (png_base64 Demo.world) (py_repr Demo.world) (py_int Demo.world)
        (format_exc Demo.world).

Definition scroll_request : request :=
  mkRequest (txt "/")
            [(txt "Authorization", txt "Bearer s3cret");
             (txt "Content-Length", txt "13")]
            scroll_body.

End Toy.

(** * Properties *)

(** ** Text lemmas *)

Section TextFacts.

Lemma lstrip_head_not_space (s : text) :
  match lstrip s with
  | [] => True
  | c :: _ => isspace c = false
  end.
Proof.
  induction s as [|c s IH]; simpl; [exact I|].
  destruct (isspace c) eqn:E; [exact IH|exact E].
Qed.

Lemma lstrip_idem (s : text) : lstrip (lstrip s) = lstrip s.
Proof.
  pose proof (lstrip_head_not_space s) as H.
  destruct (lstrip s) as [|c r]; [reflexivity|].
  simpl. now rewrite H.
Qed.

Lemma rstrip_idem (s : text) : rstrip (rstrip s) = rstrip s.
Proof.
  unfold rstrip. now rewrite rev_involutive, lstrip_idem.
Qed.

Lemma lstrip_incl (s : text) (c : char) : In c (lstrip s) -> In c s.
Proof.
  induction s as [|d s IH]; simpl; [tauto|].
  destruct (isspace d); simpl; auto.
Qed.

Lemma rstrip_incl (s : text) (c : char) : In c (rstrip s) -> In c s.
Proof.
  unfold rstrip. intros H.
  apply in_rev in H. apply lstrip_incl in H. now apply in_rev.
Qed.

Lemma split_lf_nonempty (s : text) : split_lf s <> [].
Proof.
  induction s as [|c s IH]; simpl; [discriminate|].
  destruct (c =? LF); [discriminate|].
  destruct (split_lf s); discriminate.
Qed.

Lemma split_lf_single (l : text) : ~ In LF l -> split_lf l = [l].
Proof.
  induction l as [|c l IH]; simpl; intros H; [reflexivity|].
  destruct (N.eqb_spec c LF) as [->|_]; [tauto|].
  rewrite IH by tauto. reflexivity.
Qed.

Lemma split_lf_no_lf (s : text) : Forall (fun l => ~ In LF l) (split_lf s).
Proof.
  induction s as [|c s IH]; simpl.
  - constructor; [tauto|constructor].
  - destruct (N.eqb_spec c LF) as [->|Hc].
    + constructor; [simpl; tauto|exact IH].
    + destruct (split_lf s) as [|l ls]; [repeat constructor; simpl; intuition congruence|].
      inversion IH; subst. constructor; [|assumption].
      simpl. intuition congruence.
Qed.

Lemma split_lf_app (a b : text) :
  split_lf (a ++ LF :: b) = split_lf a ++ split_lf b.
Proof.
  induction a as [|c a IH]; simpl; [reflexivity|].
  destruct (c =? LF); [now rewrite IH|].
  rewrite IH. pose proof (split_lf_nonempty a).
  destruct (split_lf a); [congruence|reflexivity].
Qed.

Lemma split_join_lf (ls : list text) :
  ls <> [] -> split_lf (join_lf ls) = flat_map split_lf ls.
Proof.
  induction ls as [|l ls IH]; [congruence|intros _].
  destruct ls as [|l2 ls].
  - simpl. now rewrite app_nil_r.
  - change (join_lf (l :: l2 :: ls)) with (l ++ LF :: join_lf (l2 :: ls)).
    rewrite split_lf_app, IH by discriminate. reflexivity.
Qed.

Lemma join_split_lf (s : text) : join_lf (split_lf s) = s.
Proof.
  induction s as [|c s IH]; simpl; [reflexivity|].
  pose proof (split_lf_nonempty s) as Hne.
  destruct (N.eqb_spec c LF) as [->|_].
  - destruct (split_lf s) as [|l ls]; [congruence|].
    simpl in *. now rewrite IH.
  - destruct (split_lf s) as [|l ls]; [congruence|].
    destruct ls; simpl in *; now rewrite <- IH.
Qed.

End TextFacts.

(** ** The scan *)

Section RepairFacts.

Lemma continued_rstrip (line : text) : continued (rstrip line) = continued line.
Proof. unfold continued. now rewrite rstrip_idem. Qed.

(** One step of the scan, with the inner loop read as [drop_blank]. *)
Lemma fix_lines_cons (line : text) (rest : list text) :
  fix_lines (line :: rest) =
  if continued line then
    match drop_blank rest with
    | [] => [rstrip line]
    | x :: l' => (rstrip line ++ LF :: x) :: fix_lines l'
    end
  else line :: fix_lines rest.
Proof.
  simpl. destruct (continued line); [|reflexivity].
  induction rest as [|x rest IH]; simpl; [reflexivity|].
  destruct (is_blank x); [exact IH|reflexivity].
Qed.

Lemma drop_blank_length (l : list text) :
  (length (drop_blank l) <= length l)%nat.
Proof.
  induction l as [|x l IH]; simpl; [lia|].
  destruct (is_blank x); simpl; lia.
Qed.

Lemma drop_blank_Forall (P : text -> Prop) (l : list text) :
  Forall P l -> Forall P (drop_blank l).
Proof.
  induction 1 as [|x l Hx Hl IH]; simpl; [constructor|].
  destruct (is_blank x); [exact IH|now constructor].
Qed.

Lemma drop_blank_head (l : list text) :
  match drop_blank l with
  | [] => True
  | x :: _ => is_blank x = false
  end.
Proof.
  induction l as [|x l IH]; simpl; [exact I|].
  destruct (is_blank x) eqn:E; [exact IH|exact E].
Qed.

Lemma fix_lines_nonempty (lines : list text) :
  lines <> [] -> fix_lines lines <> [].
Proof.
  destruct lines as [|line rest]; [congruence|intros _].
  rewrite fix_lines_cons.
  destruct (continued line); [|discriminate].
  destruct (drop_blank rest); discriminate.
Qed.

(** Splitting the emitted lines again and scanning them gives the emitted
    lines back. *)
Lemma fix_lines_resplit (n : nat) :
  forall lines : list text,
    (length lines <= n)%nat ->
    Forall (fun l => ~ In LF l) lines ->
    fix_lines (flat_map split_lf (fix_lines lines)) = fix_lines lines.
Proof.
  induction n as [|n IH]; intros lines Hlen Hlf.
  - destruct lines; [reflexivity|simpl in Hlen; lia].
  - destruct lines as [|line rest]; [reflexivity|].
    inversion Hlf as [|? ? Hline Hrest]; subst.
    simpl in Hlen.
    rewrite (fix_lines_cons line rest).
    destruct (continued line) eqn:Hc.
    + pose proof (drop_blank_length rest) as Hdl.
      pose proof (drop_blank_head rest) as Hdh.
      pose proof (drop_blank_Forall Hrest) as Hdf.
      assert (Hrs : ~ In LF (rstrip line))
        by (intros Hin; apply Hline; now apply rstrip_incl).
      destruct (drop_blank rest) as [|x l'].
      * simpl. rewrite split_lf_single by assumption. simpl.
        rewrite continued_rstrip, Hc. now rewrite rstrip_idem.
      * inversion Hdf as [|? ? Hx Hl']; subst.
        cbn [flat_map]. rewrite split_lf_app.
        rewrite (split_lf_single _ Hrs), (split_lf_single _ Hx).
        cbn [app]. rewrite fix_lines_cons, continued_rstrip, Hc.
        cbn [drop_blank]. rewrite Hdh, rstrip_idem.
        f_equal. apply IH; [simpl in Hdl; lia|assumption].
    + cbn [flat_map]. rewrite (split_lf_single _ Hline). cbn [app].
      rewrite fix_lines_cons, Hc. f_equal.
      apply IH; [lia|assumption].
Qed.

(** The index loop of the source computes [fix_lines]. *)
Lemma skipn_nth_cons (lines : list text) (i : nat) :
  (i < length lines)%nat ->
  skipn i lines = nth i lines [] :: skipn (S i) lines.
Proof.
  revert i. induction lines as [|l lines IH]; intros i Hi; simpl in Hi; [lia|].
  destruct i as [|i]; [reflexivity|].
  simpl. apply IH. lia.
Qed.

Lemma skip_blank_spec (lines : list text) (fuel : nat) :
  forall i : nat,
    (length lines - i < fuel)%nat ->
    exists j : nat,
      skip_blank fuel lines i = Some j /\ (i <= j)%nat /\
      skipn j lines = drop_blank (skipn i lines).
Proof.
  induction fuel as [|fuel IH]; intros i Hf; [lia|].
  simpl. destruct (Nat.ltb_spec i (length lines)) as [Hi|Hi].
  - rewrite (skipn_nth_cons lines Hi). simpl.
    destruct (is_blank (nth i lines [])) eqn:Hb; simpl.
    + destruct (IH (i + 1)%nat) as (j & Hj & Hle & Hs); [lia|].
      exists j. rewrite Hj. split; [reflexivity|]. split; [lia|].
      rewrite Hs. now replace (i + 1)%nat with (S i) by lia.
    + exists i. split; [reflexivity|]. split; [lia|].
      now apply skipn_nth_cons.
  - simpl. exists i. rewrite skipn_all2 by lia. auto.
Qed.

Lemma append_to_last_snoc (acc : list text) (l extra : text) :
  append_to_last (acc ++ [l]) extra = acc ++ [l ++ extra].
Proof.
  induction acc as [|a acc IH]; simpl; [reflexivity|].
  rewrite IH. destruct (acc ++ [l]) eqn:E; [|reflexivity].
  destruct acc; discriminate.
Qed.

Lemma repair_loop_fix_lines (lines : list text) (fuel : nat) :
  forall (i : nat) (acc : list text),
    (length lines - i < fuel)%nat ->
    repair_loop fuel lines i acc = Some (acc ++ fix_lines (skipn i lines)).
Proof.
  induction fuel as [|fuel IH]; intros i acc Hf; [lia|].
  cbn [repair_loop]. destruct (Nat.ltb_spec i (length lines)) as [Hi|Hi].
  - rewrite (skipn_nth_cons lines Hi), fix_lines_cons.
    destruct (continued (nth i lines [])) eqn:Hc.
    + destruct (skip_blank_spec lines (fuel := S (length lines)) (i + 1))
        as (j & Hj & Hle & Hs); [lia|].
      rewrite Hj. replace (i + 1)%nat with (S i) in Hs by lia.
      rewrite <- Hs.
      destruct (Nat.ltb_spec j (length lines)) as [Hjl|Hjl].
      * rewrite (skipn_nth_cons lines Hjl).
        rewrite IH by lia. rewrite append_to_last_snoc.
        replace (j + 1)%nat with (S j) by lia.
        now rewrite <- app_assoc.
      * rewrite skipn_all2 by lia. rewrite IH by lia.
        rewrite skipn_all2 by lia. now rewrite app_nil_r.
    + rewrite IH by lia. replace (i + 1)%nat with (S i) by lia.
      now rewrite <- app_assoc.
  - rewrite skipn_all2 by lia. now rewrite app_nil_r.
Qed.

(** The loop of the source terminates and returns [repair]. *)
Lemma repair_continuations_total (script_content : text) :
  repair_continuations script_content = Some (repair script_content).
Proof.
  unfold repair_continuations, repair.
  rewrite repair_loop_fix_lines by lia. reflexivity.
Qed.

End RepairFacts.

(** C4. The line-continuation repair is idempotent: running the loop of the
    source on its own output returns that output again. *)
Theorem repair_idempotent (script_content : text) :
  exists repaired : text,
    repair_continuations script_content = Some repaired /\
    repair_continuations repaired = Some repaired.
Proof.
  exists (repair script_content).
  rewrite !repair_continuations_total. split; [reflexivity|]. f_equal.
  unfold repair.
  pose proof (split_lf_nonempty script_content) as Hne.
  rewrite split_join_lf by (now apply fix_lines_nonempty).
  rewrite (fix_lines_resplit (n := length (split_lf script_content)));
    [reflexivity|lia|apply split_lf_no_lf].
Qed.

(** ** What the scan does to one line *)

Section ScanFacts.

Lemma endswith_one (s : text) (c : char) :
  endswith s [c] = true <-> exists body, s = body ++ [c].
Proof.
  unfold endswith. cbn [rev app]. split.
  - intros H. destruct (rev s) as [|x r] eqn:Hr; [discriminate|].
    cbn [startswith] in H. apply andb_true_iff in H as [H _].
    apply N.eqb_eq in H. subst x.
    exists (rev r). rewrite <- (rev_involutive s), Hr. reflexivity.
  - intros [body ->]. rewrite rev_app_distr. cbn [rev app startswith].
    rewrite N.eqb_refl. now destruct (rev body).
Qed.

Lemma drop_blank_blanks (blanks l : list text) :
  Forall (fun b => is_blank b = true) blanks ->
  drop_blank (blanks ++ l) = drop_blank l.
Proof.
  induction 1 as [|b blanks Hb _ IH]; [reflexivity|].
  cbn. now rewrite Hb.
Qed.

End ScanFacts.

(** C5, as amended.  The scan treats a line it reaches as continued exactly
    when its right-stripped content ends with a backslash, whatever comes
    before that backslash.  For such a line it emits the right-stripped
    line, passes over the blank lines that follow and appends the next
    line that is not blank after a line feed, consuming it; at the end of
    the text it emits the right-stripped line alone.  Any other line it
    reaches is emitted unchanged.  The index loop of the source computes
    this scan. *)
Theorem repair_scan (line : text) (rest : list text) :
  (continued line = true <-> exists body, rstrip line = body ++ [BACKSLASH]) /\
  (continued line = false ->
   fix_lines (line :: rest) = line :: fix_lines rest) /\
  (continued line = true ->
   forall blanks,
     Forall (fun b => is_blank b = true) blanks ->
     fix_lines (line :: blanks) = [rstrip line] /\
     forall next rest',
       is_blank next = false ->
       fix_lines (line :: blanks ++ next :: rest')
       = (rstrip line ++ LF :: next) :: fix_lines rest') /\
  repair_loop (S (length (line :: rest))) (line :: rest) 0 []
  = Some (fix_lines (line :: rest)).
Proof.
  split; [apply endswith_one|].
  split; [intros Hc; now rewrite fix_lines_cons, Hc|].
  split; [|now rewrite repair_loop_fix_lines by lia].
  intros Hc blanks Hb. split.
  - rewrite fix_lines_cons, Hc.
    rewrite <- (app_nil_r blanks), drop_blank_blanks by assumption.
    reflexivity.
  - intros next rest' Hn.
    rewrite fix_lines_cons, Hc, drop_blank_blanks by assumption.
    cbn. now rewrite Hn.
Qed.

Lemma repair_scan_witness :
  fix_lines [txt "x = 1"; txt "total = 1 + \  "; []; txt "  2"]
  = txt "x = 1" :: fix_lines [txt "total = 1 + \  "; []; txt "  2"] /\
  fix_lines [txt "total = 1 + \  "; []; txt "  2"; txt "print(total)"]
  = [txt "total = 1 + \" ++ LF :: txt "  2"; txt "print(total)"].
Proof.
  split.
  - destruct (repair_scan (txt "x = 1")
                [txt "total = 1 + \  "; []; txt "  2"]) as (_ & H & _).
    exact (H eq_refl).
  - destruct (repair_scan (txt "total = 1 + \  ") []) as (_ & _ & H & _).
    destruct (H eq_refl [[]] ltac:(repeat constructor)) as [_ H'].
    exact (H' (txt "  2") [txt "print(total)"] eq_refl).
Defined.

(** C5, as stated, fails: a line that ends with two backslashes does not
    end with a single backslash, yet the scan treats it as continued and
    the blank line after it is gone from the repaired text. *)
Lemma repair_joins_after_escaped_backslash :
  ends_with_single_backslash escaped_line = false /\
  continued escaped_line = true /\
  repair_continuations escaped_text
  = Some (escaped_line ++ [LF] ++ txt "x = 1") /\
  repair_continuations escaped_text <> Some escaped_text.
Proof.
  repeat split; try reflexivity. vm_compute. discriminate.
Qed.

(** ** Reasoning about computations *)

Section Hoare.

Lemma wp_mono {A : Type} (m : M A) (f : fs)
    (Q Q' : result A -> fs -> list event -> Prop) :
  wp m f Q -> (forall r f' t, Q r f' t -> Q' r f' t) -> wp m f Q'.
Proof. unfold wp. auto. Qed.

Lemma wp_ret {A : Type} (a : A) (f : fs) Q : Q (Ok a) f [] -> wp (ret a) f Q.
Proof. exact (fun H => H). Qed.

Lemma wp_raise {A : Type} (e : exn) (f : fs)
    (Q : result A -> fs -> list event -> Prop) :
  Q (Raise e) f [] -> wp (raise e) f Q.
Proof. exact (fun H => H). Qed.

Lemma wp_lift {A : Type} (r : result A) (f : fs) Q :
  Q r f [] -> wp (lift r) f Q.
Proof. exact (fun H => H). Qed.

Lemma wp_emit (ev : event) (f : fs) Q : Q (Ok tt) f [ev] -> wp (emit ev) f Q.
Proof. exact (fun H => H). Qed.

Lemma wp_print (line : text) (f : fs) Q :
  Q (Ok tt) f [EvPrint line] -> wp (print line) f Q.
Proof. exact (fun H => H). Qed.

Lemma wp_get_fs (f : fs) Q : Q (Ok f) f [] -> wp get_fs f Q.
Proof. exact (fun H => H). Qed.

Lemma wp_set_fs (f' f : fs) Q : Q (Ok tt) f' [] -> wp (set_fs f') f Q.
Proof. exact (fun H => H). Qed.

Lemma wp_bind {A B : Type} (m : M A) (k : A -> M B) (f : fs) Q :
  wp m f (fun r f1 t1 =>
            match r with
            | Ok a => wp (k a) f1 (fun r2 f2 t2 => Q r2 f2 (t1 ++ t2))
            | Raise e => Q (Raise e) f1 t1
            end) ->
  wp (bind m k) f Q.
Proof.
  unfold wp, bind. destruct (m f) as [[r f1] t1]. cbn.
  destruct r; cbn; auto.
Qed.

Lemma wp_try_except {A : Type} (m : M A) (h : exn -> M A) (f : fs) Q :
  wp m f (fun r f1 t1 =>
            match r with
            | Ok a => Q (Ok a) f1 t1
            | Raise e => wp (h e) f1 (fun r2 f2 t2 => Q r2 f2 (t1 ++ t2))
            end) ->
  wp (try_except m h) f Q.
Proof.
  unfold wp, try_except. destruct (m f) as [[r f1] t1]. cbn.
  destruct r; cbn; auto.
Qed.

Lemma wp_try_except_json {A : Type} (m : M A) (h : M A) (f : fs) Q :
  wp m f (fun r f1 t1 =>
            match r with
            | Ok a => Q (Ok a) f1 t1
            | Raise e =>
                if is_json_decode_error e
                then wp h f1 (fun r2 f2 t2 => Q r2 f2 (t1 ++ t2))
                else Q (Raise e) f1 t1
            end) ->
  wp (try_except_json m h) f Q.
Proof.
  unfold wp, try_except_json. destruct (m f) as [[r f1] t1]. cbn.
  destruct r as [a|e]; cbn; auto.
  destruct (is_json_decode_error e); cbn; auto.
Qed.

Lemma wp_try_finally {A : Type} (m : M A) (c : M unit) (f : fs) Q :
  wp m f (fun r f1 t1 =>
            wp c f1 (fun rc f2 t2 =>
                       match rc with
                       | Ok _ => Q r f2 (t1 ++ t2)
                       | Raise e => Q (Raise e) f2 (t1 ++ t2)
                       end)) ->
  wp (try_finally m c) f Q.
Proof.
  unfold wp, try_finally. destruct (m f) as [[r f1] t1]. cbn.
  destruct (c f1) as [[rc f2] t2]. cbn. destruct rc; auto.
Qed.

End Hoare.

(** One step of a computation: open the outermost construct. *)
Ltac wp_step :=
  lazymatch goal with
  | |- wp (bind _ _) _ _ => apply wp_bind
  | |- wp (try_except _ _) _ _ => apply wp_try_except
  | |- wp (try_except_json _ _) _ _ => apply wp_try_except_json
  | |- wp (try_finally _ _) _ _ => apply wp_try_finally
  | |- wp (ret _) _ _ => apply wp_ret
  | |- wp (raise _) _ _ => apply wp_raise
  | |- wp (lift _) _ _ => apply wp_lift
  | |- wp (print _) _ _ => apply wp_print
  | |- wp (emit _) _ _ => apply wp_emit
  | |- wp get_fs _ _ => apply wp_get_fs
  | |- wp (set_fs _) _ _ => apply wp_set_fs
  | |- wp (match ?x with _ => _ end) _ _ => destruct x eqn:?
  | |- wp (if ?x then _ else _) _ _ => destruct x eqn:?
  | |- match ?x with Ok _ => _ | Raise _ => _ end => destruct x eqn:?
  | |- if ?x then _ else _ => destruct x eqn:?
  end.

Ltac wp_run := repeat (wp_step; cbn beta iota).

(** ** Which events a part of the agent can leave *)

Section Calm.

Lemma quiet_calm (ev : event) : quiet ev -> calm ev.
Proof. destruct ev; simpl; auto. Qed.

Lemma is_print_quiet (ev : event) : is_print ev -> quiet ev.
Proof. destruct ev; simpl; auto. Qed.

Lemma silent_tame {A : Type} (m : M A) : silent m -> tame m.
Proof.
  intros H f. eapply wp_mono; [apply H|].
  intros r f' t [_ Ht]. eapply Forall_impl; [|exact Ht]. apply quiet_calm.
Qed.

Lemma silent_bind {A B : Type} (m : M A) (k : A -> M B) :
  silent m -> (forall a, silent (k a)) -> silent (bind m k).
Proof.
  intros Hm Hk f. apply wp_bind. eapply wp_mono; [apply Hm|].
  intros r f1 t1 [-> Ht1]. destruct r as [a|e]; [|auto].
  eapply wp_mono; [apply Hk|].
  intros r2 f2 t2 [-> Ht2]. split; [reflexivity|]. now apply Forall_app.
Qed.

Lemma silent_try_except {A : Type} (m : M A) (h : exn -> M A) :
  silent m -> (forall e, silent (h e)) -> silent (try_except m h).
Proof.
  intros Hm Hh f. apply wp_try_except. eapply wp_mono; [apply Hm|].
  intros r f1 t1 [-> Ht1]. destruct r as [a|e]; [auto|].
  eapply wp_mono; [apply Hh|].
  intros r2 f2 t2 [-> Ht2]. split; [reflexivity|]. now apply Forall_app.
Qed.

Lemma silent_ret {A : Type} (a : A) : silent (ret a).
Proof. intros f. apply wp_ret. auto. Qed.

Lemma silent_raise {A : Type} (e : exn) : silent (@raise A e).
Proof. intros f. apply wp_raise. auto. Qed.

Lemma silent_lift {A : Type} (r : result A) : silent (lift r).
Proof. intros f. apply wp_lift. auto. Qed.

Lemma silent_print (line : text) : silent (print line).
Proof. intros f. apply wp_print. split; [reflexivity|]. repeat constructor. Qed.

Lemma tame_bind {A B : Type} (m : M A) (k : A -> M B) :
  tame m -> (forall a, tame (k a)) -> tame (bind m k).
Proof.
  intros Hm Hk f. apply wp_bind. eapply wp_mono; [apply Hm|].
  intros r f1 t1 Ht1. destruct r as [a|e]; [|auto].
  eapply wp_mono; [apply Hk|].
  intros r2 f2 t2 Ht2. now apply Forall_app.
Qed.

Lemma tame_try_except {A : Type} (m : M A) (h : exn -> M A) :
  tame m -> (forall e, tame (h e)) -> tame (try_except m h).
Proof.
  intros Hm Hh f. apply wp_try_except. eapply wp_mono; [apply Hm|].
  intros r f1 t1 Ht1. destruct r as [a|e]; [auto|].
  eapply wp_mono; [apply Hh|].
  intros r2 f2 t2 Ht2. now apply Forall_app.
Qed.

Lemma tame_try_except_json {A : Type} (m : M A) (h : M A) :
  tame m -> tame h -> tame (try_except_json m h).
Proof.
  intros Hm Hh f. apply wp_try_except_json. eapply wp_mono; [apply Hm|].
  intros r f1 t1 Ht1. destruct r as [a|e]; [auto|].
  destruct (is_json_decode_error e); [|auto].
  eapply wp_mono; [apply Hh|].
  intros r2 f2 t2 Ht2. now apply Forall_app.
Qed.

Variable E : env.

Lemma silent_fromhex (v : json) : silent (fromhex E v).
Proof.
  destruct v; try apply silent_raise.
  apply silent_bind; [|intros; apply silent_lift].
  intros f. apply wp_emit. split; [reflexivity|]. repeat constructor.
Qed.

Lemma silent_AESGCM (key : bytes) : silent (AESGCM E key).
Proof.
  apply silent_bind.
  - intros f. apply wp_emit. split; [reflexivity|]. repeat constructor.
  - intros _. destruct (aesgcm_key_error E key);
      [apply silent_raise|apply silent_ret].
Qed.

Lemma silent_aesgcm_open (k n d : bytes) : silent (aesgcm_open E k n d).
Proof.
  apply silent_bind; [|intros; apply silent_lift].
  intros f. apply wp_emit. split; [reflexivity|]. repeat constructor.
Qed.

Lemma silent_decrypt_main (k iv c t : bytes) : silent (decrypt_main E k iv c t).
Proof.
  apply silent_try_except; [apply silent_aesgcm_open|].
  intros e. apply silent_bind; [apply silent_print|].
  intros _. apply silent_aesgcm_open.
Qed.

Lemma silent_decrypt_helper (k iv c t : bytes) :
  silent (decrypt_helper E k iv c t).
Proof.
  apply silent_try_except; [apply silent_aesgcm_open|].
  intros e. apply silent_aesgcm_open.
Qed.

Lemma silent_decode (b : bytes) : silent (decode E b).
Proof. apply silent_lift. Qed.

Lemma silent_loads (data : list N) : silent (loads E data).
Proof.
  apply silent_bind; [|intros; apply silent_lift].
  intros f. apply wp_emit. split; [reflexivity|]. repeat constructor.
Qed.

Lemma silent_join_name (d : text) (name : json) : silent (join_name d name).
Proof. destruct name; try apply silent_raise. apply silent_ret. Qed.

Lemma tame_write_file (path content : text) : tame (write_file E path content).
Proof.
  intros f. unfold write_file. wp_run; repeat constructor.
Qed.

Lemma tame_add_base64_screenshot (response : dict) :
  tame (add_base64_screenshot E response).
Proof.
  intros f. unfold add_base64_screenshot. wp_run; repeat constructor.
Qed.

Lemma tame_save_helper (aesgcm : bytes) (d : text) (helper : json) :
  tame (save_helper E aesgcm d helper).
Proof.
  assert (Hs : forall A (m : M A), silent m -> tame m)
    by (intros; now apply silent_tame).
  unfold save_helper. apply tame_try_except.
  - repeat lazymatch goal with
           | |- tame (bind _ _) => apply tame_bind; [|intros]
           | |- tame (write_file _ _ _) => apply tame_write_file
           | |- tame _ => apply Hs
           | |- silent (bind _ _) => apply silent_bind; [|intros]
           | |- silent (lift _) => apply silent_lift
           | |- silent (fromhex _ _) => apply silent_fromhex
           | |- silent (decrypt_helper _ _ _ _ _) => apply silent_decrypt_helper
           | |- silent (decode _ _) => apply silent_decode
           | |- silent (join_name _ _) => apply silent_join_name
           | |- silent (print _) => apply silent_print
           end.
  - intros e. apply silent_tame.
    apply silent_bind; [apply silent_lift|intros; apply silent_print].
Qed.

Lemma tame_save_helpers (aesgcm : bytes) (d : text) (helpers : list json) :
  tame (save_helpers E aesgcm d helpers).
Proof.
  induction helpers as [|h rest IH]; simpl.
  - apply silent_tame, silent_ret.
  - apply tame_bind; [apply tame_save_helper|intros _; exact IH].
Qed.

Lemma tame_normalize_output (stdout : text) : tame (normalize_output E stdout).
Proof.
  unfold normalize_output. apply tame_try_except_json.
  - apply tame_bind; [apply silent_tame, silent_loads|intros output_json].
    apply tame_bind; [apply silent_tame, silent_lift|intros success].
    destruct output_json; try (apply silent_tame, silent_raise).
    apply tame_bind; [|intros; apply silent_tame, silent_ret].
    destruct (truthy success && dict_mem fields (txt "path"));
      [|apply silent_tame, silent_ret].
    apply tame_bind; [apply silent_tame, silent_print|intros _].
    apply tame_bind; [apply tame_add_base64_screenshot|intros en].
    destruct en as [[|]|]; apply silent_tame, silent_ret.
  - apply silent_tame, silent_ret.
Qed.

End Calm.

(** ** The shape of a request *)

Section FsFacts.

Lemma text_eqb_eq (a b : text) : text_eqb a b = true <-> a = b.
Proof.
  unfold text_eqb. destruct (list_eq_dec N.eq_dec a b); split; congruence.
Qed.

Lemma text_eqb_refl (a : text) : text_eqb a a = true.
Proof. now apply text_eqb_eq. Qed.

Lemma text_eqb_neq (a b : text) : text_eqb a b = false <-> a <> b.
Proof.
  unfold text_eqb. destruct (list_eq_dec N.eq_dec a b); split; congruence.
Qed.

Lemma prefix_of_antisym (a b : list text) :
  prefix_of a b = true -> prefix_of b a = true -> a = b.
Proof.
  revert b. induction a as [|x a IH]; intros [|y b]; simpl; try discriminate;
    [reflexivity|].
  intros H1 H2. apply andb_true_iff in H1 as [Hxy H1].
  apply andb_true_iff in H2 as [_ H2].
  apply text_eqb_eq in Hxy. subst. f_equal. now apply IH.
Qed.

Lemma loc_eqb_eq (a b : location) : loc_eqb a b = true -> a = b.
Proof.
  destruct a as [da pa], b as [db pb]. unfold loc_eqb. cbn.
  intros H. apply andb_true_iff in H as [H H3].
  apply andb_true_iff in H as [H1 H2].
  apply text_eqb_eq in H1. subst. f_equal. now apply prefix_of_antisym.
Qed.

Lemma find_filter {A : Type} (p g : A -> bool) (l : list A) :
  (forall x, p x = true -> g x = true) ->
  find p (filter g l) = find p l.
Proof.
  intros H. induction l as [|x l IH]; simpl; [reflexivity|].
  destruct (g x) eqn:Hg; simpl.
  - now rewrite IH.
  - destruct (p x) eqn:Hp; [|exact IH].
    apply H in Hp. congruence.
Qed.

(** A removal leaves what lies outside the tree as it was. *)
Lemma remove_tree_frame (survives : location -> bool) (f : fs)
    (dir l : location) :
  under dir l = false ->
  read_file (remove_tree_but survives f dir) l = read_file f l.
Proof.
  intros Hl. unfold read_file, remove_tree_but. cbn.
  rewrite find_filter; [reflexivity|].
  intros [l' c] Heq. cbn in *. apply loc_eqb_eq in Heq. subst.
  now rewrite Hl.
Qed.

(** A removal that went through leaves nothing of the tree. *)
Lemma remove_tree_absent (f : fs) (dir : location) :
  tree_absent (remove_tree f dir) dir.
Proof.
  split; cbn.
  - intros l Hin. apply filter_In in Hin as [_ H].
    rewrite orb_false_r in H. now apply negb_true_iff.
  - intros e Hin. apply filter_In in Hin as [_ H].
    rewrite orb_false_r in H. now apply negb_true_iff.
Qed.

End FsFacts.

Section Shapes.

Variable E : env.

Lemma wp_run_proc (cmd : list text) (cwd : option text) (timeout : Z)
    (f : fs) Q :
  (forall o f',
      subprocess_run E f cmd cwd timeout = (o, f') ->
      Q (match o with
         | Completed rc out err => Ok (rc, out, err)
         | RunRaised e => Raise e
         end) f' [EvRun cmd cwd timeout o]) ->
  wp (run E cmd cwd timeout) f Q.
Proof.
  intros H. unfold run. apply wp_bind, wp_get_fs.
  destruct (subprocess_run E f cmd cwd timeout) as [o f'] eqn:Ho.
  specialize (H o f' eq_refl).
  destruct o; wp_run; exact H.
Qed.

Lemma run_shape_prefix (d : text) (r : result dict) (t1 t2 : list event) :
  Forall calm t1 -> run_shape d r t2 -> run_shape d r (t1 ++ t2).
Proof.
  intros H1 [[H2 He]|(pre & cmd & o & post & -> & Hpre & Hpost & Hc & Hv)].
  - left. split; [now apply Forall_app|exact He].
  - right. exists (t1 ++ pre), cmd, o, post.
    rewrite <- app_assoc. repeat split; auto. now apply Forall_app.
Qed.

Lemma shape_bind_tame {A : Type} (m : M A) (k : A -> M dict) (d : text)
    (f : fs) :
  tame m ->
  (forall a f1, wp (k a) f1 (fun r _ t => run_shape d r t)) ->
  wp (bind m k) f (fun r _ t => run_shape d r t).
Proof.
  intros Hm Hk. apply wp_bind. eapply wp_mono; [apply Hm|].
  intros r f1 t1 Ht1. destruct r as [a|e].
  - eapply wp_mono; [apply Hk|]. intros r2 f2 t2.
    now apply run_shape_prefix.
  - left. eauto.
Qed.

Lemma run_main_shape (d content : text) (name args : json) (f : fs) :
  wp (run_main E d content name args) f (fun r _ t => run_shape d r t).
Proof.
  unfold run_main.
  apply shape_bind_tame; [apply silent_tame, silent_join_name|intros p f1].
  apply shape_bind_tame; [apply tame_write_file|intros _ f2].
  apply shape_bind_tame; [apply silent_tame, silent_print|intros _ f3].
  apply shape_bind_tame; [apply silent_tame, silent_lift|intros a f4].
  cbn zeta. apply wp_bind, wp_run_proc. intros o f' _.
  assert (Hcmd : python_cmd ([txt "python"; p] ++ map (py_str E) a))
    by (eexists _, _; reflexivity).
  destruct o as [rc out err|e].
  - cbn beta iota. destruct (rc =? 0)%Z eqn:Hrc; cbn [negb].
    + eapply wp_mono; [apply tame_normalize_output|].
      intros r f2' t2 Ht2. right.
      eexists [], _, _, t2. repeat split; auto; congruence.
    + apply wp_ret. right.
      eexists [], _, _, []. repeat split; auto.
  - right. eexists [], _, _, []. repeat split; auto.
Qed.

Lemma materialize_and_run_shape (aesgcm : bytes) (d content : text)
    (helpers name args : json) (f : fs) :
  wp (materialize_and_run E aesgcm d content helpers name args) f
     (fun r _ t => run_shape d r t).
Proof.
  unfold materialize_and_run.
  apply shape_bind_tame; [apply silent_tame, silent_lift|intros hs f1].
  apply shape_bind_tame; [apply tame_save_helpers|intros _ f2].
  apply run_main_shape.
Qed.

(** The cleanup never raises; it leaves one removal and one line. *)
Lemma cleanup_spec (d : text) (f : fs) :
  wp (cleanup E d) f
     (fun r f' t =>
        r = Ok tt /\
        exists ok line survives,
          t = [EvRmtree d ok; EvPrint line] /\
          f' = remove_tree_but survives f (resolve (agent_cwd E) d) /\
          (ok = true -> survives = fun _ => false)).
Proof.
  unfold cleanup, rmtree. wp_run.
  - split; [reflexivity|]. eexists false, _, _.
    repeat split; auto. discriminate.
  - split; [reflexivity|]. eexists true, _, (fun _ => false).
    repeat split; auto.
Qed.

Lemma run_script_shape (aesgcm decrypted : bytes) (helpers name args : json)
    (f : fs) :
  wp (run_script E aesgcm decrypted helpers name args) f
     (fun r f' t => script_shape E f' r t).
Proof.
  unfold run_script, decode, make_temp_dir.
  apply wp_bind, wp_lift. destruct (utf8_decode E decrypted) as [sc|e];
    [|left; eauto].
  cbn zeta. apply wp_bind, wp_bind, wp_get_fs.
  destruct (mkdtemp E f) as [d|e]; [|apply wp_raise; left; eauto].
  wp_run.
  eapply wp_mono; [apply materialize_and_run_shape|].
  intros r f1 body Hbody.
  eapply wp_mono; [apply cleanup_spec|].
  intros rc f2 t2 (-> & ok & line & survives & -> & -> & Hok).
  right. eexists d, _, body, ok, line. cbn [app].
  split; [reflexivity|]. split; [exact Hbody|].
  intros Hy. rewrite (Hok Hy). apply remove_tree_absent.
Qed.

Lemma run_powershell_shape (decrypted : bytes) (f : fs) :
  wp (run_powershell E decrypted) f (fun r _ t => shell_shape r t).
Proof.
  unfold run_powershell, decode.
  apply wp_bind, wp_lift. destruct (utf8_decode E decrypted) as [c|e];
    cbn beta iota; [|left; eauto].
  apply wp_bind, wp_run_proc. intros o f' _.
  destruct o as [rc out err|e]; cbn beta iota.
  - apply wp_ret. right. eexists c, _. split; reflexivity.
  - right. eexists c, _. split; reflexivity.
Qed.

End Shapes.

(** Closes a goal [silent m] for a block built from silent parts. *)
Ltac solve_silent :=
  repeat lazymatch goal with
         | |- silent (bind _ _) => apply silent_bind; [|intros]
         | |- silent (lift _) => apply silent_lift
         | |- silent (ret _) => apply silent_ret
         | |- silent (raise _) => apply silent_raise
         | |- silent (print _) => apply silent_print
         | |- silent (fromhex _ _) => apply silent_fromhex
         | |- silent (AESGCM _ _) => apply silent_AESGCM
         | |- silent (decrypt_main _ _ _ _ _) => apply silent_decrypt_main
         | |- silent (decrypt_helper _ _ _ _ _) => apply silent_decrypt_helper
         | |- silent (decode _ _) => apply silent_decode
         | |- silent (loads _ _) => apply silent_loads
         | |- silent (join_name _ _) => apply silent_join_name
         | |- silent (if ?b then _ else _) => destruct b
         end.

Section ExecShape.

Variable E : env.

Lemma try_shape_bind {A : Type} (m : M A) (k : A -> M dict) (payload : json)
    (f : fs) :
  silent m ->
  (forall a, wp (k a) f (fun r f' t => try_shape E payload f' r t)) ->
  wp (bind m k) f (fun r f' t => try_shape E payload f' r t).
Proof.
  intros Hm Hk. apply wp_bind. eapply wp_mono; [apply Hm|].
  intros r f1 t1 [-> Ht1]. destruct r as [a|e].
  - eapply wp_mono; [apply Hk|].
    intros r2 f2 t2 (pre & core & -> & Hpre & Hcore).
    exists (t1 ++ pre), core. rewrite app_assoc.
    repeat split; auto. now apply Forall_app.
  - exists t1, []. rewrite app_nil_r. repeat split; eauto.
Qed.

Lemma decrypt_and_execute_shape (payload : json) (f : fs) :
  wp (decrypt_and_execute E payload) f
     (fun r f' t => exec_shape E payload f' r t).
Proof.
  unfold decrypt_and_execute. apply wp_try_except.
  eapply wp_mono with
    (Q := fun r f' t => try_shape E payload f' r t).
  - do 4 (apply try_shape_bind; [solve_silent|intros ?]).
    destruct payload as [| | | | | |fields];
      try solve [apply wp_bind, wp_lift; exists [], []; repeat split; eauto].
    apply wp_bind, wp_lift. cbn beta iota.
    do 8 (apply try_shape_bind; [solve_silent|intros ?]).
    change (match dict_lookup fields (txt "type") with
            | Some x => x
            | None => JStr (txt "python")
            end) with (type_of fields).
    destruct (eq_str (type_of fields) (txt "powershell")) eqn:Htype.
    + eapply wp_mono; [apply run_powershell_shape|].
      intros r f' t Ht. exists [], t. repeat split; auto.
      right. exists fields. rewrite Htype. auto.
    + eapply wp_mono; [apply run_script_shape|].
      intros r f' t Ht. exists [], t. repeat split; auto.
      right. exists fields. rewrite Htype. auto.
  - intros r f' t Ht. destruct r as [d|e].
    + exists (Ok d), t, []. rewrite app_nil_r. repeat split; auto.
    + wp_run. exists (Raise e), t, [EvPrint (txt "[ERROR] Decryption/execution failed: " ++ exn_str e)].
      repeat split; auto. repeat constructor.
Qed.

End ExecShape.

Section HandleShape.

Variable E : env.

Lemma silent_read_body (req : request) (n : Z) : silent (read_body req n).
Proof.
  unfold read_body. apply silent_bind; [|intros; apply silent_ret].
  intros f. apply wp_emit. split; [reflexivity|]. repeat constructor.
Qed.

(** A request is always answered: with 401, with 500 when the envelope
    cannot be read, and with 200 and what [decrypt_and_execute] returned
    otherwise. *)
Lemma handle_shape (req : request) (f : fs) :
  wp (handle_encrypted_execution E req) f
     (fun r f' t =>
        exists resp,
          r = Ok resp /\
          ((Forall quiet t /\ f' = f /\ resp_status resp <> 200%Z) \/
           (exists payload pre t' d,
               t = pre ++ t' /\ Forall quiet pre /\
               exec_shape E payload f' (Ok d) t' /\
               resp = mkResponse 200 (JsonDumps (JObj d))))).
Proof.
  unfold handle_encrypted_execution.
  match goal with |- wp (if ?c then _ else _) _ _ => destruct c end.
  { wp_run. eexists. split; [reflexivity|]. left.
    repeat split; [repeat constructor|discriminate]. }
  apply wp_try_except.
  set (bad := fun (r : result response) (f' : fs) (t : list event) =>
                exists e, r = Raise e /\ Forall quiet t /\ f' = f).
  set (good := fun (r : result response) (f' : fs) (t : list event) =>
                 exists payload pre t' d,
                   r = Ok (mkResponse 200 (JsonDumps (JObj d))) /\
                   t = pre ++ t' /\ Forall quiet pre /\
                   exec_shape E payload f' (Ok d) t').
  eapply wp_mono with (Q := fun r f' t => bad r f' t \/ good r f' t).
  - assert (Hstep : forall A (m : M A) (k : A -> M response) (f0 : fs),
               f0 = f -> silent m ->
               (forall a, wp (k a) f (fun r f' t => bad r f' t \/ good r f' t)) ->
               wp (bind m k) f0 (fun r f' t => bad r f' t \/ good r f' t)).
    { intros A m k f0 -> Hm Hk. apply wp_bind.
      eapply wp_mono; [apply Hm|]. intros r f1 t1 [-> Ht1].
      destruct r as [a|e].
      - eapply wp_mono; [apply Hk|]. intros r2 f2 t2 [Hb|Hg].
        + left. destruct Hb as (e & -> & Ht2 & ->).
          exists e. repeat split; auto. now apply Forall_app.
        + right. destruct Hg as (payload & pre & t' & d & -> & -> & Hpre & Hx).
          exists payload, (t1 ++ pre), t', d. rewrite app_assoc.
          repeat split; auto. now apply Forall_app.
      - left. exists e. auto. }
    apply Hstep; [reflexivity| |intros content_length].
    { destruct (header (req_headers req) (txt "Content-Length"));
        solve_silent. }
    apply Hstep; [reflexivity|apply silent_read_body|intros body].
    apply Hstep; [reflexivity|apply silent_loads|intros payload].
    apply Hstep; [reflexivity|apply silent_print|intros _].
    apply wp_bind. eapply wp_mono; [apply decrypt_and_execute_shape|].
    intros r f' t Hx. pose proof Hx as (rc & t0 & post & _ & _ & _ & ->).
    apply wp_ret. right. exists payload, [], t, (finish rc).
    rewrite app_nil_r. repeat split; auto.
  - intros r f' t [(e & -> & Ht & ->)|(payload & pre & t' & d & -> & -> & Hpre & Hx)].
    + wp_run. eexists. split; [reflexivity|]. left.
      repeat split; [|discriminate].
      apply Forall_app. split; [exact Ht|repeat constructor].
    + eexists. split; [reflexivity|]. right.
      exists payload, pre, t', d. auto.
Qed.

End HandleShape.

(** ** The deletion of the sandbox *)

Section CleanupIndependence.

Lemma result_bind_ext {A B : Type} (m : M A) (k k' : A -> M B) (f : fs) :
  (forall a f1, result_of (k a f1) = result_of (k' a f1)) ->
  result_of (bind m k f) = result_of (bind m k' f).
Proof.
  intros H. unfold bind. destruct (m f) as [[[a|e] f1] t1]; cbn; auto.
Qed.

Lemma result_bind_ext_left {A B : Type} (m m' : M A) (k : A -> M B) (f : fs) :
  result_of (m f) = result_of (m' f) ->
  (forall a f1 f2, result_of (k a f1) = result_of (k a f2)) ->
  result_of (bind m k f) = result_of (bind m' k f).
Proof.
  intros Hm Hk. unfold bind.
  destruct (m f) as [[r f1] t1], (m' f) as [[r' f1'] t1']. cbn in *. subst r'.
  destruct r; cbn; auto.
Qed.

Lemma result_try_except_ext {A : Type} (m m' : M A) (h : exn -> M A) (f : fs) :
  result_of (m f) = result_of (m' f) ->
  (forall e f1 f2, result_of (h e f1) = result_of (h e f2)) ->
  result_of (try_except m h f) = result_of (try_except m' h f).
Proof.
  intros Hm Hh. unfold try_except.
  destruct (m f) as [[r f1] t1], (m' f) as [[r' f1'] t1']. cbn in *. subst r'.
  destruct r; cbn; auto.
Qed.

Variable E : env.
Variable r' : fs -> text -> option (exn * (location -> bool)).

Let E' : env := with_rmtree_error E r'.

(** The result of the script branch is the result of the block before the
    cleanup. *)
Lemma result_try_finally_cleanup {A : Type} (E0 : env) (m : M A) (d : text)
    (f : fs) :
  result_of (try_finally m (cleanup E0 d) f) = result_of (m f).
Proof.
  unfold try_finally.
  pose proof (cleanup_spec E0 d (fs_of (m f))) as (Hr & _).
  destruct (m f) as [[r f1] t1]. cbn in *.
  destruct (cleanup E0 d f1) as [[rc f2] t2]. cbn in *. now subst rc.
Qed.

Lemma run_script_result_rmtree (aesgcm decrypted : bytes)
    (helpers name args : json) (f : fs) :
  result_of (run_script E' aesgcm decrypted helpers name args f) =
  result_of (run_script E aesgcm decrypted helpers name args f).
Proof.
  unfold run_script.
  apply result_bind_ext. intros sc f1. cbn zeta.
  apply result_bind_ext. intros d f2.
  apply result_bind_ext. intros _ f3.
  now rewrite !result_try_finally_cleanup.
Qed.

Lemma decrypt_and_execute_result_rmtree (payload : json) (f : fs) :
  result_of (decrypt_and_execute E' payload f) =
  result_of (decrypt_and_execute E payload f).
Proof.
  unfold decrypt_and_execute.
  apply result_try_except_ext; [|reflexivity].
  do 13 (apply result_bind_ext; intros ? ?).
  destruct (eq_str a3 (txt "powershell")); [reflexivity|].
  apply run_script_result_rmtree.
Qed.

Lemma handle_result_rmtree (req : request) (f : fs) :
  result_of (handle_encrypted_execution E' req f) =
  result_of (handle_encrypted_execution E req f).
Proof.
  unfold handle_encrypted_execution.
  change (API_KEY E') with (API_KEY E).
  match goal with |- context [if ?c then _ else _] => destruct c end;
    [reflexivity|].
  apply result_try_except_ext; [|reflexivity].
  do 4 (apply result_bind_ext; intros ? ?).
  apply result_bind_ext_left; [|reflexivity].
  apply decrypt_and_execute_result_rmtree.
Qed.

End CleanupIndependence.

Lemma quiet_no_mkdtemp (t : list event) (d : text) :
  Forall quiet t -> ~ In (EvMkdtemp d) t.
Proof.
  intros H Hin. rewrite Forall_forall in H. exact (H _ Hin).
Qed.

Lemma prints_quiet (t : list event) : Forall is_print t -> Forall quiet t.
Proof. apply Forall_impl, is_print_quiet. Qed.


(** ** The credential check *)

(** C2. A request whose [Authorization] header is missing, does not start
    with ['Bearer '], or carries another token than the configured secret
    is answered with 401 and the [Unauthorized] body; the handler leaves
    the file system as it was and does nothing but write one log line: the
    body is not read, decoded or decrypted. *)
Theorem unauthorized_before_anything (E : env) (req : request) (f : fs) :
  header (req_headers req) (txt "Authorization") = None \/
  (exists h,
      header (req_headers req) (txt "Authorization") = Some h /\
      startswith h (txt "Bearer ") = false) \/
  (exists token,
      header (req_headers req) (txt "Authorization")
      = Some (txt "Bearer " ++ token) /\
      token <> API_KEY E) ->
  handle_encrypted_execution E req f
  = (Ok (mkResponse 401 (RawBody unauthorized_body)), f,
     [EvPrint (txt "[AUTH] Unauthorized attempt")]).
Proof.
  intros H. unfold handle_encrypted_execution.
  destruct H as [->|[(h & -> & Hh)|(token & -> & Htok)]].
  - reflexivity.
  - rewrite Hh. reflexivity.
  - replace (skipn 7 (txt "Bearer " ++ token)) with token by reflexivity.
    apply text_eqb_neq in Htok. rewrite Htok, orb_true_r. reflexivity.
Qed.

(** ** The two layouts of the decryption *)

Section TwoLayouts.

Variable E : env.

Lemma decrypt_main_spec (key iv c t : bytes) (f : fs) :
  result_of (decrypt_main E key iv c t f) = two_layouts E key iv c t /\
  fs_of (decrypt_main E key iv c t f) = f /\
  decrypts (trace_of (decrypt_main E key iv c t f)) = attempts E key iv c t.
Proof.
  unfold decrypt_main, two_layouts, attempts, try_except, aesgcm_open, bind,
    lift, emit, print, decrypts.
  cbn. destruct (aesgcm_decrypt E key iv (c ++ t)); cbn; auto.
Qed.

Lemma decrypt_helper_spec (key iv c t : bytes) (f : fs) :
  decrypt_helper E key iv c t f
  = (two_layouts E key iv c t, f, attempts E key iv c t).
Proof.
  unfold decrypt_helper, two_layouts, attempts, try_except, aesgcm_open, bind,
    lift, emit.
  cbn. destruct (aesgcm_decrypt E key iv (c ++ t)); cbn; auto.
Qed.

End TwoLayouts.

(** ** Events of a kind, through the constructs *)

Section Leaves.

Variable P : event -> Prop.

Lemma leaves_bind {A B : Type} (m : M A) (k : A -> M B) :
  leaves P m -> (forall a, leaves P (k a)) -> leaves P (bind m k).
Proof.
  intros Hm Hk f. apply wp_bind. eapply wp_mono; [apply Hm|].
  intros r f1 t1 Ht1. destruct r as [a|e]; [|auto].
  eapply wp_mono; [apply Hk|].
  intros r2 f2 t2 Ht2. now apply Forall_app.
Qed.

Lemma leaves_try_except {A : Type} (m : M A) (h : exn -> M A) :
  leaves P m -> (forall e, leaves P (h e)) -> leaves P (try_except m h).
Proof.
  intros Hm Hh f. apply wp_try_except. eapply wp_mono; [apply Hm|].
  intros r f1 t1 Ht1. destruct r as [a|e]; [auto|].
  eapply wp_mono; [apply Hh|].
  intros r2 f2 t2 Ht2. now apply Forall_app.
Qed.

Lemma leaves_try_except_json {A : Type} (m : M A) (h : M A) :
  leaves P m -> leaves P h -> leaves P (try_except_json m h).
Proof.
  intros Hm Hh f. apply wp_try_except_json. eapply wp_mono; [apply Hm|].
  intros r f1 t1 Ht1. destruct r as [a|e]; [auto|].
  destruct (is_json_decode_error e); [|auto].
  eapply wp_mono; [apply Hh|].
  intros r2 f2 t2 Ht2. now apply Forall_app.
Qed.

Lemma leaves_try_finally {A : Type} (m : M A) (c : M unit) :
  leaves P m -> leaves P c -> leaves P (try_finally m c).
Proof.
  intros Hm Hc f. apply wp_try_finally. eapply wp_mono; [apply Hm|].
  intros r f1 t1 Ht1. eapply wp_mono; [apply Hc|].
  intros rc f2 t2 Ht2. destruct rc; now apply Forall_app.
Qed.

Lemma leaves_ret {A : Type} (a : A) : leaves P (ret a).
Proof. intros f. constructor. Qed.

Lemma leaves_raise {A : Type} (e : exn) : leaves P (@raise A e).
Proof. intros f. constructor. Qed.

Lemma leaves_lift {A : Type} (r : result A) : leaves P (lift r).
Proof. intros f. constructor. Qed.

Lemma leaves_get_fs : leaves P get_fs.
Proof. intros f. constructor. Qed.

Lemma leaves_set_fs (f' : fs) : leaves P (set_fs f').
Proof. intros f. constructor. Qed.

Lemma leaves_emit (ev : event) : P ev -> leaves P (emit ev).
Proof. intros H f. now repeat constructor. Qed.

Lemma leaves_print (line : text) : P (EvPrint line) -> leaves P (print line).
Proof. intros H f. now repeat constructor. Qed.

Lemma save_helpers_leaves (E : env) (key : bytes) (d : text)
    (hs : list json) :
  (forall h, leaves P (save_helper E key d h)) ->
  leaves P (save_helpers E key d hs).
Proof.
  intros H. induction hs as [|h hs IH]; cbn [save_helpers].
  - apply leaves_ret.
  - apply leaves_bind; [apply H|intros _; exact IH].
Qed.

End Leaves.

(** Splits a goal [leaves P m] along the constructs of [m], opening the
    parts of the agent on the way; what is in the context is used first. *)
Ltac leaves_step :=
  lazymatch goal with
  | |- leaves _ (save_helpers _ _ _ _) => apply save_helpers_leaves; intros
  | |- leaves _ (bind _ _) => apply leaves_bind; [|intros]
  | |- leaves _ (try_except _ _) => apply leaves_try_except; [|intros]
  | |- leaves _ (try_except_json _ _) => apply leaves_try_except_json
  | |- leaves _ (try_finally _ _) => apply leaves_try_finally
  | |- leaves _ (ret _) => apply leaves_ret
  | |- leaves _ (raise _) => apply leaves_raise
  | |- leaves _ (lift _) => apply leaves_lift
  | |- leaves _ get_fs => apply leaves_get_fs
  | |- leaves _ (set_fs _) => apply leaves_set_fs
  | |- leaves _ (emit _) =>
      apply leaves_emit; solve [exact I | reflexivity | hnf; auto]
  | |- leaves _ (print _) =>
      apply leaves_print; solve [exact I | reflexivity | hnf; auto]
  | |- leaves _ (match ?x with _ => _ end) => destruct x
  | |- leaves _ (fromhex _ _) => unfold fromhex
  | |- leaves _ (AESGCM _ _) => unfold AESGCM
  | |- leaves _ (aesgcm_open _ _ _ _) => unfold aesgcm_open
  | |- leaves _ (decode _ _) => unfold decode
  | |- leaves _ (loads _ _) => unfold loads
  | |- leaves _ (make_temp_dir _) => unfold make_temp_dir
  | |- leaves _ (write_file _ _ _) => unfold write_file
  | |- leaves _ (rmtree _ _) => unfold rmtree
  | |- leaves _ (run _ _ _ _) => unfold run
  | |- leaves _ (join_name _ _) => unfold join_name
  | |- leaves _ (read_body _ _) => unfold read_body
  | |- leaves _ (add_base64_screenshot _ _) => unfold add_base64_screenshot
  | |- leaves _ (decrypt_main _ _ _ _ _) => unfold decrypt_main
  | |- leaves _ (decrypt_helper _ _ _ _ _) => unfold decrypt_helper
  | |- leaves _ (save_helper _ _ _ _) => unfold save_helper
  | |- leaves _ (normalize_output _ _) => unfold normalize_output
  | |- leaves _ (run_main _ _ _ _ _) => unfold run_main
  | |- leaves _ (materialize_and_run _ _ _ _ _ _ _) =>
      unfold materialize_and_run
  | |- leaves _ (cleanup _ _) => unfold cleanup
  | |- leaves _ (run_script _ _ _ _ _ _) => unfold run_script
  | |- leaves _ (run_powershell _ _) => unfold run_powershell
  end.

Ltac solve_leaves := repeat (leaves_step; cbn beta iota zeta).

Section Crypto.

Variable E : env.

Lemma run_main_no_decrypt (d content : text) (name args : json) :
  leaves not_decrypt (run_main E d content name args).
Proof. solve_leaves. Qed.

End Crypto.

Section HelperAttempts.

Variable E : env.

Lemma decrypts_app (a b : list event) :
  decrypts (a ++ b) = decrypts a ++ decrypts b.
Proof. apply filter_app. Qed.

Lemma decrypts_none (t : list event) :
  Forall not_decrypt t -> decrypts t = [].
Proof.
  induction 1 as [|ev t Hev Ht IH]; [reflexivity|].
  unfold decrypts in *. cbn. now rewrite Hev.
Qed.

Lemma decrypts_attempts (key iv c t : bytes) :
  decrypts (attempts E key iv c t) = attempts E key iv c t.
Proof.
  unfold attempts. now destruct (aesgcm_decrypt E key iv (c ++ t)).
Qed.

(** A handler without AEAD calls does not change the AEAD calls of a
    [try]. *)
Lemma decrypts_try_except {A : Type} (m : M A) (h : exn -> M A) (f : fs)
    (X : list event) :
  (forall e, leaves not_decrypt (h e)) ->
  wp m f (fun _ _ t => decrypts t = X) ->
  wp (try_except m h) f (fun _ _ t => decrypts t = X).
Proof.
  intros Hh Hm. apply wp_try_except. eapply wp_mono; [exact Hm|].
  intros r f1 t1 Ht1. destruct r as [a|e]; [exact Ht1|].
  eapply wp_mono; [apply Hh|]. intros r2 f2 t2 Ht2.
  rewrite decrypts_app, Ht1, (decrypts_none Ht2). apply app_nil_r.
Qed.

(** One helper entry leads to the AEAD calls its own fields ask for, under
    the key it is given. *)
Lemma save_helper_attempts (key : bytes) (d : text) (h : json) (f : fs) :
  decrypts (trace_of (save_helper E key d h f)) = helper_attempts E key h.
Proof.
  change (wp (save_helper E key d h) f
             (fun _ _ t => decrypts t = helper_attempts E key h)).
  unfold save_helper. apply decrypts_try_except; [intros; solve_leaves|].
  destruct h as [| | | | | |fields];
    try (apply wp_bind, wp_lift; reflexivity).
  unfold helper_attempts, hex_field, py_index.
  apply wp_bind, wp_lift.
  destruct (dict_lookup fields (txt "name")) as [nm|]; [|reflexivity].
  cbn beta iota.
  (* the three hex fields *)
  apply wp_bind, wp_bind, wp_lift.
  destruct (dict_lookup fields (txt "encryptedContent")) as [vc|];
    [|reflexivity].
  cbn beta iota. unfold fromhex at 1.
  destruct vc as [| | | |sc| |]; try reflexivity.
  apply wp_bind, wp_emit, wp_lift.
  destruct (bytes_fromhex E sc) as [c|ec]; [|reflexivity].
  cbn beta iota.
  apply wp_bind, wp_bind, wp_lift.
  destruct (dict_lookup fields (txt "iv")) as [vi|]; [|reflexivity].
  cbn beta iota. unfold fromhex at 1.
  destruct vi as [| | | |si| |]; try reflexivity.
  apply wp_bind, wp_emit, wp_lift.
  destruct (bytes_fromhex E si) as [i|ei]; [|reflexivity].
  cbn beta iota.
  apply wp_bind, wp_bind, wp_lift.
  destruct (dict_lookup fields (txt "authTag")) as [vt|]; [|reflexivity].
  cbn beta iota. unfold fromhex at 1.
  destruct vt as [| | | |st| |]; try reflexivity.
  apply wp_bind, wp_emit, wp_lift.
  destruct (bytes_fromhex E st) as [t|et]; [|reflexivity].
  cbn beta iota.
  (* the decryption *)
  apply wp_bind. unfold wp at 1. rewrite decrypt_helper_spec.
  cbn [result_of fs_of trace_of fst snd].
  destruct (two_layouts E key i c t) as [plain|e].
  - eapply wp_mono.
    + assert (Hrest : leaves not_decrypt
                (helper_content <- decode E plain ;;
                 helper_path <- join_name d nm ;;
                 write_file E helper_path (normalize_newlines helper_content) ;;
                 print (txt "[HELPER] Saved helper script: " ++ py_str E nm))%agent)
        by solve_leaves.
      apply Hrest.
    + intros r f1 t1 Ht1. cbn [app].
      change (decrypts (EvFromHex sc :: EvFromHex si :: EvFromHex st
                          :: attempts E key i c t ++ t1)
              = attempts E key i c t).
      cbn [decrypts filter is_decrypt].
      fold (decrypts (attempts E key i c t ++ t1)).
      rewrite decrypts_app, decrypts_attempts, (decrypts_none Ht1).
      apply app_nil_r.
  - cbn [app].
    change (decrypts (EvFromHex sc :: EvFromHex si :: EvFromHex st
                        :: attempts E key i c t)
            = attempts E key i c t).
    cbn [decrypts filter is_decrypt].
    apply decrypts_attempts.
Qed.

End HelperAttempts.

Section EnvelopeKey.

Variable E : env.

Lemma leaves_bind_when {A B : Type} (P : event -> Prop) (R : A -> Prop)
    (m : M A) (k : A -> M B) :
  (forall f, wp m f (fun r _ t => Forall P t /\ forall a, r = Ok a -> R a)) ->
  (forall a, R a -> leaves P (k a)) ->
  leaves P (bind m k).
Proof.
  intros Hm Hk f. apply wp_bind. eapply wp_mono; [apply Hm|].
  intros r f1 t1 [Ht1 HR]. destruct r as [a|e]; [|auto].
  eapply wp_mono; [apply (Hk a (HR a eq_refl))|].
  intros r2 f2 t2 Ht2. now apply Forall_app.
Qed.

(** Every AEAD call of a request is under the key of its envelope. *)
Lemma decrypt_and_execute_one_key (payload : json) :
  leaves (under_envelope_key E payload) (decrypt_and_execute E payload).
Proof.
  unfold decrypt_and_execute.
  apply leaves_try_except; [|intros; solve_leaves].
  do 3 (apply leaves_bind; [solve_leaves|intros ?]).
  apply leaves_bind_when
    with (R := fun key => envelope_key E payload = Some key).
  { intros f. unfold envelope_key, hex_field.
    apply wp_bind, wp_lift.
    destruct (py_index payload (txt "decryption")) as [dec|e];
      [|split; [constructor|discriminate]].
    apply wp_bind, wp_lift. unfold py_index.
    destruct dec as [| | | | | |fields]; try (split; [constructor|discriminate]).
    destruct (dict_lookup fields (txt "key")) as [v|];
      [|split; [constructor|discriminate]].
    destruct v; try (apply wp_raise; split; [constructor|discriminate]).
    unfold fromhex. apply wp_bind, wp_emit, wp_lift.
    destruct (bytes_fromhex E s) as [b|e].
    - split; [repeat constructor|]. intros ? [= ->]. reflexivity.
    - split; [repeat constructor|discriminate]. }
  intros key Hkey.
  do 6 (apply leaves_bind; [solve_leaves|intros ?]).
  apply leaves_bind_when with (R := fun aesgcm => aesgcm = key).
  { intros f. unfold AESGCM. apply wp_bind, wp_emit.
    destruct (aesgcm_key_error E key).
    - apply wp_raise. split; [repeat constructor|discriminate].
    - apply wp_ret. split; [repeat constructor|]. now intros ? [= ->]. }
  intros aesgcm ->.
  solve_leaves.
Qed.

Lemma save_helper_ok (key : bytes) (d : text) (h : json) (f : fs) :
  is_object h -> result_of (save_helper E key d h f) = Ok tt.
Proof.
  destruct h as [| | | | | |fields]; try contradiction. intros _.
  change (wp (save_helper E key d (JObj fields)) f (fun r _ _ => r = Ok tt)).
  unfold save_helper. apply wp_try_except.
  eapply wp_mono with (Q := fun _ _ _ => True); [exact I|].
  intros r f1 t1 _. destruct r as [[]|e]; [reflexivity|].
  apply wp_bind, wp_lift. cbn beta iota. apply wp_print. reflexivity.
Qed.

Lemma save_helpers_spec (key : bytes) (d : text) (hs : list json) (f : fs) :
  Forall is_object hs ->
  result_of (save_helpers E key d hs f) = Ok tt /\
  decrypts (trace_of (save_helpers E key d hs f))
  = flat_map (helper_attempts E key) hs.
Proof.
  intros H. revert f. induction H as [|h hs Hh Hhs IH]; intros f; [auto|].
  cbn [save_helpers flat_map]. unfold bind.
  pose proof (save_helper_ok key d h f Hh) as Hr.
  pose proof (save_helper_attempts E key d h f) as Ht.
  destruct (save_helper E key d h f) as [[r f1] t1]. cbn in Hr, Ht. subst r.
  cbn. destruct (IH f1) as [IHr IHt]. split; [exact IHr|].
  unfold decrypts in *. now rewrite filter_app, Ht, IHt.
Qed.

(** The block in the sandbox decrypts each helper once, in order, and
    nothing else. *)
Lemma materialize_and_run_attempts (key : bytes) (d content : text)
    (hs : list json) (name args : json) (f : fs) :
  Forall is_object hs ->
  decrypts (trace_of (materialize_and_run E key d content (JArr hs) name args f))
  = flat_map (helper_attempts E key) hs.
Proof.
  intros H. unfold materialize_and_run.
  change (lift (py_iter (JArr hs))) with (@ret (list json) hs).
  unfold bind at 1. cbn. unfold bind.
  destruct (save_helpers_spec key d f H) as [Hr Ht].
  destruct (save_helpers E key d hs f) as [[r f1] t1]. cbn in Hr, Ht. subst r.
  cbn. unfold decrypts in *. rewrite filter_app, Ht.
  pose proof (run_main_no_decrypt E d content name args f1) as Hm.
  apply decrypts_none in Hm. unfold decrypts in Hm.
  unfold wp in Hm. rewrite Hm. apply app_nil_r.
Qed.

End EnvelopeKey.

(** ** The two branches and the end of a script *)

Section Branches.

Variable E : env.

Lemma calm_no_run (t : list event) cmd cwd tmo out :
  Forall calm t -> ~ In (EvRun cmd cwd tmo out) t.
Proof. intros H Hin. rewrite Forall_forall in H. exact (H _ Hin). Qed.

Lemma quiet_no_run (t : list event) cmd cwd tmo out :
  Forall quiet t -> ~ In (EvRun cmd cwd tmo out) t.
Proof. intros H Hin. rewrite Forall_forall in H. exact (H _ Hin). Qed.

(** A process in the events of the script branch is the one process of
    that branch. *)
Lemma script_shape_run (f' : fs) (rc : result dict) (core : list event)
    cmd cwd tmo out :
  script_shape E f' rc core ->
  In (EvRun cmd cwd tmo out) core ->
  exists d,
    In (EvMkdtemp d) core /\ cwd = Some d /\ tmo = 60%Z /\ python_cmd cmd /\
    exists post, run_verdict out rc post.
Proof.
  intros [(Hq & _)|(d & line & body & ok & line' & -> & Hbody & _)] Hin.
  { now apply quiet_no_run in Hin. }
  exists d. split; [now left|].
  destruct Hin as [Hin|[Hin|Hin]]; try discriminate.
  apply in_app_or in Hin as [Hin|[Hin|[Hin|[]]]]; try discriminate.
  destruct Hbody as [(Hc & _)
                    |(pre & cmd0 & o & post & -> & Hpre & Hpost & Hcmd & Hv)].
  { now apply calm_no_run in Hin. }
  apply in_app_or in Hin as [Hin|[Hin|Hin]].
  - now apply calm_no_run in Hin.
  - injection Hin as <- <- <- <-. eauto 10.
  - now apply calm_no_run in Hin.
Qed.

(** Where a process of a request can come from. *)
Lemma exec_shape_run (payload : json) (f' : fs) (r : result dict)
    (t : list event) cmd cwd tmo out :
  exec_shape E payload f' r t ->
  In (EvRun cmd cwd tmo out) t ->
  exists rc core fields,
    r = Ok (finish rc) /\ payload = JObj fields /\
    In (EvRun cmd cwd tmo out) core /\ incl core t /\
    (forall d, In (EvMkdtemp d) t -> In (EvMkdtemp d) core) /\
    if eq_str (type_of fields) (txt "powershell")
    then shell_shape rc core
    else script_shape E f' rc core.
Proof.
  intros (rc & t0 & post & -> & (pre & core & -> & Hpre & Hcore) & Hpost & ->)
         Hin.
  apply in_app_or in Hin as [Hin|Hin];
    [|now apply quiet_no_run in Hin; [|apply prints_quiet]].
  apply in_app_or in Hin as [Hin|Hin]; [now apply quiet_no_run in Hin|].
  destruct Hcore as [(-> & _)|(fields & -> & Hbranch)]; [destruct Hin|].
  exists rc, core, fields. repeat split; auto.
  - intros ev Hev. apply in_or_app. left. apply in_or_app. now right.
  - intros d Hd.
    apply in_app_or in Hd as [Hd|Hd];
      [|now apply quiet_no_mkdtemp in Hd; [|apply prints_quiet]].
    apply in_app_or in Hd as [Hd|Hd]; [now apply quiet_no_mkdtemp in Hd|].
    exact Hd.
Qed.

End Branches.

(** C8, as amended.  On the script branch, which is the one that runs a
    process with the 60 second limit: when the process exits with a status
    other than 0 the result is the failure that carries the stripped
    stderr, or ["Script execution failed"] when stderr is empty, and the
    stripped stdout; when [subprocess.run] raises, as it does on a timeout,
    the result is the general failure with the text of the exception and
    carries neither stderr nor stdout. *)
Theorem script_failure_results (E : env) (payload : json) (f : fs)
    (cmd : list text) (cwd : option text) (out : proc_outcome) :
  In (EvRun cmd cwd 60 out) (trace_of (decrypt_and_execute E payload f)) ->
  match out with
  | Completed rc stdout stderr =>
      (rc =? 0)%Z = false ->
      result_of (decrypt_and_execute E payload f)
      = Ok (script_failure stdout stderr)
  | RunRaised e =>
      result_of (decrypt_and_execute E payload f) = Ok (generic_failure e)
  end.
Proof.
  intros Hin.
  destruct (exec_shape_run _ _ _ _
              (decrypt_and_execute_shape E payload f) Hin)
    as (rc & core & fields & -> & _ & Hcore & _ & _ & Hbranch).
  destruct (eq_str (type_of fields) (txt "powershell")).
  - destruct Hbranch as [(-> & _)|(c & o & -> & _)]; [destruct Hcore|].
    destruct Hcore as [Heq|[]]. discriminate.
  - destruct (script_shape_run _ _ _ _ Hbranch Hcore)
      as (d & _ & _ & _ & _ & post & Hv).
    destruct out as [rcode so se|e]; cbn in Hv.
    + intros Hrc. now destruct (Hv Hrc) as [-> _].
    + now destruct Hv as [-> _].
Qed.


(** ** The result of a script that succeeded *)

Section Enrichment.

Variable E : env.

#[local] Arguments txt : simpl never.

(** What [add_base64_screenshot] returns. *)
Lemma add_base64_screenshot_spec (d : dict) (f : fs) :
  wp (add_base64_screenshot E d) f
     (fun r f' _ =>
        f' = f /\
        r = Ok (match dict_lookup d (txt "path") with
                | Some (JStr p) =>
                    if negb (is_nil p) && exists_at f (resolve (agent_cwd E) p)
                    then match png_base64 E f p with
                         | Ok b => Some (dict_set d (txt "screenshot") (JStr b))
                         | Raise _ => None
                         end
                    else None
                | _ => None
                end)).
Proof.
  unfold add_base64_screenshot. apply wp_try_except.
  destruct (dict_lookup d (txt "path")) as [v|]; cbn beta iota zeta;
    [|cbn [truthy negb]; wp_run; auto].
  destruct v as [|b|z|z r|p|l|o]; cbn [truthy negb].
  - wp_run; auto.
  - destruct b; cbn [negb]; wp_run; auto.
  - destruct (negb (z =? 0)%Z); cbn [negb]; wp_run; auto.
  - destruct z; cbn [negb]; wp_run; auto.
  - destruct p as [|c p]; cbn [negb is_nil andb]; [wp_run; auto|].
    apply wp_bind, wp_get_fs.
    destruct (exists_at f (resolve (agent_cwd E) (c :: p)));
      cbn [negb]; [|wp_run; auto].
    apply wp_bind, wp_print. apply wp_bind, wp_emit. apply wp_bind, wp_lift.
    destruct (png_base64 E f (c :: p)); cbn beta iota; wp_run; auto.
  - destruct l; cbn [negb]; wp_run; auto.
  - destruct o; cbn [negb]; wp_run; auto.
Qed.

Lemma dict_set_cons (d : dict) (k : text) (v : json) :
  exists e d', dict_set d k v = e :: d'.
Proof.
  destruct d as [|[k' v'] d]; cbn; [eauto|].
  destruct (text_eqb k' k); eauto.
Qed.

Lemma normalize_output_object (stdout : text) (d : dict) (f : fs) :
  json_loads E stdout = Ok (JObj d) ->
  result_of (normalize_output E stdout f) = Ok (structured_success E f d) /\
  fs_of (normalize_output E stdout f) = f.
Proof.
  intros Hloads.
  change (wp (normalize_output E stdout) f
             (fun r f' _ => r = Ok (structured_success E f d) /\ f' = f)).
  unfold normalize_output, loads. apply wp_try_except_json.
  apply wp_bind, wp_bind, wp_emit, wp_lift. rewrite Hloads. cbn beta iota.
  apply wp_bind, wp_lift. unfold py_get. cbn beta iota.
  unfold structured_success, enrichment, dict_mem.
  apply wp_bind.
  destruct (dict_lookup d (txt "success")) as [success|];
    cbn [truthy andb];
    [|apply wp_ret; cbn beta iota; apply wp_ret;
      now destruct (dict_lookup d (txt "path")) as [[]|]].
  destruct (truthy success); cbn [andb];
    [|apply wp_ret; cbn beta iota; apply wp_ret;
      now destruct (dict_lookup d (txt "path")) as [[]|]].
  pose proof (add_base64_screenshot_spec d f) as Hadd.
  destruct (dict_lookup d (txt "path")) as [v|];
    [|apply wp_ret; cbn beta iota; apply wp_ret; auto].
  apply wp_bind, wp_print. apply wp_bind.
  eapply wp_mono; [exact Hadd|]. intros r f' t [-> ->]. cbn beta iota.
  destruct v as [|b|z|z r|p|l|o];
    try (apply wp_ret; cbn beta iota; apply wp_ret; now auto).
  destruct (negb (is_nil p) && exists_at f (resolve (agent_cwd E) p));
    [|apply wp_ret; cbn beta iota; apply wp_ret; now auto].
  destruct (png_base64 E f p) as [b|e];
    [|apply wp_ret; cbn beta iota; apply wp_ret; now auto].
  destruct (dict_set_cons d (txt "screenshot") (JStr b)) as (e0 & d' & ->).
  apply wp_ret. cbn beta iota. apply wp_ret. auto.
Qed.

(** The result of the normalizer depends on the file system only through
    the enrichment of the object that was printed. *)
Lemma normalize_output_result_ext (out : text) (fa fb : fs) :
  (forall obj, json_loads E out = Ok (JObj obj) ->
               enrichment E fa obj = enrichment E fb obj) ->
  result_of (normalize_output E out fa) = result_of (normalize_output E out fb).
Proof.
  intros Henr. destruct (json_loads E out) as [v|e] eqn:Hloads.
  - destruct v as [| | | | | |obj].
    7: { destruct (normalize_output_object out fa Hloads) as [-> _].
         destruct (normalize_output_object out fb Hloads) as [-> _].
         unfold structured_success. now rewrite (Henr obj eq_refl). }
    all: unfold normalize_output, loads, try_except_json, bind, lift, emit;
      cbn [result_of fs_of trace_of fst snd after]; rewrite Hloads;
      reflexivity.
  - unfold normalize_output, loads, try_except_json, bind, lift, emit.
    cbn [result_of fs_of trace_of fst snd after]. rewrite Hloads.
    cbn [result_of fs_of trace_of fst snd after].
    destruct (is_json_decode_error e); reflexivity.
Qed.

End Enrichment.

(** ** Helpers that fail *)

Section Helpers.

Variable E : env.

Lemma write_file_outcome (p c : text) (f : fs) :
  write_file E p c f
  = match open_error E f p with
    | Some e => (Raise e, f, [EvWrite p c false])
    | None => (Ok tt, put_file f (resolve (agent_cwd E) p) c, [EvWrite p c true])
    end.
Proof.
  unfold write_file, bind, get_fs, set_fs, emit, raise, after.
  cbn [result_of fs_of trace_of fst snd].
  destruct (open_error E f p); reflexivity.
Qed.

Lemma run_outcome (cmd : list text) (cwd : option text) (tmo : Z) (f : fs) :
  run E cmd cwd tmo f
  = (match fst (subprocess_run E f cmd cwd tmo) with
     | Completed rc out err => Ok (rc, out, err)
     | RunRaised e => Raise e
     end,
     snd (subprocess_run E f cmd cwd tmo),
     [EvRun cmd cwd tmo (fst (subprocess_run E f cmd cwd tmo))]).
Proof.
  unfold run, bind, get_fs. cbn [result_of fs_of trace_of fst snd].
  destruct (subprocess_run E f cmd cwd tmo) as [[rc out err|e] f']; reflexivity.
Qed.

Lemma result_bind_two {A B : Type} (m : M A) (k : A -> M B) (f1 f2 : fs) :
  result_of (m f1) = result_of (m f2) ->
  (forall a, result_of (m f1) = Ok a ->
             result_of (k a (fs_of (m f1))) = result_of (k a (fs_of (m f2)))) ->
  result_of (bind m k f1) = result_of (bind m k f2).
Proof.
  intros Hr Hk. unfold bind.
  destruct (m f1) as [[r1 g1] t1], (m f2) as [[r2 g2] t2]. cbn in *. subst r2.
  destruct r1 as [a|e]; [|reflexivity]. exact (Hk a eq_refl).
Qed.

(** What the block after the helpers returns, from the answers of the
    world. *)
Lemma run_main_result (d content n : text) (a : list json) (f : fs) :
  let p := os_path_join d n in
  let cmd := [txt "python"; p] ++ map (py_str E) a in
  let ran :=
    subprocess_run E (put_file f (resolve (agent_cwd E) p) content)
                   cmd (Some d) 60 in
  result_of (run_main E d content (JStr n) (JArr a) f)
  = match open_error E f p with
    | Some e => Raise e
    | None =>
        match fst ran with
        | RunRaised e => Raise e
        | Completed rc out err =>
            if (rc =? 0)%Z
            then result_of (normalize_output E out (snd ran))
            else Ok (script_failure out err)
        end
    end.
Proof.
  intros p cmd ran. subst p cmd ran. unfold run_main.
  cbn [join_name py_iter].
  unfold bind at 1. cbn [ret result_of fs_of trace_of fst snd after].
  unfold bind at 1. rewrite write_file_outcome.
  destruct (open_error E f (os_path_join d n)); [reflexivity|].
  cbn [result_of fs_of trace_of fst snd after].
  unfold bind at 1. cbn [print emit result_of fs_of trace_of fst snd after].
  unfold bind at 1. cbn [lift result_of fs_of trace_of fst snd after].
  unfold bind at 1. rewrite run_outcome.
  cbn [result_of fs_of trace_of fst snd after].
  destruct (fst (subprocess_run E _ _ _ _)) as [rc out err|e]; [|reflexivity].
  cbn [result_of fs_of trace_of fst snd after].
  destruct (rc =? 0)%Z; reflexivity.
Qed.

(** The loop goes on after a helper, whatever became of it. *)
Lemma save_helpers_cons (key : bytes) (d : text) (h : json) (rest : list json)
    (f : fs) :
  is_object h ->
  save_helpers E key d (h :: rest) f
  = after (trace_of (save_helper E key d h f))
          (save_helpers E key d rest (fs_of (save_helper E key d h f))).
Proof.
  intros Hh. cbn [save_helpers]. unfold bind.
  now rewrite (save_helper_ok E key d h f Hh).
Qed.

Lemma materialize_and_run_split (key : bytes) (d content : text)
    (hs : list json) (name args : json) (f : fs) :
  Forall is_object hs ->
  materialize_and_run E key d content (JArr hs) name args f
  = after (trace_of (save_helpers E key d hs f))
          (run_main E d content name args
                    (fs_of (save_helpers E key d hs f))).
Proof.
  intros H. unfold materialize_and_run.
  change (lift (py_iter (JArr hs))) with (@ret (list json) hs).
  unfold bind at 1. cbn [ret result_of fs_of trace_of fst snd].
  unfold bind. destruct (save_helpers_spec E key d f H) as [-> _].
  unfold after. cbn. reflexivity.
Qed.

(** A helper changes the file system only by a write that went through. *)
Lemma save_helper_fs (key : bytes) (d : text) (h : json) (f : fs) :
  fs_of (save_helper E key d h f) = f \/
  exists p c,
    In (EvWrite p c true) (trace_of (save_helper E key d h f)) /\
    fs_of (save_helper E key d h f) = put_file f (resolve (agent_cwd E) p) c.
Proof.
  set (Q := fun (_ : result unit) (f' : fs) (t : list event) =>
              f' = f \/
              exists p c, In (EvWrite p c true) t /\
                          f' = put_file f (resolve (agent_cwd E) p) c).
  change (wp (save_helper E key d h) f Q).
  assert (Hsil : forall A (m : M A) (k : A -> M unit),
             silent m ->
             (forall a, wp (k a) f Q) ->
             wp (bind m k) f Q).
  { intros A m k Hm Hk. apply wp_bind. eapply wp_mono; [apply Hm|].
    intros r f1 t1 [-> _]. destruct r as [a|e]; [|now left].
    eapply wp_mono; [apply Hk|]. intros r2 f2 t2 [->|(p & c & Hin & ->)].
    - now left.
    - right. exists p, c. split; [|reflexivity]. apply in_or_app. now right. }
  unfold save_helper. apply wp_try_except.
  eapply wp_mono with (Q := Q).
  - do 7 (apply Hsil; [solve_silent|intros ?]).
    apply wp_bind. unfold wp at 1. rewrite write_file_outcome.
    destruct (open_error E f a5); cbn [result_of fs_of trace_of fst snd].
    + now left.
    + apply wp_print. right. eexists _, _. split; [|reflexivity].
      cbn. now left.
  - intros r f1 t1 HQ. destruct r as [a|e]; [exact HQ|].
    apply wp_bind. eapply wp_mono; [apply silent_lift|].
    intros r2 f2 t2 [-> _]. destruct r2 as [nm|e2].
    + apply wp_print. destruct HQ as [->|(p & c & Hin & ->)]; [now left|].
      right. exists p, c. split; [|reflexivity].
      apply in_or_app. now left.
    + destruct HQ as [->|(p & c & Hin & ->)]; [now left|].
      right. exists p, c. split; [|reflexivity].
      apply in_or_app. now left.
Qed.

End Helpers.


(** ** Python dictionaries *)

Section DictFacts.

Lemma dict_lookup_set_same (d : dict) (k : text) (v : json) :
  dict_lookup (dict_set d k v) k = Some v.
Proof.
  induction d as [|[k' v'] d IH]; cbn.
  - now rewrite text_eqb_refl.
  - destruct (text_eqb k' k) eqn:Hk; cbn; now rewrite Hk.
Qed.

Lemma dict_lookup_set_other (d : dict) (k k0 : text) (v : json) :
  k0 <> k -> dict_lookup (dict_set d k v) k0 = dict_lookup d k0.
Proof.
  intros Hne. induction d as [|[k' v'] d IH]; cbn.
  - assert (text_eqb k k0 = false) as -> by (apply text_eqb_neq; congruence).
    reflexivity.
  - destruct (text_eqb k' k) eqn:Hk; cbn.
    + apply text_eqb_eq in Hk. subst k'.
      assert (text_eqb k k0 = false) as -> by (apply text_eqb_neq; congruence).
      reflexivity.
    + destruct (text_eqb k' k0); [reflexivity|exact IH].
Qed.

Lemma dict_lookup_not_in (d : dict) (k : text) :
  ~ In k (map fst d) -> dict_lookup d k = None.
Proof.
  induction d as [|[k' v'] d IH]; cbn; [reflexivity|]. intros Hn.
  destruct (text_eqb k' k) eqn:Hk.
  - apply text_eqb_eq in Hk. tauto.
  - apply IH. tauto.
Qed.

Lemma dict_set_keys (d : dict) (k : text) (v : json) :
  NoDup (map fst d) -> NoDup (map fst (dict_set d k v)).
Proof.
  induction d as [|[k' v'] d IH]; cbn; intros Hnd.
  - repeat constructor. tauto.
  - inversion Hnd as [|? ? Hn Hd]; subst.
    destruct (text_eqb k' k) eqn:Hk; cbn; [now constructor|].
    constructor; [|now apply IH].
    intros Hin. apply Hn. clear IH Hnd Hn Hd.
    induction d as [|[k2 v2] d IH]; cbn in *.
    + destruct Hin as [->|[]]. now rewrite text_eqb_refl in Hk.
    + destruct (text_eqb k2 k); cbn in Hin; tauto.
Qed.

(** [{**base, **extra}] has the fields of [extra] and, for the other keys,
    those of [base]. *)
Lemma dict_lookup_merge (base extra : dict) (k : text) :
  NoDup (map fst extra) ->
  dict_lookup (dict_merge base extra) k
  = match dict_lookup extra k with
    | Some v => Some v
    | None => dict_lookup base k
    end.
Proof.
  unfold dict_merge. revert base.
  induction extra as [|[k1 v1] extra IH]; intros base Hnd; [reflexivity|].
  inversion Hnd as [|? ? Hn Hd]; subst. cbn [fold_left fst snd].
  rewrite IH by assumption. cbn [dict_lookup].
  destruct (text_eqb k1 k) eqn:Hk.
  - apply text_eqb_eq in Hk. subst k1.
    rewrite (dict_lookup_not_in _ _ Hn). apply dict_lookup_set_same.
  - destruct (dict_lookup extra k); [reflexivity|].
    apply dict_lookup_set_other. apply text_eqb_neq in Hk. congruence.
Qed.

End DictFacts.


(** C7, as amended.  When the script printed a JSON object with distinct
    keys, the result is a success that never fails on account of the
    enrichment, and: every field other than [screenshot] and [success] is
    the one of the object; [success] is the one of the object, or [true]
    when the object has none; [screenshot] is the encoded image when the
    enrichment applies, replacing the field of that name the object may
    have, and is the one of the object otherwise. *)
Theorem structured_success_fields (E : env) (stdout : text) (d : dict)
    (f : fs) :
  json_loads E stdout = Ok (JObj d) ->
  NoDup (map fst d) ->
  exists resp,
    result_of (normalize_output E stdout f) = Ok resp /\
    (forall k,
        k <> txt "screenshot" -> k <> txt "success" ->
        dict_lookup resp k = dict_lookup d k) /\
    dict_lookup resp (txt "success")
    = Some (match dict_lookup d (txt "success") with
            | Some v => v
            | None => JBool true
            end) /\
    dict_lookup resp (txt "screenshot")
    = match enrichment E f d with
      | Some img_base64 => Some (JStr img_base64)
      | None => dict_lookup d (txt "screenshot")
      end.
Proof.
  intros Hloads Hnd.
  destruct (normalize_output_object E stdout f Hloads) as [Hr _].
  exists (structured_success E f d). split; [exact Hr|].
  unfold structured_success.
  set (d' := match enrichment E f d with
             | Some b => dict_set d (txt "screenshot") (JStr b)
             | None => d
             end).
  assert (Hnd' : NoDup (map fst d'))
    by (subst d'; destruct (enrichment E f d); [now apply dict_set_keys|auto]).
  assert (Hother : forall k, k <> txt "screenshot" ->
                             dict_lookup d' k = dict_lookup d k).
  { intros k Hk. subst d'. destruct (enrichment E f d); [|reflexivity].
    now apply dict_lookup_set_other. }
  split; [|split].
  - intros k Hk1 Hk2. rewrite dict_lookup_merge, Hother by assumption.
    destruct (dict_lookup d k); [reflexivity|].
    change (dict_lookup [(txt "success", JBool true)] k)
      with (if text_eqb (txt "success") k then Some (JBool true) else None).
    assert (text_eqb (txt "success") k = false) as ->
        by (apply text_eqb_neq; congruence).
    reflexivity.
  - rewrite dict_lookup_merge, Hother by (assumption || discriminate).
    now destruct (dict_lookup d (txt "success")).
  - rewrite dict_lookup_merge by assumption. subst d'.
    destruct (enrichment E f d).
    + now rewrite dict_lookup_set_same.
    + now destruct (dict_lookup d (txt "screenshot")).
Qed.

(** ** Where a helper is written *)

Section HelperPath.

Variable E : env.

#[local] Arguments txt : simpl never.

Lemma prefix_of_refl (a : list text) : prefix_of a a = true.
Proof.
  induction a as [|x a IH]; [reflexivity|].
  cbn. now rewrite text_eqb_refl.
Qed.

Lemma loc_eqb_refl (l : location) : loc_eqb l l = true.
Proof. unfold loc_eqb. now rewrite text_eqb_refl, prefix_of_refl. Qed.

Lemma read_file_put_same (f : fs) (l : location) (c : text) :
  read_file (put_file f l c) l = Some c.
Proof. unfold read_file, put_file. cbn. now rewrite loc_eqb_refl. Qed.

Lemma save_helper_write (key : bytes) (d : text) (fields : dict) (n : text)
    (f : fs) (path c : text) (ok : bool) :
  dict_lookup fields (txt "name") = Some (JStr n) ->
  In (EvWrite path c ok) (trace_of (save_helper E key d (JObj fields) f)) ->
  path = os_path_join d n /\
  (ok = true ->
   fs_of (save_helper E key d (JObj fields) f)
   = put_file f (resolve (agent_cwd E) path) c).
Proof.
  intros Hname.
  set (Q := fun (_ : result unit) (f' : fs) (t : list event) =>
              In (EvWrite path c ok) t ->
              path = os_path_join d n /\
              (ok = true -> f' = put_file f (resolve (agent_cwd E) path) c)).
  change (wp (save_helper E key d (JObj fields)) f Q).
  assert (Hquiet : forall t, Forall quiet t -> ~ In (EvWrite path c ok) t).
  { intros t Ht Hin. rewrite Forall_forall in Ht. exact (Ht _ Hin). }
  assert (Hsil : forall A (m : M A) (k : A -> M unit),
             silent m -> (forall a, wp (k a) f Q) -> wp (bind m k) f Q).
  { intros A m k Hm Hk. apply wp_bind. eapply wp_mono; [apply Hm|].
    intros r f1 t1 [-> Ht1]. destruct r as [a|e].
    - eapply wp_mono; [apply Hk|]. intros r2 f2 t2 HQ Hin.
      apply in_app_or in Hin as [Hin|Hin]; [now apply Hquiet in Hin|auto].
    - intros Hin. now apply Hquiet in Hin. }
  unfold save_helper. apply wp_try_except.
  eapply wp_mono with (Q := Q).
  - apply wp_bind, wp_lift. unfold py_index. rewrite Hname. cbn beta iota.
    do 5 (apply Hsil; [solve_silent|intros ?]).
    cbn zeta. cbn [join_name]. apply wp_bind, wp_ret.
    apply wp_bind. unfold wp at 1. rewrite write_file_outcome.
    destruct (open_error E f (os_path_join d n));
      cbn [result_of fs_of trace_of fst snd].
    + intros [[= <- <- <-]|[]]. split; [reflexivity|discriminate].
    + apply wp_print.
      intros Hin. cbn in Hin.
      destruct Hin as [[= <- <- <-]|[Hin|[]]]; [|discriminate].
      split; reflexivity.
  - intros r f1 t1 HQ. destruct r as [a|e]; [exact HQ|].
    apply wp_bind. eapply wp_mono; [apply silent_lift|].
    intros r2 f2 t2 [-> Ht2]. destruct r2 as [nm|e2].
    + apply wp_print. intros Hin.
      apply in_app_or in Hin as [Hin|Hin]; [auto|].
      apply in_app_or in Hin as [Hin|Hin]; [now apply Hquiet in Hin|].
      destruct Hin as [Hin|[]]. discriminate.
    + intros Hin.
      apply in_app_or in Hin as [Hin|Hin]; [auto|now apply Hquiet in Hin].
Qed.

Lemma cleanup_frame (d : text) (f1 : fs) (l : location) :
  under (resolve (agent_cwd E) d) l = false ->
  read_file (fs_of (cleanup E d f1)) l = read_file f1 l.
Proof.
  intros Hl.
  pose proof (cleanup_spec E d f1) as (_ & ok & line & survives & _ & Hf & _).
  rewrite Hf. now apply remove_tree_frame.
Qed.

End HelperPath.


(** ** The decryption, over a whole request *)


(** ** The agent at work in a small world *)

Section Examples.

Import Demo.

(** Finds an event in a trace that has been computed. *)
Ltac find_event := vm_compute; repeat (first [left; reflexivity | right]).


Lemma unauthorized_witness :
  handle_encrypted_execution world forged_request empty_fs
  = (Ok (mkResponse 401 (RawBody unauthorized_body)), empty_fs,
     [EvPrint (txt "[AUTH] Unauthorized attempt")]).
Proof.
  apply unauthorized_before_anything. right. right.
  exists (txt "wrong"). split; [reflexivity|].
  intros H. vm_compute in H. discriminate H.
Defined.



Lemma structured_success_witness :
  exists resp,
    result_of (normalize_output world json_shot shots_fs) = Ok resp /\
    dict_lookup resp (txt "path") = Some (JStr (txt "C:/shots/s.png")) /\
    dict_lookup resp (txt "success") = Some (JBool true) /\
    dict_lookup resp (txt "screenshot") = Some (JStr (txt "iVBORw0KGgo=")).
Proof.
  destruct (@structured_success_fields world json_shot
              [(txt "success", JBool true);
               (txt "path", JStr (txt "C:/shots/s.png"));
               (txt "screenshot", JStr (txt "old"))] shots_fs)
    as (resp & Hr & Hother & Hsuccess & Hshot).
  - reflexivity.
  - repeat constructor; cbn; intuition discriminate.
  - exists resp. split; [exact Hr|]. split; [|split].
    + rewrite Hother; [reflexivity|discriminate|discriminate].
    + rewrite Hsuccess. reflexivity.
    + rewrite Hshot. reflexivity.
Defined.

Lemma script_failure_witness :
  result_of (decrypt_and_execute world (envelope (txt "exit") []) empty_fs)
  = Ok [(txt "success", JBool false);
        (txt "error", JStr (txt "boom"));
        (txt "output", JStr (txt "so far"))].
Proof.
  refine (@script_failure_results world (envelope (txt "exit") []) empty_fs
            main_cmd (Some temp_dir)
            (Completed 1 (txt "so far" ++ [LF]) (txt "boom" ++ [LF])) _ eq_refl).
  find_event.
Defined.



(** Scenario A of the specification: the main script prints a JSON object
    with [success] and [value], and that object is the response. *)
Example scenario_script_prints_json :
  result_of (handle_encrypted_execution world authorised_request empty_fs)
  = Ok (mkResponse 200
          (JsonDumps (JObj [(txt "success", JBool true);
                            (txt "value", JInt 42)]))).
Proof. vm_compute. reflexivity. Qed.

(** The shape of scenario B: an inline command, here on the toy shell that
    prints its command line, gives [success], [output] and a null
    [error]. *)
Example scenario_inline_command :
  result_of (decrypt_and_execute world
               (envelope (txt "echo hi") [(txt "type", JStr (txt "powershell"))])
               empty_fs)
  = Ok [(txt "success", JBool true);
        (txt "output", JStr (txt "echo hi"));
        (txt "error", JNull)].
Proof. vm_compute. reflexivity. Qed.

(** A removal that fails leaves the sandbox behind and the response as it
    was. *)
Example failed_removal_keeps_response :
  result_of (handle_encrypted_execution
               (with_rmtree_error world
                  (fun _ _ => Some (mkExn OSError (txt "in use"), fun _ => true)))
               authorised_request empty_fs)
  = result_of (handle_encrypted_execution world authorised_request empty_fs)
  /\ is_dir (fs_of (handle_encrypted_execution
                      (with_rmtree_error world
                         (fun _ _ => Some (mkExn OSError (txt "in use"),
                                           fun _ => true)))
                      authorised_request empty_fs))
            (resolve home temp_dir) = true.
Proof. split; vm_compute; reflexivity. Qed.

End Examples.

(** C7, as stated, fails in two ways: an object without [success] does not
    come back unmodified, it gains [success]; and an object that has a
    [screenshot] field loses its value to the encoded image. *)
Lemma enrichment_changes_fields :
  (json_loads Demo.world Demo.json_value_only
   = Ok (JObj [(txt "value", JInt 42)]) /\
   result_of (normalize_output Demo.world Demo.json_value_only Demo.empty_fs)
   = Ok [(txt "success", JBool true); (txt "value", JInt 42)]) /\
  (json_loads Demo.world Demo.json_shot
   = Ok (JObj [(txt "success", JBool true);
               (txt "path", JStr (txt "C:/shots/s.png"));
               (txt "screenshot", JStr (txt "old"))]) /\
   result_of (normalize_output Demo.world Demo.json_shot Demo.shots_fs)
   = Ok [(txt "success", JBool true);
         (txt "path", JStr (txt "C:/shots/s.png"));
         (txt "screenshot", JStr (txt "iVBORw0KGgo="))]).
Proof. repeat split; vm_compute; reflexivity. Qed.

(** C8, as stated, fails for a timeout: the result carries the text of the
    exception, and neither stderr nor stdout. *)
Lemma timeout_carries_no_output :
  In (EvRun Demo.main_cmd (Some Demo.temp_dir) 60 (RunRaised Demo.timed_out))
     (trace_of (decrypt_and_execute Demo.world
                  (Demo.envelope (txt "sleep") []) Demo.empty_fs)) /\
  result_of (decrypt_and_execute Demo.world
               (Demo.envelope (txt "sleep") []) Demo.empty_fs)
  = Ok [(txt "success", JBool false);
        (txt "error",
         JStr (txt "Decryption/execution failed: Command timed out after 60 seconds"))] /\
  dict_lookup (generic_failure Demo.timed_out) (txt "output") = None.
Proof.
  split; [|split]; [|vm_compute; reflexivity|reflexivity].
  vm_compute; repeat (first [left; reflexivity | right]).
Qed.


(** * Further properties of the agent *)

(** ** Line endings and the repair *)

Section LineEndings.

Lemma replace_crlf_without_cr (s : text) :
  ~ In CR s -> replace_crlf s = s.
Proof.
  induction s as [|c s IH]; [reflexivity|]. intros Hn.
  cbn [replace_crlf]. destruct s as [|d s']; [reflexivity|].
  destruct (N.eqb_spec c CR) as [->|_]; [cbn in Hn; tauto|].
  cbn [andb]. f_equal. apply IH. cbn in *. tauto.
Qed.

Lemma replace_cr_without_cr (s : text) : ~ In CR s -> replace_cr s = s.
Proof.
  induction s as [|c s IH]; [reflexivity|]. intros Hn. cbn.
  destruct (N.eqb_spec c CR) as [->|_]; [cbn in Hn; tauto|].
  f_equal. apply IH. cbn in Hn. tauto.
Qed.

Lemma replace_cr_no_cr (s : text) : ~ In CR (replace_cr s).
Proof.
  unfold replace_cr. intros Hin. apply in_map_iff in Hin as (c & Hc & _).
  destruct (N.eqb_spec c CR) as [_|Hne]; [discriminate|congruence].
Qed.

Lemma normalize_newlines_no_cr (s : text) : ~ In CR (normalize_newlines s).
Proof. apply replace_cr_no_cr. Qed.

End LineEndings.

(** X1. After the two replacements of [decrypt_and_execute] a text has no
    carriage return left, and a text that has none is not changed. *)
Theorem normalize_newlines_lf_only (s : text) :
  ~ In CR (normalize_newlines s) /\
  (~ In CR s -> normalize_newlines s = s).
Proof.
  split; [apply normalize_newlines_no_cr|].
  intros Hn. unfold normalize_newlines.
  now rewrite replace_crlf_without_cr, replace_cr_without_cr.
Qed.

Lemma normalize_newlines_witness :
  normalize_newlines (txt "x = 1" ++ [LF] ++ txt "y = 2")
  = txt "x = 1" ++ [LF] ++ txt "y = 2".
Proof.
  apply (proj2 (normalize_newlines_lf_only _)).
  vm_compute. intuition discriminate.
Defined.

Section RepairMore.

Lemma fix_lines_untouched (lines : list text) :
  Forall (fun l => continued l = false) lines -> fix_lines lines = lines.
Proof.
  induction 1 as [|l lines Hl _ IH]; [reflexivity|].
  now rewrite fix_lines_cons, Hl, IH.
Qed.

Lemma lstrip_nil_all_space (s : text) :
  lstrip s = [] -> forall c, In c s -> isspace c = true.
Proof.
  induction s as [|d s IH]; cbn; [tauto|].
  destruct (isspace d) eqn:Hd; [|discriminate].
  intros Hs c [<-|Hin]; auto.
Qed.

Lemma is_blank_rstrip (l : text) : is_blank (rstrip l) = is_blank l.
Proof. unfold is_blank, strip. now rewrite rstrip_idem. Qed.

Lemma continued_not_blank (l : text) : continued l = true -> is_blank l = false.
Proof.
  intros Hc. apply endswith_one in Hc as [body Hb].
  unfold is_blank, strip. destruct (lstrip (rstrip l)) eqn:Hl; [|reflexivity].
  pose proof (lstrip_nil_all_space _ Hl BACKSLASH) as H.
  rewrite Hb in H.
  assert (Hin : In BACKSLASH (body ++ [BACKSLASH]))
    by (apply in_or_app; right; now left).
  specialize (H Hin). discriminate H.
Qed.

Lemma solid_lines_drop_blank (l : list text) :
  solid_lines (drop_blank l) = solid_lines l.
Proof.
  induction l as [|x l IH]; [reflexivity|].
  cbn [drop_blank]. destruct (is_blank x) eqn:Hx; [|reflexivity].
  rewrite IH. unfold solid_lines. cbn. now rewrite Hx.
Qed.

Lemma solid_lines_cons (x : text) (l : list text) :
  is_blank x = false -> solid_lines (x :: l) = rstrip x :: solid_lines l.
Proof. intros Hx. unfold solid_lines. cbn. now rewrite Hx. Qed.

Lemma solid_lines_resplit (n : nat) :
  forall lines : list text,
    (length lines <= n)%nat ->
    Forall (fun l => ~ In LF l) lines ->
    solid_lines (flat_map split_lf (fix_lines lines)) = solid_lines lines.
Proof.
  induction n as [|n IH]; intros lines Hlen Hlf.
  - destruct lines; [reflexivity|simpl in Hlen; lia].
  - destruct lines as [|line rest]; [reflexivity|].
    inversion Hlf as [|? ? Hline Hrest]; subst. simpl in Hlen.
    rewrite (fix_lines_cons line rest).
    destruct (continued line) eqn:Hc.
    + pose proof (continued_not_blank _ Hc) as Hnb.
      rewrite (solid_lines_cons _ _ Hnb), <- (solid_lines_drop_blank rest).
      pose proof (drop_blank_length rest) as Hdl.
      pose proof (drop_blank_head rest) as Hdh.
      pose proof (drop_blank_Forall Hrest) as Hdf.
      assert (Hrs : ~ In LF (rstrip line))
        by (intros Hin; apply Hline; now apply rstrip_incl).
      assert (Hrb : is_blank (rstrip line) = false)
        by now rewrite is_blank_rstrip.
      destruct (drop_blank rest) as [|x l'].
      * cbn [flat_map]. rewrite (split_lf_single _ Hrs). cbn [app].
        now rewrite (solid_lines_cons _ _ Hrb), rstrip_idem.
      * inversion Hdf as [|? ? Hx Hl']; subst.
        cbn [flat_map]. rewrite split_lf_app.
        rewrite (split_lf_single _ Hrs), (split_lf_single _ Hx). cbn [app].
        rewrite (solid_lines_cons _ _ Hrb), !(solid_lines_cons _ _ Hdh), rstrip_idem.
        do 2 f_equal. apply IH; [simpl in Hdl; lia|assumption].
    + cbn [flat_map]. rewrite (split_lf_single _ Hline). cbn [app].
      unfold solid_lines. cbn [filter map].
      destruct (negb (is_blank line)); cbn [map]; [f_equal|];
        apply IH; (lia || assumption).
Qed.

Lemma in_join_lf (ls : list text) (c : char) :
  In c (join_lf ls) -> c = LF \/ exists l, In l ls /\ In c l.
Proof.
  induction ls as [|l ls IH]; [intros []|].
  destruct ls as [|l2 ls].
  - cbn. intros Hin. right. exists l. auto.
  - change (join_lf (l :: l2 :: ls)) with (l ++ LF :: join_lf (l2 :: ls)).
    intros Hin. apply in_app_or in Hin as [Hin|[<-|Hin]].
    + right. exists l. split; [now left|exact Hin].
    + now left.
    + destruct (IH Hin) as [->|(l' & Hl' & Hc)]; [now left|].
      right. exists l'. split; [now right|exact Hc].
Qed.

Lemma in_split_lf (s l : text) (c : char) :
  In l (split_lf s) -> In c l -> In c s.
Proof.
  revert l. induction s as [|d s IH]; intros l; cbn.
  - intros [<-|[]] [].
  - destruct (d =? LF).
    + intros [<-|Hl]; [intros []|]. intros Hc. right. eauto.
    + destruct (split_lf s) as [|l0 ls] eqn:Hs.
      * intros [<-|[]] [<-|[]]. now left.
      * intros [<-|Hl] Hc.
        -- destruct Hc as [<-|Hc]; [now left|]. right.
           apply (IH l0); [now left|exact Hc].
        -- right. apply (IH l); [now right|exact Hc].
Qed.

Lemma in_fix_lines (n : nat) :
  forall (lines : list text) (l : text) (c : char),
    (length lines <= n)%nat ->
    In l (fix_lines lines) -> In c l ->
    c = LF \/ exists l0, In l0 lines /\ In c l0.
Proof.
  induction n as [|n IH]; intros lines l c Hlen.
  - destruct lines; [intros []|simpl in Hlen; lia].
  - destruct lines as [|line rest]; [intros []|]. simpl in Hlen.
    rewrite fix_lines_cons. destruct (continued line).
    + pose proof (drop_blank_length rest) as Hdl.
      assert (Hsub : forall x, In x (drop_blank rest) -> In x rest).
      { clear. induction rest as [|y rest IH]; cbn; [tauto|].
        destruct (is_blank y); cbn; intuition. }
      destruct (drop_blank rest) as [|x l'].
      * intros [<-|[]] Hc. right. exists line.
        split; [now left|now apply rstrip_incl].
      * intros [<-|Hl] Hc.
        -- apply in_app_or in Hc as [Hc|[<-|Hc]].
           ++ right. exists line. split; [now left|now apply rstrip_incl].
           ++ now left.
           ++ right. exists x. split; [right; apply Hsub; now left|exact Hc].
        -- destruct (IH l' l c ltac:(simpl in Hdl; lia) Hl Hc)
             as [->|(l0 & Hl0 & Hc0)]; [now left|].
           right. exists l0. split; [right; apply Hsub; now right|exact Hc0].
    + intros [<-|Hl] Hc.
      * right. exists line. split; [now left|exact Hc].
      * destruct (IH rest l c ltac:(lia) Hl Hc) as [->|(l0 & Hl0 & Hc0)];
          [now left|].
        right. exists l0. split; [now right|exact Hc0].
Qed.

(** The repair brings in no character but the line feed. *)
Lemma in_repair (s : text) (c : char) :
  In c (repair s) -> c = LF \/ In c s.
Proof.
  unfold repair. intros Hin.
  apply in_join_lf in Hin as [->|(l & Hl & Hc)]; [now left|].
  destruct (in_fix_lines (n := length (split_lf s)) _ l c (le_n _) Hl Hc)
    as [->|(l0 & Hl0 & Hc0)]; [now left|].
  right. now apply (in_split_lf s l0).
Qed.

End RepairMore.

(** X2. A text in which no line ends, after right-stripping, with a
    backslash passes through the repair unchanged. *)
Theorem repair_leaves_plain_text (s : text) :
  Forall (fun l => continued l = false) (split_lf s) ->
  repair_continuations s = Some s.
Proof.
  intros H. rewrite repair_continuations_total. unfold repair.
  now rewrite fix_lines_untouched, join_split_lf.
Qed.

Lemma repair_leaves_plain_text_witness :
  repair_continuations (txt "import os" ++ [LF; LF] ++ txt "print(os.name)  ")
  = Some (txt "import os" ++ [LF; LF] ++ txt "print(os.name)  ").
Proof.
  apply repair_leaves_plain_text. vm_compute. repeat constructor.
Defined.

(** X3. The repair keeps every line that is not blank, in order and up to
    trailing whitespace: all it removes are blank lines and trailing
    whitespace. *)
Theorem repair_keeps_solid_lines (s : text) :
  exists repaired,
    repair_continuations s = Some repaired /\
    solid_lines (split_lf repaired) = solid_lines (split_lf s).
Proof.
  exists (repair s). split; [apply repair_continuations_total|].
  unfold repair.
  rewrite split_join_lf
    by (apply fix_lines_nonempty, split_lf_nonempty).
  apply (solid_lines_resplit (n := length (split_lf s)));
    [lia|apply split_lf_no_lf].
Qed.

(** ** What is written, and when anything happens at all *)

Section Written.

Variable E : env.

Lemma repair_no_cr (s : text) : ~ In CR (repair (normalize_newlines s)).
Proof.
  intros Hin. apply in_repair in Hin as [Hin|Hin]; [discriminate|].
  now apply (normalize_newlines_no_cr s).
Qed.

Lemma save_helper_lf_only (key : bytes) (d : text) (h : json) :
  leaves writes_lf_only (save_helper E key d h).
Proof.
  solve_leaves;
    apply leaves_emit; exact (normalize_newlines_no_cr _).
Qed.

Lemma run_main_lf_only (d content : text) (name args : json) :
  ~ In CR content -> leaves writes_lf_only (run_main E d content name args).
Proof.
  intros Hc. solve_leaves; apply leaves_emit; exact Hc.
Qed.

Lemma decrypt_and_execute_lf_only (payload : json) :
  leaves writes_lf_only (decrypt_and_execute E payload).
Proof.
  unfold decrypt_and_execute.
  apply leaves_try_except; [|intros; solve_leaves].
  do 13 (apply leaves_bind; [solve_leaves|intros ?]).
  destruct (eq_str _ _); [solve_leaves|].
  unfold run_script.
  apply leaves_bind; [solve_leaves|intros sc]. cbn zeta.
  apply leaves_bind; [solve_leaves|intros d].
  apply leaves_bind; [solve_leaves|intros _].
  apply leaves_try_finally; [|solve_leaves].
  unfold materialize_and_run.
  apply leaves_bind; [solve_leaves|intros hs].
  apply leaves_bind;
    [apply save_helpers_leaves; intros; apply save_helper_lf_only|intros _].
  apply run_main_lf_only, repair_no_cr.
Qed.

Lemma decrypt_main_opened (key iv c t : bytes) (f : fs) :
  wp (decrypt_main E key iv c t) f
     (fun r f' tr =>
        f' = f /\ Forall quiet tr /\
        forall plain, r = Ok plain ->
          exists data, In (EvDecrypt key iv data) tr /\
                       aesgcm_decrypt E key iv data = Ok plain).
Proof.
  unfold decrypt_main, aesgcm_open.
  apply wp_try_except, wp_bind, wp_emit, wp_lift.
  destruct (aesgcm_decrypt E key iv (c ++ t)) as [p1|e1] eqn:H1.
  - split; [reflexivity|]. split; [repeat constructor|].
    intros plain [= <-]. exists (c ++ t). split; [now left|exact H1].
  - apply wp_bind, wp_print. apply wp_bind, wp_emit, wp_lift.
    destruct (aesgcm_decrypt E key iv c) as [p2|e2] eqn:H2.
    + split; [reflexivity|]. split; [repeat constructor|].
      intros plain [= <-]. exists c. split; [|exact H2].
      cbn. auto.
    + split; [reflexivity|]. split; [repeat constructor|]. discriminate.
Qed.

Lemma decrypt_and_execute_opened (payload : json) (f : fs) :
  wp (decrypt_and_execute E payload) f
     (fun _ _ t => Forall quiet t \/ opened E t).
Proof.
  set (Q := fun (r : result dict) (_ : fs) (t : list event) =>
              (Forall quiet t /\ exists e, r = Raise e) \/ opened E t).
  assert (Hstep : forall A (m : M A) (k : A -> M dict),
             silent m -> (forall a, wp (k a) f Q) -> wp (bind m k) f Q).
  { intros A m k Hm Hk. apply wp_bind. eapply wp_mono; [apply Hm|].
    intros r f1 t1 [-> Ht1]. destruct r as [a|e]; [|left; eauto].
    eapply wp_mono; [apply Hk|].
    intros r2 f2 t2 [(Ht2 & He)|(key & iv & data & plain & Hin & Hd)].
    - left. split; [now apply Forall_app|exact He].
    - right. exists key, iv, data, plain. split; [|exact Hd].
      apply in_or_app. now right. }
  unfold decrypt_and_execute. apply wp_try_except.
  eapply wp_mono with (Q := Q).
  - do 11 (apply Hstep; [solve_silent|intros ?]).
    apply wp_bind. eapply wp_mono; [apply decrypt_main_opened|].
    intros r f1 t1 (-> & Ht1 & Hok). destruct r as [plain|e]; [|left; eauto].
    destruct (Hok plain eq_refl) as (data & Hin & Hd).
    right. exists a9, a0, data, plain. split; [|exact Hd].
    apply in_or_app. now left.
  - intros r f1 t1 [(Ht1 & e & ->)|Ho].
    + apply wp_bind, wp_print, wp_ret. left.
      apply Forall_app. split; [exact Ht1|repeat constructor].
    + destruct Ho as (key & iv & data & plain & Hin & Hd).
      assert (Hopen : forall t2, opened E (t1 ++ t2)).
      { intros t2. exists key, iv, data, plain. split; [|exact Hd].
        apply in_or_app. now left. }
      destruct r as [d|e]; [right; rewrite <- (app_nil_r t1); apply Hopen|].
      apply wp_bind, wp_print, wp_ret. right. apply Hopen.
Qed.

End Written.

(** X4. Whatever the envelope, every file the agent writes, helper or
    main script, has line feeds only: no write carries a carriage
    return. *)
Theorem files_written_lf_only (E : env) (payload : json) (f : fs)
    (path content : text) (ok : bool) :
  In (EvWrite path content ok) (trace_of (decrypt_and_execute E payload f)) ->
  ~ In CR content.
Proof.
  intros Hin.
  pose proof (decrypt_and_execute_lf_only E payload f) as H.
  unfold wp in H. rewrite Forall_forall in H. exact (H _ Hin).
Qed.

(** X5. Nothing is created, written, executed or removed for an envelope
    unless an AEAD call on it succeeded: a request in whose trace anything
    but decoding, decryption attempts and log lines occurs has a
    decryption that returned a plaintext. *)
Theorem effects_only_after_decryption (E : env) (payload : json) (f : fs)
    (ev : event) :
  In ev (trace_of (decrypt_and_execute E payload f)) ->
  ~ quiet ev ->
  opened E (trace_of (decrypt_and_execute E payload f)).
Proof.
  intros Hin Hev.
  destruct (decrypt_and_execute_opened E payload f) as [Hq|Ho]; [|exact Ho].
  rewrite Forall_forall in Hq. destruct (Hev (Hq _ Hin)).
Qed.

(** ** The answers of the handler *)

Section Answers.

Variable E : env.

#[local] Arguments txt : simpl never.

Lemma startswith_app (p s : text) : startswith (p ++ s) p = true.
Proof.
  induction p as [|c p IH]; [now destruct s|].
  cbn. now rewrite N.eqb_refl, IH.
Qed.

Lemma startswith_skipn (p s : text) :
  startswith s p = true -> s = p ++ skipn (length p) s.
Proof.
  revert s. induction p as [|c p IH]; intros s; [reflexivity|].
  destruct s as [|d s]; [discriminate|]. cbn.
  intros H. apply andb_true_iff in H as [Hc Hs].
  apply N.eqb_eq in Hc. subst d. f_equal. now apply IH.
Qed.

(** The test of line 46 fails exactly for the configured bearer token. *)
Lemma credential_test (req : request) :
  let auth_header :=
    match header (req_headers req) (txt "Authorization") with
    | Some v => v
    | None => []
    end in
  negb (startswith auth_header (txt "Bearer "))
  || negb (text_eqb (skipn 7 auth_header) (API_KEY E)) = false
  <-> authorised E req.
Proof.
  unfold authorised. cbn zeta.
  destruct (header (req_headers req) (txt "Authorization")) as [h|].
  - split.
    + intros H. apply orb_false_iff in H as [Hs Hk].
      apply negb_false_iff in Hs, Hk. apply text_eqb_eq in Hk.
      apply startswith_skipn in Hs.
      change (length (txt "Bearer ")) with 7%nat in Hs.
      rewrite Hk in Hs. now rewrite Hs.
    + intros Hh. assert (h = txt "Bearer " ++ API_KEY E) as -> by congruence.
      rewrite startswith_app.
      change (skipn 7 (txt "Bearer " ++ API_KEY E)) with (API_KEY E).
      now rewrite text_eqb_refl.
  - split; [|discriminate].
    change (startswith [] (txt "Bearer ")) with false. discriminate.
Qed.

Lemma wp_result_bind {A B : Type} (P : result B -> Prop) (m : M A)
    (k : A -> M B) (f : fs) :
  (forall e, P (Raise e)) ->
  (forall a f1, wp (k a) f1 (fun r _ _ => P r)) ->
  wp (bind m k) f (fun r _ _ => P r).
Proof.
  intros He Hk. apply wp_bind. unfold wp at 1.
  destruct (result_of (m f)) as [a|e]; [apply Hk|apply He].
Qed.

Lemma decrypt_and_execute_returns (payload : json) (f : fs) :
  exists d, result_of (decrypt_and_execute E payload f) = Ok d.
Proof.
  destruct (decrypt_and_execute_shape E payload f)
    as (rc & _ & _ & _ & _ & _ & ->).
  eauto.
Qed.

Lemma after_nil {A : Type} (o : outcome A) : after [] o = o.
Proof. now destruct o as [[r f] t]. Qed.

Lemma after_after {A : Type} (t1 t2 : list event) (o : outcome A) :
  after t1 (after t2 o) = after (t1 ++ t2) o.
Proof. unfold after. cbn. now rewrite app_assoc. Qed.

Lemma bind_lift {A B : Type} (r : result A) (k : A -> M B) (f : fs) :
  bind (lift r) k f
  = match r with Ok a => k a f | Raise e => (Raise e, f, []) end.
Proof. destruct r; cbn; [apply after_nil|reflexivity]. Qed.

Lemma bind_read_body {B : Type} (req : request) (n : Z) (k : bytes -> M B)
    (f : fs) :
  bind (read_body req n) k f = after [EvReadBody n] (k (body_read req n) f).
Proof. reflexivity. Qed.

Lemma bind_loads {B : Type} (data : bytes) (k : json -> M B) (f : fs) :
  bind (loads E data) k f
  = after [EvJsonLoads data]
      (match json_loads E data with
       | Ok payload => k payload f
       | Raise e => (Raise e, f, [])
       end).
Proof.
  unfold loads, bind, emit, lift. cbn.
  destruct (json_loads E data); cbn; [|reflexivity].
  unfold after. cbn. reflexivity.
Qed.

Lemma bind_print {B : Type} (line : text) (k : unit -> M B) (f : fs) :
  bind (print line) k f = after [EvPrint line] (k tt f).
Proof. reflexivity. Qed.

Lemma bind_answer {A B : Type} (m : M A) (g : A -> B) (f : fs) :
  bind m (fun a => ret (g a)) f
  = (match result_of (m f) with Ok a => Ok (g a) | Raise e => Raise e end,
     fs_of (m f), trace_of (m f)).
Proof.
  unfold bind. destruct (m f) as [[[a|e] f1] t1]; cbn; [|reflexivity].
  unfold after. cbn. now rewrite app_nil_r.
Qed.

(** The part of the handler after the credential check, for a body that
    can be read. *)
Lemma handle_after_check (req : request) (f : fs) (v : text) (n : Z) :
  authorised E req ->
  header (req_headers req) (txt "Content-Length") = Some v ->
  py_int E v = Ok n ->
  handle_encrypted_execution E req f
  = match json_loads E (body_read req n) with
    | Ok payload =>
        after [EvReadBody n; EvJsonLoads (body_read req n);
               EvPrint (txt "[DECRYPT] Received encrypted payload")]
              (match result_of (decrypt_and_execute E payload f) with
               | Ok d =>
                   (Ok (mkResponse 200 (JsonDumps (JObj d))),
                    fs_of (decrypt_and_execute E payload f),
                    trace_of (decrypt_and_execute E payload f))
               | Raise e =>
                   (Ok (error_500 E e),
                    fs_of (decrypt_and_execute E payload f),
                    trace_of (decrypt_and_execute E payload f)
                    ++ [EvPrint (txt "[ERROR] " ++ exn_str e);
                        EvPrint (txt "[TRACE] " ++ format_exc E e)])
               end)
    | Raise e =>
        (Ok (error_500 E e), f,
         [EvReadBody n; EvJsonLoads (body_read req n);
          EvPrint (txt "[ERROR] " ++ exn_str e);
          EvPrint (txt "[TRACE] " ++ format_exc E e)])
    end.
Proof.
  intros Hauth Hcl Hint. unfold handle_encrypted_execution.
  pose proof (proj2 (credential_test req) Hauth) as Ht. cbn zeta in Ht.
  rewrite Ht, Hcl. clear Ht.
  unfold try_except.
  rewrite bind_lift, Hint, bind_read_body, bind_loads.
  destruct (json_loads E (body_read req n)) as [payload|e].
  - rewrite bind_print, bind_answer, !after_after.
    generalize (decrypt_and_execute E payload f).
    intros [[[d|e] f1] t1]; reflexivity.
  - reflexivity.
Qed.

End Answers.

(** X6. The handler answers every request, with 401, 200 or 500; the
    answer is 401 exactly when the request does not carry the configured
    secret as bearer token. *)
Theorem credentials_decide_401 (E : env) (req : request) (f : fs) :
  exists resp,
    result_of (handle_encrypted_execution E req f) = Ok resp /\
    (resp_status resp = 401%Z <-> ~ authorised E req) /\
    (resp_status resp = 401%Z \/ resp_status resp = 200%Z
     \/ resp_status resp = 500%Z).
Proof.
  pose proof (credential_test E req) as Htest. cbn zeta in Htest.
  unfold handle_encrypted_execution.
  match goal with |- context [if ?c then _ else _] => destruct c end.
  - eexists. split; [reflexivity|]. split; [|now left].
    split; [|reflexivity]. intros _ Hauth. apply Htest in Hauth.
    discriminate.
  - assert (Hauth : authorised E req) by now apply Htest.
    set (P := fun r : result response =>
                forall resp, r = Ok resp -> resp_status resp = 200%Z).
    match goal with
    | |- context [try_except ?m ?h] =>
        assert (Hbody : wp m f (fun r _ _ => P r));
        [|unfold try_except; unfold wp in Hbody; revert Hbody;
          generalize (m f)]
    end.
    { apply wp_result_bind; [discriminate|intros ? ?].
      apply wp_result_bind; [discriminate|intros ? ?].
      apply wp_result_bind; [discriminate|intros ? ?].
      apply wp_result_bind; [discriminate|intros ? ?].
      apply wp_result_bind; [discriminate|intros ? ?].
      intros resp [= <-]. reflexivity. }
    intros [[[resp|e] f1] t1] Hbody.
    + exists resp. split; [reflexivity|].
      rewrite (Hbody resp eq_refl). split; [|auto].
      split; [discriminate|tauto].
    + eexists. split; [reflexivity|]. split; [|now right; right].
      split; [discriminate|tauto].
Qed.

(** X7. An authorised request whose body cannot be parsed is answered 500
    with the text of the exception and the traceback; the body has been
    read and given to the parser and nothing else has happened: no hex
    decoding, no decryption, no file, no process. *)
Theorem unparsable_body_is_500 (E : env) (req : request) (f : fs) (v : text)
    (n : Z) (e : exn) :
  authorised E req ->
  header (req_headers req) (txt "Content-Length") = Some v ->
  py_int E v = Ok n ->
  json_loads E (body_read req n) = Raise e ->
  handle_encrypted_execution E req f
  = (Ok (error_500 E e), f,
     [EvReadBody n; EvJsonLoads (body_read req n);
      EvPrint (txt "[ERROR] " ++ exn_str e);
      EvPrint (txt "[TRACE] " ++ format_exc E e)]).
Proof.
  intros Hauth Hcl Hint Hloads.
  rewrite (@handle_after_check E req f v n Hauth Hcl Hint), Hloads. reflexivity.
Qed.

(** X8. An authorised request whose body parses is answered 200 with the
    object that [decrypt_and_execute] returns, which never raises: a
    failure to decode, decrypt, write or run is reported in that object
    and not as an HTTP error. *)
Theorem parsed_body_is_200 (E : env) (req : request) (f : fs) (v : text)
    (n : Z) (payload : json) :
  authorised E req ->
  header (req_headers req) (txt "Content-Length") = Some v ->
  py_int E v = Ok n ->
  json_loads E (body_read req n) = Ok payload ->
  exists d,
    result_of (decrypt_and_execute E payload f) = Ok d /\
    result_of (handle_encrypted_execution E req f)
    = Ok (mkResponse 200 (JsonDumps (JObj d))) /\
    fs_of (handle_encrypted_execution E req f)
    = fs_of (decrypt_and_execute E payload f).
Proof.
  intros Hauth Hcl Hint Hloads.
  destruct (decrypt_and_execute_returns E payload f) as [d Hd].
  exists d. split; [exact Hd|].
  rewrite (@handle_after_check E req f v n Hauth Hcl Hint), Hloads, Hd.
  split; reflexivity.
Qed.

(** X9. An authorised request without a usable [Content-Length] (the
    header is missing, or [int] rejects it) is answered 500 before the body
    is read: the only events are the two log lines of the handler. *)
Theorem unusable_length_is_500 (E : env) (req : request) (f : fs) :
  authorised E req ->
  match header (req_headers req) (txt "Content-Length") with
  | Some v => exists e, py_int E v = Raise e
  | None => True
  end ->
  exists e,
    handle_encrypted_execution E req f
    = (Ok (error_500 E e), f,
       [EvPrint (txt "[ERROR] " ++ exn_str e);
        EvPrint (txt "[TRACE] " ++ format_exc E e)]) /\
    match header (req_headers req) (txt "Content-Length") with
    | Some v => py_int E v = Raise e
    | None => exn_cls e = TypeError
    end.
Proof.
  intros Hauth Hcl. unfold handle_encrypted_execution.
  pose proof (proj2 (credential_test E req) Hauth) as Ht. cbn zeta in Ht.
  rewrite Ht. clear Ht. unfold try_except.
  destruct (header (req_headers req) (txt "Content-Length")) as [v|].
  - destruct Hcl as [e He]. exists e. rewrite bind_lift, He.
    split; reflexivity.
  - eexists. split; reflexivity.
Qed.

(** ** Where a plain name lands *)

Section PlainNames.

Lemma components_not_nil (p : text) : components p <> [].
Proof.
  induction p as [|c p IH]; [discriminate|]. cbn.
  destruct (is_sep c); [discriminate|].
  destruct (components p); [contradiction|discriminate].
Qed.

Lemma components_sep_free (n : text) :
  forallb (fun c => negb (is_sep c)) n = true -> components n = [n].
Proof.
  induction n as [|c n IH]; [reflexivity|]. cbn.
  intros H. apply andb_true_iff in H as [Hc Hn].
  apply negb_true_iff in Hc. rewrite Hc, (IH Hn). reflexivity.
Qed.

Lemma components_app_sep (a b : text) (s : char) :
  is_sep s = true ->
  components (a ++ s :: b) = components a ++ components b.
Proof.
  intros Hs. induction a as [|c a IH]; cbn.
  - now rewrite Hs.
  - destruct (is_sep c); [now rewrite IH|]. rewrite IH.
    pose proof (components_not_nil a) as Hne.
    destruct (components a); [contradiction|reflexivity].
Qed.

Lemma walk_app (cs1 cs2 base : list text) :
  walk base (cs1 ++ cs2) = walk (walk base cs1) cs2.
Proof.
  revert base. induction cs1 as [|c cs1 IH]; intros base; [reflexivity|].
  cbn. destruct (is_nil c || text_eqb c [DOT]); [apply IH|].
  destruct (text_eqb c [DOT; DOT]); apply IH.
Qed.

Lemma prefix_of_app (a b : list text) : prefix_of a (a ++ b) = true.
Proof.
  induction a as [|x a IH]; [reflexivity|].
  cbn. now rewrite text_eqb_refl.
Qed.

Lemma ends_with_sep_inv (p : text) :
  ends_with_sep p = true -> exists a s, p = a ++ [s] /\ is_sep s = true.
Proof.
  unfold ends_with_sep. intros H.
  destruct (rev p) as [|c l] eqn:Hr; [discriminate|].
  exists (rev l), c. split; [|exact H].
  rewrite <- (rev_involutive p), Hr. reflexivity.
Qed.

Variable n : text.
Hypothesis Hplain : plain_name n = true.

Lemma plain_parts :
  n <> [] /\ text_eqb n [DOT] = false /\ text_eqb n [DOT; DOT] = false /\
  forallb (fun c => negb (is_sep c)) n = true /\
  forallb (fun c => negb (c =? COLON)) n = true.
Proof.
  unfold plain_name in Hplain.
  apply andb_true_iff in Hplain as [H Hall].
  apply andb_true_iff in H as [H Hdd].
  apply andb_true_iff in H as [Hnil Hd].
  apply negb_true_iff in Hd, Hdd.
  split; [now destruct n|]. split; [exact Hd|]. split; [exact Hdd|].
  rewrite !forallb_forall. rewrite forallb_forall in Hall.
  split; intros c Hc; specialize (Hall c Hc);
    apply andb_true_iff in Hall; tauto.
Qed.

Lemma splitdrive_plain : splitdrive n = ([], n).
Proof.
  destruct plain_parts as (_ & _ & _ & _ & Hc).
  destruct n as [|a [|b r]]; try reflexivity.
  cbn in Hc. apply andb_true_iff in Hc as [_ Hc].
  apply andb_true_iff in Hc as [Hb _]. apply negb_true_iff in Hb.
  cbn. now rewrite Hb.
Qed.

Lemma starts_with_sep_plain : starts_with_sep n = false.
Proof.
  destruct plain_parts as (_ & _ & _ & Hs & _).
  destruct n as [|a r]; [reflexivity|].
  cbn in Hs. apply andb_true_iff in Hs as [Ha _].
  now apply negb_true_iff in Ha.
Qed.

Lemma join_plain (d : text) :
  os_path_join d n
  = fst (splitdrive d) ++ stem (snd (splitdrive d)) ++ n.
Proof.
  unfold os_path_join. rewrite splitdrive_plain.
  destruct (splitdrive d) as [dr rp]. rewrite starts_with_sep_plain.
  reflexivity.
Qed.

Lemma splitdrive_join (d : text) :
  splitdrive (os_path_join d n)
  = (fst (splitdrive d), stem (snd (splitdrive d)) ++ n).
Proof.
  rewrite join_plain.
  destruct plain_parts as (Hne & _ & _ & Hs & Hc).
  destruct d as [|x [|y r]].
  - cbn. apply splitdrive_plain.
  - destruct n as [|c n']; [contradiction|].
    cbn in Hc. apply andb_true_iff in Hc as [Hc _].
    apply negb_true_iff in Hc.
    cbn [splitdrive fst snd app]. unfold stem, ends_with_sep. cbn.
    destruct (is_sep x); cbn; [now rewrite Hc|reflexivity].
  - cbn [splitdrive]. destruct (y =? COLON) eqn:Hy; cbn [fst snd app].
    + cbn. now rewrite Hy.
    + unfold stem. cbn [is_nil negb andb].
      destruct (negb (ends_with_sep (x :: y :: r))); cbn; now rewrite Hy.
Qed.

Lemma starts_with_sep_stem (rp : text) :
  starts_with_sep (stem rp ++ n) = starts_with_sep rp.
Proof.
  unfold stem. destruct rp as [|c rp]; [apply starts_with_sep_plain|].
  cbn [is_nil negb andb]. now destruct (negb (ends_with_sep (c :: rp))).
Qed.

Lemma walk_stem (rp : text) (base : list text) :
  walk base (components (stem rp ++ n)) = n :: walk base (components rp).
Proof.
  destruct plain_parts as (Hne & Hd & Hdd & Hs & _).
  assert (Hlast : forall b, walk b [n] = n :: b).
  { intros b. cbn. rewrite Hd, Hdd. now destruct n. }
  unfold stem. destruct rp as [|c rp].
  - cbn [is_nil negb andb app]. rewrite (@components_sep_free n Hs).
    apply Hlast.
  - cbn [is_nil negb andb].
    destruct (ends_with_sep (c :: rp)) eqn:He; cbn [negb].
    + apply ends_with_sep_inv in He as (a & s & -> & Hsep).
      rewrite <- app_assoc. cbn [app].
      rewrite (@components_app_sep a n s Hsep).
      rewrite (@components_app_sep a [] s Hsep).
      rewrite (@components_sep_free n Hs), !walk_app.
      cbn [components]. rewrite Hlast. reflexivity.
    + rewrite <- app_assoc.
      change ([BACKSLASH] ++ n) with (BACKSLASH :: n).
      rewrite (@components_app_sep (c :: rp) n BACKSLASH eq_refl).
      rewrite (@components_sep_free n Hs), walk_app. apply Hlast.
Qed.

Lemma join_plain_under (cwd : location) (d : text) :
  under (resolve cwd d) (resolve cwd (os_path_join d n)) = true.
Proof.
  unfold resolve. rewrite splitdrive_join.
  destruct (splitdrive d) as [dr rp]. cbn [fst snd].
  rewrite starts_with_sep_stem.
  destruct (starts_with_sep rp); unfold under; cbn [loc_drive loc_dirs];
    rewrite text_eqb_refl, walk_stem; cbn [rev andb]; apply prefix_of_app.
Qed.

End PlainNames.


(** ** The screenshot enrichment *)

Section Screenshot.

Variable E : env.

#[local] Arguments txt : simpl never.

Lemma add_base64_screenshot_names_image (d : dict) :
  leaves (names_image d) (add_base64_screenshot E d).
Proof.
  unfold add_base64_screenshot.
  apply leaves_try_except; [|intros; solve_leaves].
  destruct (dict_lookup d (txt "path")) as [v|] eqn:Hp; cbn beta iota zeta;
    [|solve_leaves].
  destruct (negb (truthy v)); [solve_leaves|].
  destruct v; solve_leaves.
Qed.

End Screenshot.

(** X11. [add_base64_screenshot] never raises and leaves the file system
    alone; besides log lines it opens at most the image that ['path']
    names; and what it returns, when not [None], is the response with
    ['screenshot'] set to a string and every other key as it was. *)
Theorem screenshot_enrichment_is_safe (E : env) (d : dict) (f : fs) :
  let o := add_base64_screenshot E d f in
  fs_of o = f /\
  Forall (names_image d) (trace_of o) /\
  exists r,
    result_of o = Ok r /\
    forall enhanced,
      r = Some enhanced ->
      (exists b, dict_lookup enhanced (txt "screenshot") = Some (JStr b)) /\
      (forall k, k <> txt "screenshot" ->
                 dict_lookup enhanced k = dict_lookup d k).
Proof.
  intros o. subst o.
  pose proof (add_base64_screenshot_spec E d f) as [Hf Hr].
  split; [exact Hf|].
  split; [apply (add_base64_screenshot_names_image E d f)|].
  eexists. split; [exact Hr|]. intros enhanced Hen.
  destruct (dict_lookup d (txt "path")) as [[| | | |p| |]|]; try discriminate.
  destruct (negb (is_nil p) && exists_at f (resolve (agent_cwd E) p));
    [|discriminate].
  destruct (png_base64 E f p) as [b|e]; [|discriminate].
  injection Hen as <-. split.
  - exists b. apply dict_lookup_set_same.
  - intros k Hk. now apply dict_lookup_set_other.
Qed.

(** * The primitive commands *)

(** ** Computations over the desk *)

Section DeskLaws.

Variable desk : Type.

Lemma bindP_liftP {A B : Type} (r : result A) (k : A -> P desk B)
    (s : fs * desk) :
  bindP (liftP r) k s
  = match r with Ok a => k a s | Raise e => (Raise e, s, []) end.
Proof.
  unfold bindP, liftP. destruct r as [a|e]; [|reflexivity].
  now destruct (k a s) as [[r s2] t2].
Qed.

Lemma bindP_retP {A B : Type} (a : A) (k : A -> P desk B) (s : fs * desk) :
  bindP (retP a) k s = k a s.
Proof. exact (bindP_liftP (Ok a) k s). Qed.

Lemma bindP_ext {A B : Type} (m : P desk A) (k1 k2 : A -> P desk B)
    (s : fs * desk) :
  (forall a s1, k1 a s1 = k2 a s1) -> bindP m k1 s = bindP m k2 s.
Proof.
  intros H. unfold bindP. destruct (m s) as [[[a|e] s1] t1]; [|reflexivity].
  now rewrite H.
Qed.

Lemma bindP_ext2 {A B : Type} (m1 m2 : P desk A) (k1 k2 : A -> P desk B)
    (s : fs * desk) :
  m1 s = m2 s -> (forall a s1, k1 a s1 = k2 a s1) ->
  bindP m1 k1 s = bindP m2 k2 s.
Proof.
  intros Hm H. unfold bindP. rewrite Hm.
  destruct (m2 s) as [[[a|e] s1] t1]; [|reflexivity].
  now rewrite H.
Qed.

Lemma bindP_ok {A B : Type} (m : P desk A) (k : A -> P desk B)
    (s s1 s2 : fs * desk) (a : A) (r : result B) (t1 t2 : list action) :
  m s = (Ok a, s1, t1) -> k a s1 = (r, s2, t2) ->
  bindP m k s = (r, s2, t1 ++ t2).
Proof. intros Hm Hk. unfold bindP. now rewrite Hm, Hk. Qed.

Lemma bindP_raise {A B : Type} (m : P desk A) (k : A -> P desk B)
    (s s1 : fs * desk) (e : exn) (t1 : list action) :
  m s = (Raise e, s1, t1) -> bindP m k s = (Raise e, s1, t1).
Proof. intros Hm. unfold bindP. now rewrite Hm. Qed.

Lemma bindP_assoc {A B C : Type} (m : P desk A) (k : A -> P desk B)
    (h : B -> P desk C) (s : fs * desk) :
  bindP (bindP m k) h s = bindP m (fun a => bindP (k a) h) s.
Proof.
  unfold bindP. destruct (m s) as [[[a|e] s1] t1]; [|reflexivity].
  destruct (k a s1) as [[[b|e] s2] t2]; [|reflexivity].
  destruct (h b s2) as [[r s3] t3]. now rewrite app_assoc.
Qed.

Lemma try_exceptP_ext {A : Type} (m1 m2 : P desk A) (h : exn -> P desk A)
    (s : fs * desk) :
  m1 s = m2 s -> try_exceptP m1 h s = try_exceptP m2 h s.
Proof. intros H. unfold try_exceptP. now rewrite H. Qed.

Lemma wpP_bind {A B : Type} (m : P desk A) (k : A -> P desk B)
    (s : fs * desk) (Q : result B -> fs * desk -> list action -> Prop) :
  wpP m s (fun r s1 t1 =>
             match r with
             | Ok a => wpP (k a) s1 (fun r2 s2 t2 => Q r2 s2 (t1 ++ t2))
             | Raise e => Q (Raise e) s1 t1
             end) ->
  wpP (bindP m k) s Q.
Proof.
  unfold wpP, bindP, resultP, stateP, traceP.
  destruct (m s) as [[[a|e] s1] t1]; cbn; [|auto].
  now destruct (k a s1) as [[r s2] t2].
Qed.

Lemma wpP_try_except {A : Type} (m : P desk A) (h : exn -> P desk A)
    (s : fs * desk) (Q : result A -> fs * desk -> list action -> Prop) :
  wpP m s (fun r s1 t1 =>
             match r with
             | Ok a => Q (Ok a) s1 t1
             | Raise e => wpP (h e) s1 (fun r2 s2 t2 => Q r2 s2 (t1 ++ t2))
             end) ->
  wpP (try_exceptP m h) s Q.
Proof.
  unfold wpP, try_exceptP, resultP, stateP, traceP.
  destruct (m s) as [[[a|e] s1] t1]; cbn; [auto|].
  now destruct (h e s1) as [[r s2] t2].
Qed.

Lemma wpP_mono {A : Type} (m : P desk A) (s : fs * desk)
    (Q Q' : result A -> fs * desk -> list action -> Prop) :
  wpP m s Q -> (forall r s1 t, Q r s1 t -> Q' r s1 t) -> wpP m s Q'.
Proof. unfold wpP. auto. Qed.

Lemma wpP_liftP {A : Type} (r : result A) (s : fs * desk)
    (Q : result A -> fs * desk -> list action -> Prop) :
  Q r s [] -> wpP (liftP r) s Q.
Proof. auto. Qed.

Lemma wpP_retP {A : Type} (a : A) (s : fs * desk)
    (Q : result A -> fs * desk -> list action -> Prop) :
  Q (Ok a) s [] -> wpP (retP a) s Q.
Proof. auto. Qed.

Lemma wpP_raiseP {A : Type} (e : exn) (s : fs * desk)
    (Q : result A -> fs * desk -> list action -> Prop) :
  Q (Raise e) s [] -> wpP (raiseP e) s Q.
Proof. auto. Qed.

Lemma wpP_from_M {A : Type} (m : M A) (s : fs * desk)
    (Q : result A -> fs * desk -> list action -> Prop) :
  wp m (fst s) (fun r f t => Q r (f, snd s) (map Core t)) ->
  wpP (from_M m) s Q.
Proof. auto. Qed.

Lemma wpP_device (D : driver desk) (a : action) (s : fs * desk)
    (Q : result unit -> fs * desk -> list action -> Prop) :
  (forall r s1, Q r s1 [a]) -> wpP (device D a) s Q.
Proof.
  intros H. unfold wpP, device.
  destruct (act D (fst s) (snd s) a) as [[[e|] f] d]; apply H.
Qed.

End DeskLaws.

(** ** The recursion of [execute_command] *)

Section Recursion.

Variable E : env.
Variable desk : Type.
Variable D : driver desk.

Lemma depth_in (x : json) (l : list json) :
  In x l -> (json_depth x < json_depth (JArr l))%nat.
Proof.
  cbn. induction l as [|y l IH]; [contradiction|].
  intros [->|Hin]; cbn; [lia|]. specialize (IH Hin). lia.
Qed.

Lemma depth_lookup (d : dict) (k : text) (v : json) :
  dict_lookup d k = Some v -> (json_depth v < json_depth (JObj d))%nat.
Proof.
  cbn. induction d as [|[k' v'] d IH]; [discriminate|]. cbn.
  destruct (text_eqb k' k); [intros [= ->]; lia|].
  intros H. specialize (IH H). lia.
Qed.

Lemma depth_normalize (a : json) :
  normalize_args a = [] \/
  (json_depth (JObj (normalize_args a)) <= json_depth a)%nat.
Proof.
  destruct a as [| | | | |l|d]; try (now left).
  - destruct l as [|x l]; [now left|].
    destruct x; try (now left). right.
    apply Nat.lt_le_incl, depth_in. now left.
  - right. apply Nat.le_refl.
Qed.

(** The arguments of a command of a batch lie deeper than the batch. *)
Lemma sub_args_shallower (a commands cmd a' : json) (items : list json) :
  commands = get (normalize_args a) (txt "commands") (JArr []) ->
  py_iter commands = Ok items ->
  In cmd items ->
  py_get cmd (txt "args") (JObj []) = Ok a' ->
  (json_depth a' < json_depth a)%nat.
Proof.
  intros Hc Hiter Hin Hget.
  destruct cmd as [| | | | | |fields]; try discriminate.
  assert (Hcmd : (json_depth a' <= json_depth (JObj fields))%nat).
  { assert (Ha : a' = get fields (txt "args") (JObj []))
      by (unfold py_get in Hget; unfold get; congruence).
    rewrite Ha. unfold get.
    destruct (dict_lookup fields (txt "args")) as [v|] eqn:Hv.
    - apply Nat.lt_le_incl. exact (@depth_lookup fields (txt "args") v Hv).
    - cbn. lia. }
  unfold get in Hc.
  destruct (dict_lookup (normalize_args a) (txt "commands")) as [v|] eqn:Hv.
  - subst v.
    assert (Hitems : (json_depth (JObj fields) < json_depth commands)%nat).
    { destruct commands as [| | | |s|l|d]; try discriminate.
      - injection Hiter as <-. apply in_map_iff in Hin as (c & Hc & _).
        discriminate.
      - injection Hiter as <-. now apply depth_in.
      - injection Hiter as <-. apply in_map_iff in Hin as (c & Hc & _).
        discriminate. }
    apply depth_lookup in Hv.
    destruct (depth_normalize a) as [Hn|Hn]; [|lia].
    rewrite Hn in Hv. cbn in Hv. lia.
  - subst commands. injection Hiter as <-. contradiction.
Qed.

Lemma batch_loop_ext (self1 self2 : json -> json -> P desk dict)
    (items : list json) :
  (forall cmd c a s,
      In cmd items ->
      py_get cmd (txt "args") (JObj []) = Ok a ->
      self1 c a s = self2 c a s) ->
  forall results s,
    batch_loop self1 items results s = batch_loop self2 items results s.
Proof.
  induction items as [|cmd rest IH]; intros H results s; [reflexivity|].
  cbn [batch_loop].
  assert (Hstep : forall s1,
    (command <- liftP (py_index cmd (txt "command")) ;;
     args <- liftP (py_get cmd (txt "args") (JObj [])) ;;
     result <- self1 command args ;; retP (JObj result))%prim s1
    = (command <- liftP (py_index cmd (txt "command")) ;;
       args <- liftP (py_get cmd (txt "args") (JObj [])) ;;
       result <- self2 command args ;; retP (JObj result))%prim s1).
  { intros s1. rewrite !bindP_liftP.
    destruct (py_index cmd (txt "command")) as [c|e]; [|reflexivity].
    rewrite !bindP_liftP.
    destruct (py_get cmd (txt "args") (JObj [])) as [a|e] eqn:Ha;
      [|reflexivity].
    unfold bindP. rewrite (H cmd c a s1 (or_introl eq_refl) Ha).
    reflexivity. }
  apply bindP_ext2; [apply try_exceptP_ext, Hstep|].
  intros r s1. apply IH.
  intros cmd' c a s' Hin. apply H. now right.
Qed.

Lemma execute_command_body_ext (self1 self2 : json -> json -> P desk dict)
    (command args : json) (s : fs * desk) :
  (forall c a s1,
      (json_depth a < json_depth args)%nat -> self1 c a s1 = self2 c a s1) ->
  execute_command_body E D self1 command args s
  = execute_command_body E D self2 command args s.
Proof.
  intros H. unfold execute_command_body.
  do 8 (destruct (eq_str command _); [reflexivity|]).
  destruct (eq_str command _); [|reflexivity].
  rewrite !bindP_liftP.
  destruct (py_iter _) as [items|e] eqn:Hiter; [|reflexivity].
  unfold bindP. rewrite (@batch_loop_ext self1 self2 items); [reflexivity|].
  intros cmd c a s1 Hin Ha. apply H.
  exact (@sub_args_shallower args _ cmd a items eq_refl Hiter Hin Ha).
Qed.

Lemma execute_command_within_enough (n : nat) :
  forall m command args s,
    (json_depth args < n)%nat -> (json_depth args < m)%nat ->
    execute_command_within E D n command args s
    = execute_command_within E D m command args s.
Proof.
  induction n as [|n IH]; intros m command args s Hn Hm; [lia|].
  destruct m as [|m]; [lia|]. cbn [execute_command_within].
  apply execute_command_body_ext. intros c a s1 Ha. apply IH; lia.
Qed.

(** [execute_command] is its body, with itself for the nested calls. *)
Lemma execute_command_eq (command args : json) (s : fs * desk) :
  execute_command E D command args s
  = execute_command_body E D (execute_command E D) command args s.
Proof.
  unfold execute_command at 1. cbn [execute_command_within].
  apply execute_command_body_ext. intros c a s1 Ha.
  unfold execute_command. apply execute_command_within_enough; lia.
Qed.

End Recursion.

(** ** What a single command does *)

Section Commands.

Variable E : env.
Variable desk : Type.
Variable D : driver desk.

#[local] Arguments txt : simpl never.

Lemma eq_str_true (v : json) (s : text) : eq_str v s = true -> v = JStr s.
Proof.
  destruct v; try discriminate. cbn. intros H.
  apply text_eqb_eq in H. now subst.
Qed.

(** Settles the comparisons of a known command name with the names of the
    source. *)
Ltac settle_names :=
  repeat match goal with
         | |- context [eq_str (JStr (txt ?a)) (txt ?b)] =>
             let v := eval vm_compute in (eq_str (JStr (txt a)) (txt b)) in
             change (eq_str (JStr (txt a)) (txt b)) with v
         end;
  cbv iota.

Lemma unknown_names (c : json) :
  known_command c = false ->
  Forall (fun n => eq_str c n = false) command_names.
Proof.
  unfold known_command. intros H. apply Forall_forall. intros n Hn.
  destruct (eq_str c n) eqn:Hc; [|reflexivity].
  assert (existsb (eq_str c) command_names = true)
    by (apply existsb_exists; eauto).
  congruence.
Qed.

Lemma index_missing {B : Type} (args : dict) (k : text)
    (h : json -> P desk B) (s : fs * desk) :
  dict_lookup args k = None ->
  bindP (index args k) h s = (Raise (mkExn KeyError (quoted k)), s, []).
Proof.
  intros H. unfold index. rewrite bindP_liftP. unfold py_index.
  now rewrite H.
Qed.

Lemma index_found {B : Type} (args : dict) (k : text) (v : json)
    (h : json -> P desk B) (s : fs * desk) :
  dict_lookup args k = Some v -> bindP (index args k) h s = h v s.
Proof.
  intros H. unfold index. rewrite bindP_liftP. unfold py_index.
  now rewrite H.
Qed.

Lemma wpP_index (args : dict) (k : text) (s : fs * desk)
    (Q : result json -> fs * desk -> list action -> Prop) :
  (forall v, dict_lookup args k = Some v -> Q (Ok v) s []) ->
  (dict_lookup args k = None -> Q (Raise (mkExn KeyError (quoted k))) s []) ->
  wpP (index args k) s Q.
Proof.
  intros Hs Hn. unfold index, py_index. apply wpP_liftP.
  destruct (dict_lookup args k) as [v|]; auto.
Qed.

Lemma execute_command_body_success (self : json -> json -> P desk dict)
    (command args : json) (s : fs * desk) :
  wpP (execute_command_body E D self command args) s
      (fun r _ _ => success_shape command r).
Proof.
  assert (Hraise : forall e, success_shape command (Raise e))
    by (intros e d; discriminate).
  assert (Htrue : forall rest,
             success_shape command (Ok ((txt "success", JBool true) :: rest))).
  { intros rest d [= <-]. exists true. split; [reflexivity|auto]. }
  assert (Hstep : forall A (m : P desk A) (k : A -> P desk dict) s1,
             (forall a s2, wpP (k a) s2 (fun r _ _ => success_shape command r)) ->
             wpP (bindP m k) s1 (fun r _ _ => success_shape command r)).
  { intros A m k s1 Hk. apply wpP_bind. unfold wpP at 1.
    destruct (resultP (m s1)) as [a|e]; [apply Hk|apply Hraise]. }
  unfold execute_command_body.
  destruct (eq_str command (txt "mouse_move"));
    [do 3 (apply Hstep; intros ? ?); apply wpP_retP, Htrue|].
  destruct (eq_str command (txt "mouse_click"));
    [do 3 (apply Hstep; intros ? ?); apply wpP_retP, Htrue|].
  destruct (eq_str command (txt "mouse_position")).
  { apply Hstep; intros [x y] ?. apply wpP_retP, Htrue. }
  destruct (eq_str command (txt "mouse_scroll"));
    [do 4 (apply Hstep; intros ? ?); apply wpP_retP, Htrue|].
  destruct (eq_str command (txt "keyboard_type"));
    [do 3 (apply Hstep; intros ? ?); apply wpP_retP, Htrue|].
  destruct (eq_str command (txt "keyboard_press"));
    [do 2 (apply Hstep; intros ? ?); apply wpP_retP, Htrue|].
  destruct (eq_str command (txt "screenshot")).
  { apply Hstep; intros [[b w] h] ?. apply wpP_retP, Htrue. }
  destruct (eq_str command (txt "powershell")) eqn:Hp.
  { apply Hstep; intros ? ?. apply Hstep; intros [[rc out] err] ?.
    apply wpP_retP. intros d [= <-]. eexists. split; [reflexivity|].
    congruence. }
  destruct (eq_str command (txt "batch"));
    [do 2 (apply Hstep; intros ? ?); apply wpP_retP, Htrue|].
  apply wpP_raiseP, Hraise.
Qed.

Lemma execute_command_success (command args : json) (s : fs * desk) :
  success_shape command (resultP (execute_command E D command args s)).
Proof.
  rewrite execute_command_eq. apply execute_command_body_success.
Qed.

(** One command of a batch: what it returned, or what it raised as a
    result of its own. *)
Lemma batch_step_returns (cmd : json) (s : fs * desk) :
  exists r s1 t1,
    try_exceptP
      (command <- liftP (py_index cmd (txt "command")) ;;
       args <- liftP (py_get cmd (txt "args") (JObj [])) ;;
       result <- execute_command E D command args ;;
       retP (JObj result))%prim
      (fun e => retP (JObj [(txt "success", JBool false);
                            (txt "error", JStr (exn_str e))])) s
    = (Ok r, s1, t1) /\ reports r.
Proof.
  unfold try_exceptP.
  assert (Hfail : forall e, reports (JObj [(txt "success", JBool false);
                                           (txt "error", JStr (exn_str e))])).
  { intros e. eexists _, false. split; reflexivity. }
  rewrite bindP_liftP.
  destruct (py_index cmd (txt "command")) as [c|e];
    [|cbn; rewrite ?app_nil_r; eauto 6].
  rewrite bindP_liftP.
  destruct (py_get cmd (txt "args") (JObj [])) as [a|e];
    [|cbn; rewrite ?app_nil_r; eauto 6].
  pose proof (execute_command_success c a s) as Hs.
  unfold bindP, resultP in *.
  destruct (execute_command E D c a s) as [[[d|e] s1] t1]; cbn in *.
  - destruct (Hs d eq_refl) as (b & Hb & _).
    eexists _, _, _. split; [reflexivity|]. now exists d, b.
  - rewrite ?app_nil_r. eauto 6.
Qed.

(** The loop of a batch returns, with one result for each command after
    those it started with. *)
Lemma batch_loop_returns (items : list json) :
  forall s,
    exists rs s1 t,
      (forall acc,
          batch_loop (execute_command E D) items acc s
          = (Ok (acc ++ rs), s1, t))
      /\ length rs = length items /\ Forall reports rs.
Proof.
  induction items as [|cmd rest IH]; intros s.
  - exists [], s, []. split; [|auto]. intros acc. cbn.
    now rewrite app_nil_r.
  - destruct (batch_step_returns cmd s) as (r & s1 & t1 & Hone & Hr).
    destruct (IH s1) as (rs & s2 & t2 & Hrest & Hlen & Hall).
    exists (r :: rs), s2, (t1 ++ t2). split; [|cbn; auto].
    intros acc. cbn [batch_loop].
    rewrite (@bindP_ok _ _ _ _ _ _ _ _ _ _ _ _ Hone (Hrest (acc ++ [r]))).
    now rewrite <- app_assoc.
Qed.

Lemma batch_loop_app (self : json -> json -> P desk dict)
    (l1 l2 : list json) :
  forall acc s,
    batch_loop self (l1 ++ l2) acc s
    = bindP (batch_loop self l1 acc) (fun r => batch_loop self l2 r) s.
Proof.
  induction l1 as [|cmd rest IH]; intros acc s.
  - cbn [app batch_loop]. now rewrite bindP_retP.
  - cbn [app batch_loop]. rewrite bindP_assoc.
    apply bindP_ext. intros r s1. apply IH.
Qed.

(** What a batch of the commands [l] comes to. *)
Lemma batch_of_runs (l : list json) (s : fs * desk) :
  exists rs s1 t,
    (forall acc,
        batch_loop (execute_command E D) l acc s = (Ok (acc ++ rs), s1, t)) /\
    length rs = length l /\ Forall reports rs /\
    execute_command E D (JStr (txt "batch")) (batch_of l) s
    = (Ok [(txt "success", JBool true);
           (txt "results", JArr rs);
           (txt "count", JInt (Z.of_nat (length rs)))], s1, t).
Proof.
  destruct (batch_loop_returns l s) as (rs & s1 & t & Hloop & Hlen & Hall).
  exists rs, s1, t. split; [exact Hloop|]. split; [exact Hlen|].
  split; [exact Hall|].
  rewrite execute_command_eq. unfold execute_command_body.
  settle_names.
  change (get (normalize_args (batch_of l)) (txt "commands") (JArr []))
    with (JArr l).
  rewrite bindP_liftP. cbn [py_iter].
  rewrite (@bindP_ok _ _ _ _ _ s s1 s1 rs _ t [] (Hloop []) eq_refl).
  now rewrite app_nil_r.
Qed.

End Commands.

(** X12. A command that is none of the nine names raises [ValueError]
    before anything is done: no device is touched, nothing is run, the
    state is as it was. *)
Theorem unknown_command_raises (E : env) (desk : Type) (D : driver desk)
    (command args : json) (s : fs * desk) :
  known_command command = false ->
  execute_command E D command args s
  = (Raise (mkExn ValueError (txt "Unknown command: " ++ py_str E command)),
     s, []).
Proof.
  intros H. apply unknown_names in H. unfold command_names in H.
  rewrite execute_command_eq. unfold execute_command_body.
  repeat match goal with
         | H : Forall _ (_ :: _) |- _ =>
             let H1 := fresh in
             apply Forall_cons_iff in H as [H1 H]; rewrite H1; clear H1
         end.
  reflexivity.
Qed.


(** X14. A batch whose ['commands'] can be iterated never raises: it
    returns [success: True] with one result for each command, in order,
    whatever the commands do, and every result is an object with a boolean
    under ['success']. *)
Theorem batch_answers_every_command (E : env) (desk : Type)
    (D : driver desk) (args : json) (items : list json) (s : fs * desk) :
  py_iter (get (normalize_args args) (txt "commands") (JArr [])) = Ok items ->
  exists results s1 t,
    execute_command E D (JStr (txt "batch")) args s
    = (Ok [(txt "success", JBool true);
           (txt "results", JArr results);
           (txt "count", JInt (Z.of_nat (length items)))], s1, t) /\
    length results = length items /\
    Forall reports results.
Proof.
  intros Hiter. rewrite execute_command_eq. unfold execute_command_body.
  repeat match goal with
         | |- context [eq_str (JStr (txt ?a)) (txt ?b)] =>
             let v := eval vm_compute in (eq_str (JStr (txt a)) (txt b)) in
             change (eq_str (JStr (txt a)) (txt b)) with v
         end.
  cbv iota. rewrite bindP_liftP, Hiter.
  destruct (batch_loop_returns E D items s)
    as (rs & s1 & t & Hloop & Hlen & Hall).
  exists rs, s1, t.
  rewrite (@bindP_ok _ _ _ _ _ s s1 s1 rs _ t [] (Hloop []) eq_refl).
  rewrite app_nil_r, Hlen. auto.
Qed.

(** X15. Whatever a command returns has a boolean under ['success'], and
    only ['powershell'] can return [False] there: every other failure of a
    command is an exception. *)
Theorem failure_is_an_exception (E : env) (desk : Type) (D : driver desk)
    (command args : json) (s : fs * desk) (d : dict) :
  resultP (execute_command E D command args s) = Ok d ->
  exists b,
    dict_lookup d (txt "success") = Some (JBool b) /\
    (eq_str command (txt "powershell") = false -> b = true).
Proof.
  intros H. exact (execute_command_success E D command args s H).
Qed.

(** ** Batches, scrolling and the forms of the arguments *)

(** X16. Batches compose: a batch of [l1 ++ l2] leaves the results, the
    state and the calls of a batch of [l1] followed by a batch of [l2]. *)
Theorem batches_compose (E : env) (desk : Type) (D : driver desk)
    (l1 l2 : list json) (s : fs * desk) :
  let batch l := execute_command E D (JStr (txt "batch")) (batch_of l) in
  let o1 := batch l1 s in
  let o2 := batch l2 (stateP o1) in
  let o := batch (l1 ++ l2) s in
  results_of o = results_of o1 ++ results_of o2 /\
  stateP o = stateP o2 /\
  traceP o = traceP o1 ++ traceP o2.
Proof.
  intros batch o1 o2 o. subst batch o1 o2 o.
  destruct (batch_of_runs E D l1 s) as (r1 & s1 & t1 & Hl1 & _ & _ & H1).
  rewrite H1. cbn [stateP fst snd].
  destruct (batch_of_runs E D l2 s1) as (r2 & s2 & t2 & Hl2 & _ & _ & H2).
  rewrite H2.
  destruct (batch_of_runs E D (l1 ++ l2) s) as (r & s3 & t & Hl & _ & _ & H).
  rewrite H.
  specialize (Hl []). rewrite batch_loop_app in Hl.
  unfold bindP in Hl. rewrite (Hl1 []), (Hl2 ([] ++ r1)) in Hl.
  cbn [app] in Hl. injection Hl as Hr Hs Ht. subst r s3 t.
  split; [reflexivity|]. split; reflexivity.
Qed.

Section Scrolling.

Variable E : env.
Variable desk : Type.
Variable D : driver desk.

#[local] Arguments txt : simpl never.


End Scrolling.


(** ** The handler of the primitive commands, and the two ways to
       PowerShell *)

Section PrimitiveHandler.

Variable E : env.
Variable desk : Type.
Variable D : driver desk.

#[local] Arguments txt : simpl never.

Lemma credential_test_fails (req : request) :
  ~ authorised E req ->
  let auth_header :=
    match header (req_headers req) (txt "Authorization") with
    | Some v => v
    | None => []
    end in
  negb (startswith auth_header (txt "Bearer "))
  || negb (text_eqb (skipn 7 auth_header) (API_KEY E)) = true.
Proof.
  intros Hno. pose proof (credential_test E req) as Ht. cbn zeta in *.
  destruct (negb _ || negb _); [reflexivity|].
  destruct Hno. now apply Ht.
Qed.

Lemma from_M_print {B : Type} (line : text) (k : unit -> P desk B)
    (s : fs * desk) :
  bindP (from_M (print line)) k s
  = match k tt s with (r, s1, t) => (r, s1, Core (EvPrint line) :: t) end.
Proof. unfold bindP, from_M. cbn. now destruct s. Qed.

Lemma from_M_read_body {B : Type} (req : request) (n : Z)
    (k : bytes -> P desk B) (s : fs * desk) :
  bindP (from_M (read_body req n)) k s
  = match k (body_read req n) s with
    | (r, s1, t) => (r, s1, Core (EvReadBody n) :: t)
    end.
Proof. unfold bindP, from_M. cbn. now destruct s. Qed.

Lemma from_M_loads {B : Type} (data : bytes) (k : json -> P desk B)
    (s : fs * desk) :
  bindP (from_M (loads E data)) k s
  = match json_loads E data with
    | Ok payload =>
        match k payload s with
        | (r, s1, t) => (r, s1, Core (EvJsonLoads data) :: t)
        end
    | Raise e => (Raise e, s, [Core (EvJsonLoads data)])
    end.
Proof.
  unfold bindP, from_M, loads, bind, emit, lift. cbn.
  destruct (json_loads E data); destruct s; reflexivity.
Qed.

(** X19. A POST without the configured bearer token, on whatever path, is
    answered 401 and does nothing else than log the attempt: no body is
    read, no device is touched, the state is as it was. *)
Theorem post_without_token_does_nothing (req : request) (s : fs * desk) :
  ~ authorised E req ->
  do_POST E D req s
  = (Ok (mkResponse 401 (RawBody unauthorized_body)), s,
     [Core (EvPrint (txt "[AUTH] Unauthorized attempt"))]).
Proof.
  intros Hno. unfold do_POST.
  pose proof (credential_test_fails Hno) as Ht. cbn zeta in Ht.
  destruct (text_eqb (req_path req) (txt "/execute-encrypted")).
  - unfold from_M, handle_encrypted_execution. cbv zeta.
    rewrite Ht. cbn. now destruct s.
  - unfold handle_primitive_execution.
    rewrite Ht, from_M_print. reflexivity.
Qed.

(** X20. For an authorised request whose body parses to an object the
    answer follows the command: 200 with what [execute_command] returned
    for ['command'] and ['args'] (null and an empty dict when absent), 500
    with the text of what it raised; the state and the calls are those of
    the command, between the log lines of the handler. *)
Theorem primitive_answer_follows_command (req : request) (s : fs * desk)
    (v : text) (n : Z) (fields : dict) :
  authorised E req ->
  header (req_headers req) (txt "Content-Length") = Some v ->
  py_int E v = Ok n ->
  json_loads E (body_read req n) = Ok (JObj fields) ->
  let command := get fields (txt "command") JNull in
  let o := execute_command E D command (get fields (txt "args") (JObj []))
             s in
  handle_primitive_execution E D req s
  = (match resultP o with
     | Ok d => Ok (mkResponse 200 (JsonDumps (JObj d)))
     | Raise e => Ok (error_500 E e)
     end,
     stateP o,
     [Core (EvReadBody n); Core (EvJsonLoads (body_read req n));
      Core (EvPrint (txt "[EXEC] " ++ py_str E command))]
     ++ traceP o
     ++ match resultP o with
        | Ok _ => []
        | Raise e => [Core (EvPrint (txt "[ERROR] " ++ exn_str e));
                      Core (EvPrint (txt "[TRACE] " ++ format_exc E e))]
        end).
Proof.
  intros Hauth Hcl Hint Hloads command o.
  unfold handle_primitive_execution.
  pose proof (proj2 (credential_test E req) Hauth) as Ht. cbn zeta in Ht.
  rewrite Ht, Hcl. clear Ht.
  assert (Hbody :
    bindP (liftP (py_int E v))
      (fun content_length =>
         bindP (from_M (read_body req content_length))
           (fun body =>
              bindP (from_M (loads E body))
                (fun request =>
                   bindP (liftP (py_get request (txt "command") JNull))
                     (fun command =>
                        bindP (liftP (py_get request (txt "args") (JObj [])))
                          (fun args =>
                             bindP (from_M (print (txt "[EXEC] "
                                                   ++ py_str E command)))
                               (fun _ =>
                                  bindP (execute_command E D command args)
                                    (fun result =>
                                       retP (mkResponse 200
                                               (JsonDumps (JObj result)))))))))) s
    = (match resultP o with
       | Ok d => Ok (mkResponse 200 (JsonDumps (JObj d)))
       | Raise e => Raise e
       end, stateP o,
       [Core (EvReadBody n); Core (EvJsonLoads (body_read req n));
        Core (EvPrint (txt "[EXEC] " ++ py_str E command))]
       ++ traceP o)).
  { rewrite bindP_liftP, Hint, from_M_read_body, from_M_loads, Hloads.
    rewrite bindP_liftP. cbn [py_get]. rewrite bindP_liftP. cbn [py_get].
    fold (get fields (txt "command") JNull).
    fold (get fields (txt "args") (JObj [])). fold command.
    rewrite from_M_print. unfold bindP. fold o.
    destruct o as [[[dd|e] s1] t1]; cbn [resultP stateP traceP fst snd].
    - cbn. now rewrite app_nil_r.
    - reflexivity. }
  unfold try_exceptP. rewrite Hbody.
  destruct (resultP o) as [dd|e]; [now rewrite app_nil_r|].
  rewrite !from_M_print. unfold error_500, retP. reflexivity.
Qed.

(** X21. The handler of the primitive commands answers every request, with
    401, 200 or 500, and with 401 exactly when the bearer token is not the
    configured secret: no exception of a command or a device escapes
    it. *)
Theorem primitive_handler_always_answers (req : request) (s : fs * desk) :
  exists resp,
    resultP (handle_primitive_execution E D req s) = Ok resp /\
    (resp_status resp = 401%Z <-> ~ authorised E req) /\
    (resp_status resp = 401%Z \/ resp_status resp = 200%Z
     \/ resp_status resp = 500%Z).
Proof.
  pose proof (credential_test E req) as Htest. cbn zeta in Htest.
  unfold handle_primitive_execution.
  match goal with |- context [if ?c then _ else _] => destruct c end.
  - rewrite from_M_print. eexists. split; [reflexivity|]. split; [|now left].
    split; [|reflexivity]. intros _ Hauth. apply Htest in Hauth.
    discriminate.
  - assert (Hauth : authorised E req) by now apply Htest.
    set (Q := fun (r : result response) (_ : fs * desk) (_ : list action) =>
                exists resp, r = Ok resp /\
                  (resp_status resp = 200%Z \/ resp_status resp = 500%Z)).
    assert (Hstep : forall A (m : P desk A) (k : A -> P desk response) s1
                      (R : result response -> Prop),
               (forall e, R (Raise e)) ->
               (forall a s2, wpP (k a) s2 (fun r _ _ => R r)) ->
               wpP (bindP m k) s1 (fun r _ _ => R r)).
    { intros A m k s1 R He Hk. apply wpP_bind. unfold wpP at 1.
      destruct (resultP (m s1)) as [a|e]; [apply Hk|apply He]. }
    match goal with
    | |- context [try_exceptP ?m ?h s] =>
        assert (H : wpP (try_exceptP m h) s Q)
    end.
    { apply wpP_try_except.
      apply wpP_mono with
        (Q := fun (r : result response) (_ : fs * desk) (_ : list action) =>
                forall resp, r = Ok resp -> resp_status resp = 200%Z).
      - do 7 (apply Hstep; [discriminate|intros ? ?]).
        apply wpP_retP. now intros resp [= <-].
      - intros r s1 t1 Hr. destruct r as [resp|e].
        + exists resp. split; [reflexivity|]. left. now apply Hr.
        + do 2 (apply wpP_bind, wpP_from_M, wp_print).
          apply wpP_retP. eexists. split; [reflexivity|]. now right. }
    destruct H as (resp & Hresp & Hst). exists resp.
    split; [exact Hresp|]. split; [|tauto].
    split; [intros H; destruct Hst; congruence|tauto].
Qed.

Lemma run_powershell_decoded (b : bytes) (c : text) (f : fs) :
  utf8_decode E b = Ok c ->
  run_powershell E b f
  = bind (run E [txt "powershell"; txt "-Command"; c] None 30)
      (fun r =>
         let '(returncode, stdout, stderr) := r in
         ret [(txt "success", JBool (returncode =? 0)%Z);
              (txt "output", JStr (strip stdout));
              (txt "error",
               if is_nil stderr then JNull else JStr (strip stderr))]) f.
Proof.
  intros Hdec. unfold run_powershell, decode.
  now rewrite bind_lift, Hdec.
Qed.

(** X22. The primitive ['powershell'] and the encrypted type
    ['powershell'] are the same computation: for a command that is the
    UTF-8 text of the decrypted bytes, the same process with the same
    timeout, and the same answer or exception. *)
Theorem two_ways_to_powershell (b : bytes) (c : text) (s : fs * desk) :
  utf8_decode E b = Ok c ->
  execute_command E D (JStr (txt "powershell"))
    (JObj [(txt "command", JStr c)]) s
  = from_M (run_powershell E b) s.
Proof.
  intros Hdec. rewrite execute_command_eq. unfold execute_command_body.
  repeat match goal with
         | |- context [eq_str (JStr (txt ?a)) (txt ?b)] =>
             let v := eval vm_compute in (eq_str (JStr (txt a)) (txt b)) in
             change (eq_str (JStr (txt a)) (txt b)) with v
         end.
  cbv iota. cbn [normalize_args].
  rewrite (@index_found _ _ [(txt "command", JStr c)] (txt "command")
             (JStr c) _ _ eq_refl).
  unfold from_M at 1. rewrite (@run_powershell_decoded b c (fst s) Hdec).
  unfold run_command, bindP, from_M, bind.
  generalize (run E [txt "powershell"; txt "-Command"; c] None 30 (fst s)).
  intros [[[[[rc out] err]|e] f1] t1];
    cbn [result_of fs_of trace_of fst snd after app retP ret];
    rewrite ?app_nil_r; reflexivity.
Qed.

End PrimitiveHandler.

(** X23. The standalone tool never raises: whatever [subprocess.run] does,
    it runs the one process and returns the four fields, with [success]
    exactly for exit code 0, and with return code -1 and an empty output
    when the call raised. *)
Theorem execute_powershell_never_raises (E : env) (command : text) (f : fs) :
  let cmd := [txt "powershell"; txt "-Command"; command] in
  let ran := subprocess_run E f cmd None 30 in
  let o := execute_powershell E command f in
  trace_of o = [EvRun cmd None 30 (fst ran)] /\
  fs_of o = snd ran /\
  exists success output error returncode,
    result_of o
    = Ok [(txt "success", JBool success); (txt "output", JStr output);
          (txt "error", error); (txt "returncode", JInt returncode)] /\
    match fst ran with
    | Completed rc out err =>
        success = (rc =? 0)%Z /\ output = strip out /\ returncode = rc /\
        error = (if (rc =? 0)%Z then JNull else JStr (strip err))
    | RunRaised e =>
        success = false /\ output = [] /\ returncode = (-1)%Z /\
        error = JStr (match exn_cls e with
                      | TimeoutExpired =>
                          txt "Command timed out after 30 seconds"
                      | _ => exn_str e
                      end)
    end.
Proof.
  intros cmd ran o. subst cmd ran o.
  unfold execute_powershell, try_except, bind. cbv zeta.
  rewrite !run_outcome.
  destruct (subprocess_run E f _ None 30) as [[rc out err|e] f1];
    cbn [result_of fs_of trace_of fst snd after app ret raise].
  - destruct (rc =? 0)%Z eqn:Hrc;
      cbn [result_of fs_of trace_of fst snd after app ret];
      (split; [reflexivity|]); (split; [reflexivity|]);
      eexists _, _, _, _; (split; [reflexivity|]); rewrite ?Hrc; auto.
  - destruct (exn_cls e) eqn:Hc;
      cbn [result_of fs_of trace_of fst snd after app ret];
      (split; [reflexivity|]); (split; [reflexivity|]);
      eexists _, _, _, _; (split; [reflexivity|]); auto.
Qed.

(** ** The further properties at work in the small world *)

Section FurtherExamples.

Import Demo.
Import Toy.

Ltac find_in_trace := vm_compute; repeat (first [left; reflexivity | right]).

Lemma files_written_witness :
  In (EvWrite main_path lf_script true)
     (trace_of (decrypt_and_execute world (envelope crlf_script []) empty_fs))
  /\ ~ In CR lf_script.
Proof.
  assert (H : In (EvWrite main_path lf_script true)
                (trace_of (decrypt_and_execute world (envelope crlf_script [])
                             empty_fs))) by find_in_trace.
  split; [exact H|].
  exact (@files_written_lf_only world (envelope crlf_script []) empty_fs
           main_path lf_script true H).
Defined.

Lemma effects_only_after_decryption_witness :
  opened world
    (trace_of (decrypt_and_execute world (envelope crlf_script []) empty_fs)).
Proof.
  apply (@effects_only_after_decryption world (envelope crlf_script [])
           empty_fs (EvMkdtemp temp_dir)).
  - find_in_trace.
  - intros H. exact H.
Defined.

Lemma unparsable_body_witness :
  handle_encrypted_execution world unparsable_request empty_fs
  = (Ok (error_500 world (mkExn JSONDecodeError (txt "Expecting value"))),
     empty_fs,
     [EvReadBody 9; EvJsonLoads (txt "{not json");
      EvPrint (txt "[ERROR] Expecting value");
      EvPrint (txt "[TRACE] Traceback (most recent call last): Expecting value")]).
Proof.
  apply (@unparsable_body_is_500 world unparsable_request empty_fs (txt "9")
           9%Z (mkExn JSONDecodeError (txt "Expecting value")));
    reflexivity.
Defined.

Lemma parsed_body_witness :
  exists d,
    result_of (decrypt_and_execute world (envelope json_42 []) empty_fs)
    = Ok d /\
    result_of (handle_encrypted_execution world authorised_request empty_fs)
    = Ok (mkResponse 200 (JsonDumps (JObj d))) /\
    fs_of (handle_encrypted_execution world authorised_request empty_fs)
    = fs_of (decrypt_and_execute world (envelope json_42 []) empty_fs).
Proof.
  apply (@parsed_body_is_200 world authorised_request empty_fs (txt "17")
           17%Z (envelope json_42 []));
    reflexivity.
Defined.

Lemma unusable_length_witness :
  exists e,
    handle_encrypted_execution world lengthless_request empty_fs
    = (Ok (error_500 world e), empty_fs,
       [EvPrint (txt "[ERROR] " ++ exn_str e);
        EvPrint (txt "[TRACE] " ++ format_exc world e)]) /\
    exn_cls e = TypeError.
Proof.
  apply (@unusable_length_is_500 world lengthless_request empty_fs);
    [reflexivity|exact I].
Defined.


Lemma unknown_command_witness :
  execute_command world desk_driver (JStr (txt "dance")) JNull
    (empty_fs, origin)
  = (Raise (mkExn ValueError (txt "Unknown command: dance")),
     (empty_fs, origin), []).
Proof.
  exact (@unknown_command_raises world pointer desk_driver
           (JStr (txt "dance")) JNull (empty_fs, origin) eq_refl).
Defined.


Lemma batch_witness :
  exists results s1 t,
    execute_command world desk_driver (JStr (txt "batch"))
      (batch_of [move_cmd; dance_cmd]) (empty_fs, origin)
    = (Ok [(txt "success", JBool true);
           (txt "results", JArr results);
           (txt "count", JInt 2)], s1, t) /\
    length results = 2%nat /\
    Forall reports results.
Proof.
  exact (@batch_answers_every_command world pointer desk_driver
           (batch_of [move_cmd; dance_cmd]) [move_cmd; dance_cmd]
           (empty_fs, origin) eq_refl).
Defined.

Lemma failure_is_an_exception_witness :
  exists b,
    dict_lookup [(txt "success", JBool true);
                 (txt "message", JStr (txt "Moved mouse to (?, ?)"));
                 (txt "x", JInt 10); (txt "y", JInt 20)] (txt "success")
    = Some (JBool b) /\
    (eq_str (JStr (txt "mouse_move")) (txt "powershell") = false -> b = true).
Proof.
  apply (@failure_is_an_exception world pointer desk_driver
           (JStr (txt "mouse_move")) move_args (empty_fs, origin)).
  vm_compute. reflexivity.
Defined.


Lemma post_without_token_witness :
  do_POST world desk_driver forged_request (empty_fs, origin)
  = (Ok (mkResponse 401 (RawBody unauthorized_body)), (empty_fs, origin),
     [Core (EvPrint (txt "[AUTH] Unauthorized attempt"))]).
Proof.
  apply (@post_without_token_does_nothing world pointer desk_driver
           forged_request (empty_fs, origin)).
  intros H. vm_compute in H. discriminate H.
Defined.

Lemma primitive_answer_witness :
  handle_primitive_execution desk_world desk_driver scroll_request
    (empty_fs, origin)
  = (Ok (mkResponse 200
           (JsonDumps
              (JObj [(txt "success", JBool true);
                     (txt "message", JStr (txt "Scrolled down ? clicks"))]))),
     (empty_fs, origin),
     [Core (EvReadBody 13); Core (EvJsonLoads scroll_body);
      Core (EvPrint (txt "[EXEC] mouse_scroll")); Scroll (JInt (-5))]).
Proof.
  exact (@primitive_answer_follows_command desk_world pointer desk_driver
           scroll_request (empty_fs, origin) (txt "13") 13%Z
           [(txt "command", JStr (txt "mouse_scroll"));
            (txt "args", scroll_args)]
           eq_refl eq_refl eq_refl eq_refl).
Defined.

Lemma two_ways_witness :
  execute_command world desk_driver (JStr (txt "powershell"))
    (JObj [(txt "command", JStr (txt "Get-Date"))]) (empty_fs, origin)
  = from_M (run_powershell world (txt "Get-Date")) (empty_fs, origin).
Proof.
  exact (@two_ways_to_powershell world pointer desk_driver (txt "Get-Date")
           (txt "Get-Date") (empty_fs, origin) eq_refl).
Defined.

End FurtherExamples.
